(** * From_Thought_to_Prompt: the image-captioning batch scripts

    A shallow embedding of the four batch scripts under [image_captioning/]:

    - [consolidate_original_prompts_for_enhancement.py]  (module [Consolidate])
    - [caption_enhanced_images.py]                       (module [MultiModel])
    - [civitai_image_captioning.py]                      (module [Civitai])
    - [hf_lexica_image_captioning.py]                    (module [Lexica])

    The scripts are sequential loops around the file system, PIL, pandas and a
    remote captioning service.  Each external collaborator is a field of a
    world record (what a directory lists, what reading or decoding a file
    gives, what the n-th remote call answers); the loops, counters, guards and
    exception handlers are transcribed from the Python text.

    A Python [str] is represented by its UTF-8 encoding, a [string] of bytes.
    Looking for ASCII text ([endswith], [replace], [split], [rfind]) and
    comparing strings ([sorted]) is done on the bytes, which gives the same
    result as on the code points; what depends on the class of a character
    ([strip], [\d], [int], slicing by position) is done on the characters
    ([Py.chars]), with the classes of Unicode 14.0 that CPython 3.11 has.
    Integers of Python are [Z]; the one place where a fixed width matters,
    the cast to the integer dtype of pandas, checks the 64-bit bound. *)

From Stdlib Require Import Ascii String ZArith QArith Lia.
From stdpp Require Import base decidable option list sets gmap strings pretty sorting.

Set Default Proof Using "Type".
Local Set Warnings "-register-all".
Local Open Scope Z_scope.

(** ** Exceptions and results *)

(** The exceptions the scripts can meet.  Every one of them is an instance
    of [Exception], so [except Exception] catches them all. *)
Inductive exn : Type :=
  | RateLimitError    (* openai.RateLimitError *)
  | KeyError
  | ValueError
  | OverflowError
  | Exception.        (* any other subclass of Exception *)

(** The outcome of a Python expression that may raise. *)
Inductive result (A : Type) : Type :=
  | Ok (a : A)
  | Raise (e : exn).
Arguments Ok {A} a.
Arguments Raise {A} e.

Definition is_ok {A} (r : result A) : bool :=
  match r with Ok _ => true | Raise _ => false end.

(** ** Python string methods *)

Module Py.

(** *** Bytes *)

Definition byte (c : ascii) : N := N_of_ascii c.

Fixpoint length (s : string) : nat :=
  match s with
  | EmptyString => 0
  | String _ s' => S (length s')
  end.

Fixpoint take (n : nat) (s : string) : string :=
  match n, s with
  | S n', String c s' => String c (take n' s')
  | _, _ => EmptyString
  end.

Fixpoint drop (n : nat) (s : string) : string :=
  match n, s with
  | S n', String _ s' => drop n' s'
  | _, _ => s
  end.

(** [s.startswith(p)] *)
Fixpoint startswith (s p : string) : bool :=
  match p, s with
  | EmptyString, _ => true
  | String a p', String b s' => if decide (a = b) then startswith s' p' else false
  | String _ _, EmptyString => false
  end.

(** [s.endswith(suf)] *)
Definition endswith (s suf : string) : bool :=
  bool_decide (drop (length s - length suf) s = suf).

(** *** Characters: the UTF-8 sequences of a string *)

(** A continuation byte [10xxxxxx] at the head of [s]: its six bits and the
    rest of the string. *)
Definition cont (s : string) : option (N * string) :=
  match s with
  | String b s' =>
      if (128 <=? byte b)%N && (byte b <? 192)%N
      then Some ((byte b - 128)%N, s') else None
  | EmptyString => None
  end.

(** A byte that does not start a well-formed sequence is a character by
    itself: the lone surrogate U+DC00 + byte that the [surrogateescape]
    error handler of Python makes of it. *)
Definition raw (b : N) : N * nat := ((56320 + b)%N, 1%nat).

(** The code point at the head of a string and the number of bytes that
    encode it.  Overlong forms, surrogates and code points above U+10FFFF are
    not well formed. *)
Definition head_char (s : string) : N * nat :=
  match s with
  | EmptyString => (0%N, 0%nat)
  | String b0 s1 =>
      let n0 := byte b0 in
      if (n0 <? 128)%N then (n0, 1%nat)
      else
        match cont s1 with
        | None => raw n0
        | Some (x1, s2) =>
            if (194 <=? n0)%N && (n0 <? 224)%N
            then (((n0 - 192) * 64 + x1)%N, 2%nat)
            else
              match cont s2 with
              | None => raw n0
              | Some (x2, s3) =>
                  if (224 <=? n0)%N && (n0 <? 240)%N then
                    let v := (((n0 - 224) * 64 + x1) * 64 + x2)%N in
                    if (2048 <=? v)%N && negb ((55296 <=? v)%N && (v <? 57344)%N)
                    then (v, 3%nat) else raw n0
                  else
                    match cont s3 with
                    | None => raw n0
                    | Some (x3, _) =>
                        let v := ((((n0 - 240) * 64 + x1) * 64 + x2) * 64 + x3)%N in
                        if (240 <=? n0)%N && (n0 <? 245)%N
                           && (65536 <=? v)%N && (v <? 1114112)%N
                        then (v, 4%nat) else raw n0
                    end
              end
        end
  end.

(** A character of a string: its code point and the bytes it is made of. *)
Definition uchar : Type := N * string.

(** The characters of a string, in order.  [skip] counts the bytes of the
    current character still to be passed. *)
Fixpoint chars_go (skip : nat) (s : string) : list uchar :=
  match s with
  | EmptyString => []
  | String _ s' =>
      match skip with
      | S k => chars_go k s'
      | O =>
          let '(cp, n) := head_char s in
          (cp, take n s) :: chars_go (n - 1) s'
      end
  end.

Definition chars (s : string) : list uchar := chars_go 0 s.

Definition bytes_of (l : list uchar) : string :=
  foldr (λ c acc, snd c +:+ acc) EmptyString l.

(** [len(s)] *)
Definition nchars (s : string) : nat := List.length (chars s).

(** [s[:n]] *)
Definition take_chars (n : nat) (s : string) : string :=
  bytes_of (List.firstn n (chars s)).

(** *** Character classes (Unicode 14.0, as in CPython 3.11) *)

Definition in_range (lo hi cp : N) : bool := ((lo <=? cp) && (cp <=? hi))%N.

(** [str.isspace]: what [str.strip()] removes. *)
Definition is_space (cp : N) : bool :=
  in_range 9 13 cp || in_range 28 32 cp
  || (cp =? 133)%N || (cp =? 160)%N || (cp =? 5760)%N
  || in_range 8192 8202 cp || in_range 8232 8233 cp
  || (cp =? 8239)%N || (cp =? 8287)%N || (cp =? 12288)%N.

(** The decimal digits (category Nd) come in runs of ten, from the digit
    zero to the digit nine of a script; these are the zeros. *)
Definition digit_zeros : list N :=
  [ 48; 1632; 1776; 1984; 2406; 2534; 2662; 2790; 2918; 3046; 3174; 3302;
    3430; 3558; 3664; 3792; 3872; 4160; 4240; 6112; 6160; 6470; 6608; 6784;
    6800; 6992; 7088; 7232; 7248; 42528; 43216; 43264; 43472; 43504; 43600;
    44016; 65296; 66720; 68912; 69734; 69872; 69942; 70096; 70384; 70736;
    70864; 71248; 71360; 71472; 71904; 72016; 72784; 73040; 73120; 92768;
    92864; 93008; 120782; 120792; 120802; 120812; 120822; 123200; 123632;
    125264; 130032 ]%N.

(** [unicodedata.decimal]: the value of a decimal digit. *)
Definition decimal (cp : N) : option N :=
  (λ z, (cp - z)%N) <$> List.find (λ z, in_range z (z + 9) cp) digit_zeros.

(** [str.isdecimal], and [\d] in a [str] pattern of [re]. *)
Definition is_digit (cp : N) : bool :=
  match decimal cp with Some _ => true | None => false end.

Definition digit_value (cp : N) : Z := Z.of_N (default 0%N (decimal cp)).

Fixpoint take_while {A} (p : A → bool) (l : list A) : list A :=
  match l with
  | x :: l' => if p x then x :: take_while p l' else []
  | [] => []
  end.

Fixpoint drop_while {A} (p : A → bool) (l : list A) : list A :=
  match l with
  | x :: l' => if p x then drop_while p l' else l
  | [] => []
  end.

(** Without the elements at both ends that satisfy [p]. *)
Definition trim {A} (p : A → bool) (l : list A) : list A :=
  reverse (drop_while p (reverse (drop_while p l))).

(** [s.strip()] *)
Definition strip (s : string) : string :=
  bytes_of (trim (λ c, is_space (fst c)) (chars s)).

(** [s.rfind(c)] for a one-character needle; [-1] when absent.  The index
    counts bytes; it is only used to cut the same string. *)
Fixpoint rfind (c : ascii) (s : string) : Z :=
  match s with
  | EmptyString => -1
  | String a s' =>
      let i := rfind c s' in
      if 0 <=? i then i + 1 else if decide (a = c) then 0 else -1
  end.

(** [re.search(r"(\d+)", s)]: the first match of the greedy pattern. *)
Fixpoint search_run (l : list uchar) : option (list uchar) :=
  match l with
  | [] => None
  | c :: l' =>
      if is_digit (fst c) then Some (take_while (λ c, is_digit (fst c)) l)
      else search_run l'
  end.

Definition search_digits (s : string) : option string :=
  bytes_of <$> search_run (chars s).

(** The number a run of decimal digits denotes. *)
Definition value_from (acc : Z) (l : list uchar) : Z :=
  fold_left (λ a c, 10 * a + digit_value (fst c)) l acc.

Definition digits_value_from (acc : Z) (s : string) : Z := value_from acc (chars s).
Definition digits_value : string → Z := digits_value_from 0.

Definition all_digits (s : string) : bool :=
  forallb (λ c, is_digit (fst c)) (chars s).

Definition no_digit (s : string) : bool :=
  forallb (λ c, negb (is_digit (fst c))) (chars s).

(** [posixpath.splitext]: the extension starts at the last dot of the last
    path component, unless that component has only leading dots before it. *)
Fixpoint only_dots_between (p : string) (lo hi : nat) : bool :=
  (* the [while filenameIndex < dotIndex] scan of [genericpath._splitext] *)
  match hi with
  | O => true
  | S hi' =>
      match lo with
      | S lo' =>
          match p with
          | String _ p' => only_dots_between p' lo' hi'
          | EmptyString => true
          end
      | O =>
          match p with
          | String c p' =>
              if decide (c = "."%char) then only_dots_between p' O hi' else false
          | EmptyString => true
          end
      end
  end.

Definition splitext (p : string) : string * string :=
  let sepIndex := rfind "/"%char p in
  let dotIndex := rfind "."%char p in
  if (sepIndex <? dotIndex)
     && negb (only_dots_between p (Z.to_nat (sepIndex + 1)) (Z.to_nat dotIndex))
  then (take (Z.to_nat dotIndex) p, drop (Z.to_nat dotIndex) p)
  else (p, EmptyString).

(** [s.replace(old, new)]: every non-overlapping occurrence, left to right.
    [skip] counts the bytes of a matched occurrence still to be dropped. *)
Fixpoint replace_go (old new : string) (skip : nat) (s : string) : string :=
  match s with
  | EmptyString => EmptyString
  | String c s' =>
      match skip with
      | S k => replace_go old new k s'
      | O =>
          if startswith s old
          then new +:+ replace_go old new (length old - 1) s'
          else String c (replace_go old new O s')
      end
  end.

Definition replace (s old new : string) : string :=
  match old with
  | EmptyString => bytes_of ((λ c, (fst c, new +:+ snd c)) <$> chars s) +:+ new
  | _ => replace_go old new O s
  end.

(** [s.split(sep)] for a one-character ASCII separator: never the empty
    list. *)
Fixpoint split (sep : ascii) (s : string) : list string :=
  match s with
  | EmptyString => [EmptyString]
  | String c s' =>
      if decide (c = sep) then EmptyString :: split sep s'
      else match split sep s' with
           | h :: t => String c h :: t
           | [] => [String c EmptyString]
           end
  end.

Definition lower_char (c : ascii) : ascii :=
  let n := nat_of_ascii c in
  if (65 <=? n)%nat && (n <=? 90)%nat then ascii_of_nat (n + 32) else c.

(** [s.lower()] on the ASCII letters.  The scripts only compare the result
    with words of the letters b, e, g, j, n, p and w, and no character
    outside ASCII has a lower-case form made of such letters. *)
Fixpoint lower (s : string) : string :=
  match s with
  | EmptyString => EmptyString
  | String c s' => String (lower_char c) (lower s')
  end.

(** [int(s)] in base 10: white space around, an optional sign, then decimal
    digits of any script, where single underscores may separate digits.  The
    white space [int] skips is that of [str.isspace] without the separators
    U+001C to U+001F.  A literal of more than [max_str_digits] digits is
    refused ([sys.int_info.default_max_str_digits]). *)
Definition int_space (cp : N) : bool :=
  in_range 9 13 cp || (cp =? 32)%N || ((128 <=? cp)%N && is_space cp).

Fixpoint int_body (acc : Z) (after_digit : bool) (l : list uchar) : option Z :=
  match l with
  | [] => if after_digit then Some acc else None
  | c :: l' =>
      if is_digit (fst c) then int_body (10 * acc + digit_value (fst c)) true l'
      else if (fst c =? 95)%N     (* the underscore *)
           then (if after_digit then int_body acc false l' else None)
           else None
  end.

Definition max_str_digits : Z := 4300.

Definition int (s : string) : result Z :=
  let t := trim (λ c, int_space (fst c)) (chars s) in
  let '(negative, body) :=
    match t with
    | c :: r =>
        if (fst c =? 45)%N then (true, r)          (* minus *)
        else if (fst c =? 43)%N then (false, r)    (* plus *)
        else (false, t)
    | [] => (false, t)
    end in
  match int_body 0 false body with
  | Some v =>
      if max_str_digits <? Z.of_nat (List.length (List.filter (λ c, is_digit (fst c)) body))
      then Raise ValueError
      else Ok (if negative : bool then - v else v)
  | None => Raise ValueError
  end.

(** [str(n)] for a natural number. *)
Definition str_nat (n : nat) : string := pretty n.

(** [f"{n:07d}"]: decimal, padded with zeros on the left to seven characters. *)
Fixpoint zeros (k : nat) : string :=
  match k with
  | O => EmptyString
  | S k' => String "0"%char (zeros k')
  end.

Definition format_07d (n : nat) : string :=
  let d := str_nat n in zeros (7 - length d) +:+ d.

(** Truth value of an optional string: [None] and [""] are falsy. *)
Definition truthy_str (o : option string) : bool :=
  match o with
  | Some (String _ _) => true
  | _ => false
  end.

End Py.

(** [sorted(names)]: ascending in the byte-wise lexicographic order. *)
Definition sorted (names : list string) : list string :=
  merge_sort String.le names.

(** ** pandas: ordering rows by an integer key.

    [DataFrame.sort_values(by="id")] returns the rows in ascending order of
    the key.  The order pandas gives to rows with equal keys is not part of
    its contract (the default sort is not stable); nothing proved below
    depends on it. *)
Definition key_le {A} (key : A → Z) : relation A := λ r1 r2, key r1 ≤ key r2.

#[global] Instance key_le_dec {A} (key : A → Z) : RelDecision (key_le key).
Proof. intros r1 r2. unfold key_le. apply _. Defined.

#[global] Instance key_le_total {A} (key : A → Z) : Total (key_le key).
Proof. intros r1 r2. unfold key_le. lia. Qed.

Definition sort_values {A} (key : A → Z) (rows : list A) : list A :=
  merge_sort (key_le key) rows.

(** * consolidate_original_prompts_for_enhancement.py *)

Module Consolidate.

(** The folder [ORIGINAL]: what [os.listdir] returns, and for each name what
    [open(..., encoding="utf-8").read()] gives. *)
Record World := {
  listdir : list string;
  read_text : string → result string;
}.

Record PromptRecord := {
  id : Z;
  prompt_original : string;
}.

Definition txt_files (w : World) : list string :=
  sorted (filter (λ f, Py.endswith f ".txt") (listdir w)).

(** The [for fname in txt_files] loop: [data] collects [(file_id, prompt)]
    for every file that could be read; a failed read is printed and skipped. *)
Fixpoint read_prompts (w : World) (files : list string) : list (string * string) :=
  match files with
  | [] => []
  | fname :: rest =>
      let file_id := fst (Py.splitext fname) in
      match read_text w fname with
      | Ok text => (file_id, Py.strip text) :: read_prompts w rest
      | Raise _ => read_prompts w rest
      end
  end.

(** [.str.extract(r"(\d+)")]: the first digit run of each cell, or NaN. *)
Definition str_extract (col : list string) : list (option string) :=
  Py.search_digits <$> col.

(** [.astype(int)] on one cell: NaN cannot be cast; a string is converted as
    [int] does, and the value has to fit the 64-bit integer dtype. *)
Definition cell_astype_int (c : option string) : result Z :=
  match c with
  | None => Raise ValueError
  | Some run =>
      match Py.int run with
      | Raise e => Raise e
      | Ok v => if v <? 2 ^ 63 then Ok v else Raise OverflowError
      end
  end.

Fixpoint astype_int (col : list (option string)) : result (list Z) :=
  match col with
  | [] => Ok []
  | c :: col' =>
      match cell_astype_int c with
      | Raise e => Raise e
      | Ok v =>
          match astype_int col' with
          | Raise e => Raise e
          | Ok vs => Ok (v :: vs)
          end
      end
  end.

(** The whole script: [Ok rows] is the content of the CSV it writes,
    [Raise e] a run that dies before [to_csv]. *)
Definition consolidate (w : World) : result (list PromptRecord) :=
  let data := read_prompts w (txt_files w) in
  match data with
  | [] => Raise KeyError   (* [pd.DataFrame([])] has no column "id" *)
  | _ =>
      match astype_int (str_extract (fst <$> data)) with
      | Raise e => Raise e
      | Ok ids =>
          Ok (sort_values id
                (zip_with (λ i d, {| id := i; prompt_original := snd d |}) ids data))
      end
  end.

End Consolidate.


(** Control after one loop iteration: go on with the next item, or [break]. *)
Inductive flow : Type :=
  | Next
  | Break.

(** * caption_enhanced_images.py *)

Module MultiModel.

Definition num_samples : nat := 200.
Definition save_interval : nat := 50.

(** One model folder and the remote service.  Names are relative to the
    folder.  [png_base64] is the body of [encode_image]'s [try]: open the
    file with PIL, convert to RGB, save as PNG, base64-encode.  [api n b64] is
    what the [n]-th call of [openai.chat.completions.create] yields with this
    image: the message content, or an exception. *)
Record World := {
  listdir : list string;
  path_exists : string → bool;
  read_text : string → result string;
  png_base64 : string → result string;
  api : nat → string → result string;
}.

Record CaptionRecord := {
  id : Z;
  prompt : string;
  image_filename : string;
  caption : string;
}.

(** [temp_csv] is the content of [<model>_captions_temp.csv] ([None]: not
    written yet), [calls] the number of remote calls made so far, [slept] the
    arguments of [time.sleep] in order. *)
Record State := {
  records : list CaptionRecord;
  temp_csv : option (list CaptionRecord);
  calls : nat;
  slept : list Q;
}.

Definition init : State :=
  {| records := []; temp_csv := None; calls := 0; slept := [] |}.

Definition encode_image (w : World) (image_path : string) : option string :=
  match png_base64 w image_path with
  | Ok b64 => Some b64
  | Raise _ => None
  end.

(** [for attempt in range(retries)], from [attempt] on with [remaining]
    iterations to go.  Returns the caption, the call counter and the sleeps. *)
Fixpoint attempts (w : World) (b64_image : string) (delay : Q)
    (attempt remaining : nat) (n : nat) : string * nat * list Q :=
  match remaining with
  | O => (EmptyString, n, [])
  | S remaining' =>
      match api w n b64_image with
      | Ok content => (Py.strip content, S n, [])
      | Raise _ =>
          let '(c, n', sl) := attempts w b64_image delay (S attempt) remaining' (S n) in
          (c, n', (delay * inject_Z (Z.of_nat attempt + 1))%Q :: sl)
      end
  end.

Definition get_caption_from_api (w : World) (b64_image : string)
    (retries : nat) (delay : Q) (n : nat) : string * nat * list Q :=
  attempts w b64_image delay 0 retries n.

Definition default_retries : nat := 3.
Definition default_delay : Q := 1.5.

(** One iteration of the loop of [process_model_folder]; [total] is
    [len(png_files)].  [Raise]: [int(img_id)] failed and nothing catches it. *)
Definition step (w : World) (total : nat) (item : nat * string) (st : State)
    : result State :=
  let '(idx, fname) := item in
  let img_id := Py.replace fname ".png" "" in
  let txt_path := img_id +:+ ".txt" in
  if negb (path_exists w txt_path) then Ok st
  else
    match read_text w txt_path with
    | Raise _ => Ok st
    | Ok text =>
        let prompt := Py.strip text in
        match encode_image w fname with
        | None | Some EmptyString => Ok st
        | Some b64_image =>
            let '(caption, n', sl) :=
              get_caption_from_api w b64_image default_retries default_delay (calls st) in
            if decide (caption = "") then
              Ok {| records := records st; temp_csv := temp_csv st;
                    calls := n'; slept := slept st ++ sl |}
            else
              match Py.int img_id with
              | Raise e => Raise e
              | Ok n =>
                  let records' :=
                    records st ++ [ {| id := n; prompt := prompt;
                                       image_filename := fname; caption := caption |} ] in
                  let temp' :=
                    if ((idx mod save_interval =? 0) || (idx =? total))%nat
                    then Some records' else temp_csv st in
                  Ok {| records := records'; temp_csv := temp';
                        calls := n'; slept := slept st ++ sl ++ [1.5%Q] |}
              end
        end
    end.

Fixpoint loop (w : World) (total : nat) (items : list (nat * string)) (st : State)
    : result State :=
  match items with
  | [] => Ok st
  | item :: rest =>
      match step w total item st with
      | Raise e => Raise e
      | Ok st' => loop w total rest st'
      end
  end.

(** [enumerate(xs, start=k)] *)
Fixpoint enumerate {A} (k : nat) (xs : list A) : list (nat * A) :=
  match xs with
  | [] => []
  | x :: xs' => (k, x) :: enumerate (S k) xs'
  end.

Definition png_files (w : World) : list string :=
  take num_samples (sorted (filter (λ f, Py.endswith f ".png") (listdir w))).

Definition process_model_folder (w : World) : result State :=
  loop w (List.length (png_files w)) (enumerate 1 (png_files w)) init.

(** STEP 3 for one model: the content of [<model>_captions_sorted.csv]. *)
Definition model_csv (w : World) : result (list CaptionRecord) :=
  match process_model_folder w with
  | Raise e => Raise e
  | Ok st =>
      match records st with
      | [] => Raise KeyError   (* [sort_values(by="id")] on a frame without columns *)
      | recs => Ok (sort_values id recs)
      end
  end.

End MultiModel.

(** * civitai_image_captioning.py *)

Module Civitai.

Definition max_failures : nat := 10.

Record Row := {
  id : string;
  prompt : string;
  image_filename : string;
}.

(** A row of [records]; [caption = None] is the Python [None]. *)
Record CaptionRow := {
  c_id : string;
  c_prompt : string;
  c_image_filename : string;
  caption : option string;
}.

(** [png_base64 f] is the body of [encode_image]'s [try] on the file [f] of
    [TARGET_DIR]: its base64 PNG text, or the exception PIL raised.
    [api n b64] is what the [n]-th call of [client.chat.completions.create]
    yields with this image: the message content, or an exception. *)
Record World := {
  png_base64 : string → result string;
  api : nat → string → result string;
}.

(** The variables of [generate_captions], and its effects: [calls] lists the
    image files submitted to the service, in order (the next call is number
    [length calls]); [slept] lists the arguments of [time.sleep]. *)
Record State := {
  records : list CaptionRow;
  fail_count : nat;
  bad_files : gset string;
  calls : list string;
  slept : list Q;
}.

Definition init : State :=
  {| records := []; fail_count := 0; bad_files := ∅; calls := []; slept := [] |}.

Definition encode_image (w : World) (image_path : string) : option string :=
  match png_base64 w image_path with
  | Ok b64 => Some b64
  | Raise _ => None
  end.

Definition failed_row (row : Row) : CaptionRow :=
  {| c_id := id row; c_prompt := prompt row;
     c_image_filename := image_filename row; caption := None |}.

(** The two places that record a failure: append the row without caption, add
    the file to [bad_files], count, and leave the loop at [max_failures]. *)
Definition record_failure (row : Row) (st : State) (calls' : list string)
    : State * flow :=
  let st' :=
    {| records := records st ++ [failed_row row];
       fail_count := S (fail_count st);
       bad_files := bad_files st ∪ {[ image_filename row ]};
       calls := calls';
       slept := slept st |} in
  (st', if (max_failures <=? fail_count st')%nat then Break else Next).

Definition step (w : World) (row : Row) (st : State) : State * flow :=
  let image_file := image_filename row in
  let b64 := encode_image w image_file in
  if negb (Py.truthy_str b64) then record_failure row st (calls st)
  else
    match api w (List.length (calls st)) (default EmptyString b64) with
    | Ok content =>
        ({| records := records st ++
              [ {| c_id := id row; c_prompt := prompt row;
                   c_image_filename := image_file;
                   caption := Some (Py.strip content) |} ];
            fail_count := fail_count st;
            bad_files := bad_files st;
            calls := calls st ++ [image_file];
            slept := slept st ++ [16%Q] |}, Next)
    | Raise RateLimitError =>
        ({| records := records st;
            fail_count := fail_count st;
            bad_files := bad_files st;
            calls := calls st ++ [image_file];
            slept := slept st ++ [5%Q] |}, Next)
    | Raise _ => record_failure row st (calls st ++ [image_file])
    end.

Fixpoint loop (w : World) (df : list Row) (st : State) : State * flow :=
  match df with
  | [] => (st, Next)
  | row :: rest =>
      match step w row st with
      | (st', Break) => (st', Break)
      | (st', Next) => loop w rest st'
      end
  end.

(** [df_out[~df_out["image_filename"].isin(bad_files)]] *)
Definition drop_bad (bad : gset string) (rows : list CaptionRow) : list CaptionRow :=
  filter (λ r, c_image_filename r ∉ bad) rows.

(** The content of the CSV that [generate_captions] writes. *)
Definition generate_captions (w : World) (df : list Row) : list CaptionRow :=
  let st := fst (loop w df init) in
  drop_bad (bad_files st) (records st).

(** ** STEP 1: [extract_prompts] *)

(** A value read by [json.load], as far as the script looks at it: [null], a
    string, an object (one entry per key), or something else (a number, a
    boolean, an array). *)
Inductive jvalue : Type :=
  | JNull
  | JStr (s : string)
  | JObj (members : list (string * jvalue))
  | JOther.

Fixpoint member (k : string) (members : list (string * jvalue)) : option jvalue :=
  match members with
  | [] => None
  | (k', v) :: rest => if decide (k' = k) then Some v else member k rest
  end.

(** [v.get(k, dflt)]: only a dict has the method; on anything else the call
    raises [AttributeError]. *)
Definition dict_get (v : jvalue) (k : string) (dflt : jvalue) : result jvalue :=
  match v with
  | JObj members => Ok (default dflt (member k members))
  | _ => Raise Exception
  end.

(** The double quote character (code 34), and the string of it. *)
Definition quote_char : ascii := "034"%char.
Definition quote : string := String quote_char EmptyString.

(** [data.get("meta", {}).get("prompt", "")], then [.replace] of every
    double quote by two of them, then [.strip()]: only a string has
    [replace]. *)
Definition meta_prompt (data : jvalue) : result string :=
  match dict_get data "meta" (JObj []) with
  | Raise e => Raise e
  | Ok meta =>
      match dict_get meta "prompt" (JStr EmptyString) with
      | Raise e => Raise e
      | Ok (JStr p) => Ok (Py.strip (Py.replace p quote (quote +:+ quote)))
      | Ok _ => Raise Exception
      end
  end.

(** [TARGET_DIR] as [extract_prompts] sees it: what [os.listdir] returns,
    which paths exist, and what [json.load] gives for a file (an exception
    when it cannot be opened, decoded or parsed). *)
Record Folder := {
  listdir : list string;
  path_exists : string → bool;
  json_load : string → result jvalue;
}.

Record PState := {
  seen_prompts : gset string;
  rows : list Row;
}.

(** One iteration of the loop of [extract_prompts].  Nothing catches the
    exceptions of the [with] block. *)
Definition prompt_step (d : Folder) (filename : string) (st : PState)
    : result PState :=
  if negb (Py.endswith filename ".json") then Ok st
  else
    let base := Py.take (Py.length filename - 5) filename in
    if negb (path_exists d (base +:+ ".jpg")) then Ok st
    else
      match json_load d filename with
      | Raise e => Raise e
      | Ok data =>
          match meta_prompt data with
          | Raise e => Raise e
          | Ok prompt =>
              if bool_decide (prompt = "") || bool_decide (prompt ∈ seen_prompts st)
              then Ok st
              else Ok {| seen_prompts := seen_prompts st ∪ {[ prompt ]};
                         rows := rows st ++
                           [ {| id := base; prompt := prompt;
                                image_filename := base +:+ ".jpg" |} ] |}
          end
      end.

Fixpoint prompt_loop (d : Folder) (filenames : list string) (st : PState)
    : result PState :=
  match filenames with
  | [] => Ok st
  | filename :: rest =>
      match prompt_step d filename st with
      | Raise e => Raise e
      | Ok st' => prompt_loop d rest st'
      end
  end.

Definition extract_prompts (d : Folder) : result (list Row) :=
  match prompt_loop d (listdir d) {| seen_prompts := ∅; rows := [] |} with
  | Raise e => Raise e
  | Ok st => Ok (rows st)
  end.

(** ** MAIN EXECUTION: the CSV written, unless [extract_prompts] raised. *)
Definition main (d : Folder) (w : World) : result (list CaptionRow) :=
  match extract_prompts d with
  | Raise e => Raise e
  | Ok df_prompts => Ok (generate_captions w df_prompts)
  end.

End Civitai.

(** * hf_lexica_image_captioning.py *)

Module Lexica.

Definition max_consecutive_fails : nat := 20.
Definition max_api_failures : nat := 10.

(** The Python values a dataset cell can hold, as far as the script looks at
    them: [None], a [str], a [bytes] object, a [dict] with string keys, or
    some other object of which only the truth value matters (a float NaN is
    [POther true]). *)
Inductive pyval : Type :=
  | PNone
  | PStr (s : string)
  | PBytes (b : string)
  | PDict (entries : list (string * pyval))
  | POther (truth : bool).

Definition truthy (v : pyval) : bool :=
  match v with
  | PNone => false
  | PStr s => negb (bool_decide (s = ""))
  | PBytes b => negb (bool_decide (b = ""))
  | PDict entries => negb (bool_decide (entries = []))
  | POther t => t
  end.

(** [a or b] *)
Definition py_or (a b : pyval) : pyval := if truthy a then a else b.

Fixpoint assoc (k : string) (entries : list (string * pyval)) : option pyval :=
  match entries with
  | [] => None
  | (k', v) :: rest => if decide (k' = k) then Some v else assoc k rest
  end.

(** A dataset row ([pandas.Series]) as label/value pairs; [row.get(k)]. *)
Definition Series : Type := list (string * pyval).
Definition get (row : Series) (k : string) : pyval := default PNone (assoc k row).

(** A row of the frame returned by [extract_and_download]. *)
Record Row := {
  id : string;
  prompt : pyval;
  image_filename : string;
}.

(** A row of the output CSV; [None] in a column read back by [pd.read_csv] is
    a missing value (NaN). *)
Record CsvRow := {
  c_id : pyval;
  c_prompt : pyval;
  c_image_filename : option string;
  c_caption : option string;
}.

(** The collaborators: the data folder, the web, PIL and the remote service.
    [http_get n url] is the body the [n]-th [requests.get] returns, or the
    exception raised by it or by [raise_for_status]; [pil_verify] tells
    whether [Image.open(..).verify()] accepts a file of these bytes;
    [png_base64] is the body of [encode_image]'s [try] on a file of these
    bytes; [api n b64] is the answer to the [n]-th captioning call. *)
Record World := {
  listdir : list string;
  read_parquet : string → result (list Series);
  http_get : nat → string → result string;
  pil_verify : string → bool;
  png_base64 : string → result string;
  api : nat → string → result string;
}.

(** What survives between runs: the image folder (name to content) and the
    output CSV as [pd.read_csv] reads it ([None]: no such file). *)
Record Files := {
  images : gmap string string;
  output_csv : option (list CsvRow);
}.

(** ** STEP 1: [extract_and_download] *)

(** The variables of [extract_and_download], with the image folder it writes
    to and the number of HTTP requests made so far. *)
Record XState := {
  x_records : list Row;
  id_counter : nat;
  consecutive_fails : nat;
  x_images : gmap string string;
  gets : nat;
}.

Definition x_init (imgs : gmap string string) : XState :=
  {| x_records := []; id_counter := 1; consecutive_fails := 0;
     x_images := imgs; gets := 0 |}.

(** How the body of the [try] ends: normally (its end or a [continue]), or
    with an exception for the handler. *)
Inductive ending : Type :=
  | Normal (st : XState)
  | Raised (st : XState).

Definition img_id_of (n : nat) : string := "img_" +:+ Py.format_07d n.

Definition img_filename_of (n : nat) (img_ext : string) : string :=
  img_id_of n +:+ "." +:+ img_ext.

(** [img_url.split('.')[-1].split('?')[0][:4].lower()] *)
Definition url_ext (img_url : string) : string :=
  Py.lower (Py.take_chars 4
    (default "" (head (Py.split "?"%char (default "" (last (Py.split "."%char img_url))))))).

Definition allowed_ext (img_ext : string) : bool :=
  bool_decide (img_ext ∈ ["jpg"; "jpeg"; "png"; "webp"]).

(** From [if img_bytes:] to the end of the [try] body. *)
Definition save_image (w : World) (prompt : pyval) (img_bytes : pyval)
    (img_ext : string) (st : XState) : ending :=
  if truthy img_bytes then
    let img_id := img_id_of (id_counter st) in
    let img_filename := img_filename_of (id_counter st) img_ext in
    if bool_decide (is_Some (x_images st !! img_filename)) then
      Normal {| x_records := x_records st; id_counter := S (id_counter st);
                consecutive_fails := consecutive_fails st;
                x_images := x_images st; gets := gets st |}
    else
      match img_bytes with
      | PBytes b =>
          if pil_verify w b then
            Normal {| x_records := x_records st ++
                        [ {| id := img_id; prompt := prompt;
                             image_filename := img_filename |} ];
                      id_counter := S (id_counter st);
                      consecutive_fails := 0;
                      x_images := <[img_filename := b]> (x_images st);
                      gets := gets st |}
          else
            (* written, rejected by [verify], removed again *)
            Normal {| x_records := x_records st; id_counter := id_counter st;
                      consecutive_fails := consecutive_fails st;
                      x_images := delete img_filename (<[img_filename := b]> (x_images st));
                      gets := gets st |}
      | _ =>
          (* [open(.., 'wb')] has created the file, [f.write] raises TypeError *)
          Raised {| x_records := x_records st; id_counter := id_counter st;
                    consecutive_fails := consecutive_fails st;
                    x_images := <[img_filename := ""]> (x_images st);
                    gets := gets st |}
      end
  else
    Normal {| x_records := x_records st; id_counter := id_counter st;
              consecutive_fails := S (consecutive_fails st);
              x_images := x_images st; gets := gets st |}.

(** The two branches that fetch [img_url] over HTTP. *)
Definition download (w : World) (prompt : pyval) (img_url : string) (st : XState)
    : ending :=
  let img_ext := url_ext img_url in
  if negb (allowed_ext img_ext) then Normal st
  else
    let st' := {| x_records := x_records st; id_counter := id_counter st;
                  consecutive_fails := consecutive_fails st;
                  x_images := x_images st; gets := S (gets st) |} in
    match http_get w (gets st) img_url with
    | Raise _ => Raised st'
    | Ok content => save_image w prompt (PBytes content) img_ext st'
    end.

Definition try_row (w : World) (row : Series) (st : XState) : ending :=
  let prompt := py_or (get row "text") (get row "prompt") in
  let img_data := py_or (get row "image") (get row "url") in
  if negb (truthy prompt) || negb (truthy img_data) then Normal st
  else
    match img_data with
    | PDict d =>
        match assoc "bytes" d, assoc "url" d with
        | Some img_bytes, _ => save_image w prompt img_bytes "png" st
        | None, Some (PStr img_url) => download w prompt img_url st
        | None, Some _ => save_image w prompt PNone "jpg" st
        | None, None => Normal st
        end
    | PStr img_url => download w prompt img_url st
    | _ => Normal st
    end.

Definition x_step (w : World) (row : Series) (st : XState) : XState * flow :=
  match try_row w row st with
  | Normal st' => (st', Next)
  | Raised st' =>
      let st'' := {| x_records := x_records st'; id_counter := id_counter st';
                     consecutive_fails := S (consecutive_fails st');
                     x_images := x_images st'; gets := gets st' |} in
      (st'', if (max_consecutive_fails <=? consecutive_fails st'')%nat
             then Break else Next)
  end.

(** The loop over the rows of one parquet file. *)
Fixpoint x_rows (w : World) (rows : list Series) (st : XState) : XState :=
  match rows with
  | [] => st
  | row :: rest =>
      match x_step w row st with
      | (st', Break) => st'
      | (st', Next) => x_rows w rest st'
      end
  end.

(** The loop over the parquet files. *)
Fixpoint x_files (w : World) (files : list string) (st : XState) : XState :=
  match files with
  | [] => st
  | file :: rest =>
      match read_parquet w file with
      | Raise _ => x_files w rest st
      | Ok [] => x_files w rest st
      | Ok rows =>
          let st' := x_rows w rows st in
          if (max_consecutive_fails <=? consecutive_fails st')%nat then st'
          else x_files w rest st'
      end
  end.

Definition parquet_files (w : World) : list string :=
  filter (λ f, Py.endswith f ".parquet") (listdir w).

Definition extract_and_download (w : World) (imgs : gmap string string) : XState :=
  x_files w (parquet_files w) (x_init imgs).

(** ** STEP 2: [encode_image] *)

Definition encode_image (w : World) (imgs : gmap string string)
    (image_path : string) : option string :=
  match imgs !! image_path with
  | None => None   (* [Image.open] raises, the handler returns [None] *)
  | Some content =>
      match png_base64 w content with
      | Ok b64 => Some b64
      | Raise _ => None
      end
  end.

(** ** STEP 3: [caption_images] *)

(** [set(df_existing["image_filename"].dropna())] *)
Definition existing_captions (df_existing : list CsvRow) : gset string :=
  list_to_set (omap c_image_filename df_existing).

(** [df[~df["image_filename"].isin(existing_captions)]] *)
Definition work_queue (existing : option (list CsvRow)) (df : list Row) : list Row :=
  match existing with
  | Some df_existing =>
      filter (λ r, image_filename r ∉ existing_captions df_existing) df
  | None => df
  end.

(** [df_existing.dropna(subset=["caption"])], or the empty frame. *)
Definition kept_rows (existing : option (list CsvRow)) : list CsvRow :=
  match existing with
  | Some df_existing => filter (λ r, is_Some (c_caption r)) df_existing
  | None => []
  end.

(** The variables of the loop of [caption_images]; [calls] lists the image
    files submitted to the service, in order. *)
Record CState := {
  records : list CsvRow;
  fail_count : nat;
  calls : list string;
}.

Definition c_init : CState := {| records := []; fail_count := 0; calls := [] |}.

Definition c_step (w : World) (imgs : gmap string string) (row : Row) (st : CState)
    : CState * flow :=
  let image_file := image_filename row in
  if negb (bool_decide (is_Some (imgs !! image_file))) then (st, Next)
  else
    let b64 := encode_image w imgs image_file in
    if negb (Py.truthy_str b64) then
      ({| records := records st; fail_count := S (fail_count st);
          calls := calls st |}, Next)
    else
      match api w (List.length (calls st)) (default EmptyString b64) with
      | Ok content =>
          ({| records := records st ++
                [ {| c_id := PStr (id row); c_prompt := prompt row;
                     c_image_filename := Some image_file;
                     c_caption := Some (Py.strip content) |} ];
              fail_count := 0;
              calls := calls st ++ [image_file] |}, Next)
      | Raise _ =>
          let st' := {| records := records st; fail_count := S (fail_count st);
                        calls := calls st ++ [image_file] |} in
          (st', if (max_api_failures <=? fail_count st')%nat then Break else Next)
      end.

Fixpoint c_loop (w : World) (imgs : gmap string string) (df : list Row) (st : CState)
    : CState * flow :=
  match df with
  | [] => (st, Next)
  | row :: rest =>
      match c_step w imgs row st with
      | (st', Break) => (st', Break)
      | (st', Next) => c_loop w imgs rest st'
      end
  end.

(** [caption_images(df)].  The first component is what is written to
    [output_csv]; [None] when the function returns before writing. *)
Definition caption_images (w : World) (imgs : gmap string string)
    (existing : option (list CsvRow)) (df : list Row)
    : option (list CsvRow) * CState :=
  match work_queue existing df with
  | [] => (None, c_init)
  | queue =>
      let st := fst (c_loop w imgs queue c_init) in
      (Some (kept_rows existing ++ records st), st)
  end.

(** ** STEP 4: the pipeline *)

(** One run of the script: the files it leaves, what [caption_images] wrote
    to [output_csv] ([None]: nothing), the rows captioned in this run, and
    the image files submitted to the service, in order. *)
Record Run := {
  files_after : Files;
  written : option (list CsvRow);
  new_rows : list CsvRow;
  requests : list string;
}.

Definition main (w : World) (fs : Files) : Run :=
  let xs := extract_and_download w (images fs) in
  match x_records xs with
  | [] =>
      (* "No valid images extracted." *)
      {| files_after := {| images := x_images xs; output_csv := output_csv fs |};
         written := None; new_rows := []; requests := [] |}
  | df =>
      let '(out, st) := caption_images w (x_images xs) (output_csv fs) df in
      {| files_after :=
           {| images := x_images xs;
              output_csv := match out with
                            | Some rows => Some rows
                            | None => output_csv fs
                            end |};
         written := out; new_rows := records st; requests := calls st |}
  end.

End Lexica.

(** * Vocabulary of the specification *)

(** [run] is the first maximal run of decimal digits of [s]: the characters
    of [s] are characters that are no digits, then the characters of [run],
    all of them digits, and the character after them, if any, is no digit. *)
Definition first_maximal_digit_run (s run : string) : Prop :=
  ∃ pre post : list Py.uchar,
    Py.chars s = pre ++ Py.chars run ++ post ∧
    Forall (λ c, Py.is_digit (fst c) = false) pre ∧
    run ≠ "" ∧ Py.all_digits run = true ∧
    match post with
    | c :: _ => Py.is_digit (fst c) = false
    | [] => True
    end.

(** The sleeps after [k] failed attempts in a row, the first of them attempt
    number [attempt] (counted from 0): [delay * (attempt + 1)], and so on. *)
Definition backoff (delay : Q) (attempt k : nat) : list Q :=
  (λ i : nat, (delay * inject_Z (Z.of_nat i + 1))%Q) <$> seq attempt k.

Module ConsolidateExamples.
Import Consolidate.

Definition folder (files : list (string * string)) : World := {|
  listdir := fst <$> files;
  read_text := λ f,
    match list_find (λ e, fst e = f) files with
    | Some (_, e) => Ok (snd e)
    | None => Raise Exception
    end;
|}.

Definition three_files : World := folder [("3.txt", "a"); ("10.txt", "b"); ("2.txt", "c")].

Definition undigited : World := folder [("notes.txt", "x"); ("1.txt", "y")].

Definition colliding : World := folder [("1.txt", "x"); ("01.txt", "y")].

(** One file, named by U+0663 (ARABIC-INDIC DIGIT THREE, the bytes 217 163)
    followed by [5.txt]; its text starts with U+00A0 (NO-BREAK SPACE, the bytes
    194 160). *)
Definition arabic_indic : World :=
  folder [(String "217" (String "163" "5.txt"), String "194" (String "160" "x"))].

End ConsolidateExamples.

(** [f] is [<n><ext>] with [n] in plain decimal notation, as in [17.txt]. *)
Definition numbered (ext : string) (f : string) : Prop :=
  ∃ n : nat, f = Py.str_nat n +:+ ext.

Module MultiModelExamples.
Import MultiModel.

(** A folder of [k] images [1.png .. k.png], each with its prompt file, where
    every image encodes and every remote call answers; [missing] lists prompt
    files that are absent. *)
Definition folder (k : nat) (missing : list string) : World := {|
  listdir := (λ n, Py.str_nat n +:+ ".png") <$> seq 1 k;
  path_exists := λ p, negb (bool_decide (p ∈ missing));
  read_text := λ _, Ok "a prompt";
  png_base64 := λ _, Ok "iVBORw0KGgo=";
  api := λ _ _, Ok "A caption.";
|}.

(** The service is down: every call raises. *)
Definition service_down : World := {|
  listdir := ["1.png"];
  path_exists := λ _, true;
  read_text := λ _, Ok "a prompt";
  png_base64 := λ _, Ok "iVBORw0KGgo=";
  api := λ _ _, Raise Exception;
|}.

End MultiModelExamples.

(** ** Work items and what becomes of them *)

Inductive outcome : Type :=
  | Missing        (* the image file is not in the folder *)
  | Undecodable    (* [encode_image] gave no result *)
  | Captioned      (* the service answered *)
  | RateLimited    (* the service raised [RateLimitError], where that is told apart *)
  | ApiFailed.     (* the service raised *)

Definition failed (o : outcome) : bool :=
  match o with
  | Undecodable | ApiFailed => true
  | _ => false
  end.

(** The number of failed items. *)
Definition failures (os : list outcome) : nat := List.length (filter failed os).

(** The failed items since the last captioned one. *)
Definition streak_step (k : nat) (o : outcome) : nat :=
  match o with
  | Captioned => 0
  | Undecodable | ApiFailed => S k
  | Missing | RateLimited => k
  end.

Definition streak_from (k : nat) (os : list outcome) : nat := fold_left streak_step os k.
Definition streak : list outcome → nat := streak_from 0.

Module CivitaiTrace.
Import Civitai.

Definition outcome_of (w : World) (row : Row) (st : State) : outcome :=
  let b64 := encode_image w (image_filename row) in
  if negb (Py.truthy_str b64) then Undecodable
  else
    match api w (List.length (calls st)) (default EmptyString b64) with
    | Ok _ => Captioned
    | Raise RateLimitError => RateLimited
    | Raise _ => ApiFailed
    end.

(** The outcomes of the items the loop gets to, in order. *)
Fixpoint outcomes (w : World) (df : list Row) (st : State) : list outcome :=
  match df with
  | [] => []
  | row :: rest =>
      outcome_of w row st ::
        match step w row st with
        | (st', Next) => outcomes w rest st'
        | (_, Break) => []
        end
  end.

End CivitaiTrace.

Module LexicaTrace.
Import Lexica.

Definition outcome_of (w : World) (imgs : gmap string string) (row : Row)
    (st : CState) : outcome :=
  let image_file := image_filename row in
  if negb (bool_decide (is_Some (imgs !! image_file))) then Missing
  else
    let b64 := encode_image w imgs image_file in
    if negb (Py.truthy_str b64) then Undecodable
    else
      match api w (List.length (calls st)) (default EmptyString b64) with
      | Ok _ => Captioned
      | Raise _ => ApiFailed
      end.

Fixpoint outcomes (w : World) (imgs : gmap string string) (df : list Row)
    (st : CState) : list outcome :=
  match df with
  | [] => []
  | row :: rest =>
      outcome_of w imgs row st ::
        match c_step w imgs row st with
        | (st', Next) => outcomes w imgs rest st'
        | (_, Break) => []
        end
  end.

End LexicaTrace.

Module CivitaiExamples.
Import Civitai.

Definition row_of (name : string) : Row :=
  {| id := name; prompt := "a prompt"; image_filename := name +:+ ".jpg" |}.

(** The files in [corrupt] do not decode; the [n]-th call to the service is
    answered by the [n]-th entry of [answers], later calls by a caption. *)
Definition world (corrupt : list string) (answers : list (result string)) : World := {|
  png_base64 := λ f,
    if bool_decide (f ∈ corrupt) then Raise Exception else Ok "iVBORw0KGgo=";
  api := λ n _, default (Ok "A caption.") (answers !! n);
|}.

Definition two_rows : list Row := [row_of "a"; row_of "b"].

End CivitaiExamples.



Module LexicaExamples.
Import Lexica.

Definition row_of (n : nat) (img_ext : string) : Row :=
  {| id := img_id_of n; prompt := PStr "a prompt";
     image_filename := img_filename_of n img_ext |}.

Definition csv_row (n : nat) (img_ext : string) (cap : option string) : CsvRow :=
  {| c_id := PStr (img_id_of n); c_prompt := PStr "a prompt";
     c_image_filename := Some (img_filename_of n img_ext); c_caption := cap |}.

Definition url_row (url : string) : Series :=
  [("text", PStr "a prompt"); ("url", PStr url)].

(** One parquet file with the given rows; every download, check, encoding and
    remote call succeeds. *)
Definition dataset (rows : list Series) : World := {|
  listdir := ["part-0.parquet"];
  read_parquet := λ _, Ok rows;
  http_get := λ _ _, Ok "image bytes";
  pil_verify := λ _, true;
  png_base64 := λ _, Ok "iVBORw0KGgo=";
  api := λ _ _, Ok "A caption.";
|}.



Definition two_urls : World :=
  dataset [url_row "http://host/a.jpg"; url_row "http://host/b.jpg"].

(** Before the first run: an empty image folder and no CSV. *)
Definition fresh : Files := {| images := ∅; output_csv := None |}.

(** The first image is on disk and captioned in the CSV. *)
Definition first_done : Files := {|
  images := {[ "img_0000001.jpg" := "image bytes" ]};
  output_csv := Some [csv_row 1 "jpg" (Some "A caption.")];
|}.

(** The CSV has a row for the first image, without caption. *)
Definition uncaptioned : list CsvRow := [csv_row 1 "jpg" None].

(** The first image is on disk; its row in the CSV has no caption. *)
Definition first_uncaptioned : Files := {|
  images := {[ "img_0000001.jpg" := "image bytes" ]};
  output_csv := Some uncaptioned;
|}.

End LexicaExamples.

Module LexicaRuns.
Import Lexica.



End LexicaRuns.

(** * Invariants used in the proofs *)

(** ** Characters and plain text *)

Module Text.
Import Py.

(** The code points U+D800 to U+DFFF: no well-formed sequence encodes one,
    they stand for the bytes outside such sequences. *)
Definition surrogate (cp : N) : bool := in_range 55296 57343 cp.

(** The bytes of [c] are read as the character [c] whatever follows. *)
Definition well_formed (c : uchar) : Prop :=
  snd c ≠ "" ∧ ∀ t, head_char (snd c +:+ t) = (fst c, length (snd c)).

(** The byte of an ASCII character, of an ASCII digit. *)
Definition plain_char (c : ascii) : bool := (byte c <? 128)%N.
Definition plain_digit (c : ascii) : bool := in_range 48 57 (byte c).

Fixpoint plain (s : string) : bool :=
  match s with
  | EmptyString => true
  | String c s' => plain_char c && plain s'
  end.

(** Strings of the ASCII digits 0 to 9. *)
Fixpoint plain_digits (s : string) : bool :=
  match s with
  | EmptyString => true
  | String c s' => plain_digit c && plain_digits s'
  end.

(** Plain text without a digit. *)
Fixpoint plain_no_digit (s : string) : bool :=
  match s with
  | EmptyString => true
  | String c s' => plain_char c && negb (plain_digit c) && plain_no_digit s'
  end.

(** The characters of a plain string: one for each byte. *)
Fixpoint plain_chars (s : string) : list uchar :=
  match s with
  | EmptyString => []
  | String c s' => (byte c, String c EmptyString) :: plain_chars s'
  end.

(** Strings without an ASCII byte. *)
Fixpoint high (s : string) : bool :=
  match s with
  | EmptyString => true
  | String c s' => negb (plain_char c) && high s'
  end.

End Text.

Module Invariants.

(** ** Consolidator: the files that can be read *)

Definition readable (w : Consolidate.World) (f : string) : Prop :=
  is_ok (Consolidate.read_text w f) = true.

#[global] Instance readable_dec w f : Decision (readable w f).
Proof. unfold readable. apply _. Defined.

(** ** Civitai: rows of files that do not decode carry no caption and are in
    [bad_files] *)

Definition undecodable (w : Civitai.World) (f : string) : Prop :=
  is_ok (Civitai.png_base64 w f) = false.

Definition bad_marked (w : Civitai.World) (st : Civitai.State) : Prop :=
  ∀ r, r ∈ Civitai.records st → undecodable w (Civitai.c_image_filename r) →
       Civitai.caption r = None ∧ Civitai.c_image_filename r ∈ Civitai.bad_files st.

(** ** Lexica: the state of [extract_and_download] *)

(** The counter a file name was made from. *)
Definition counter_of (f : string) : nat :=
  Z.to_nat (Py.digits_value (default "" (Py.search_digits f))).

Import Lexica.

Definition ending_state (e : ending) : XState :=
  match e with Normal st | Raised st => st end.

(** What holds of the state of [extract_and_download] all along, for the
    image folder [imgs0] the run started from: files that were there are still
    there; no record is about one of them; the records have pairwise
    different file names, all made from counters below [id_counter]. *)
Record xinv (imgs0 : gmap string string) (st : XState) : Prop := {
  xinv_kept : ∀ f, is_Some (imgs0 !! f) → is_Some (x_images st !! f);
  xinv_fresh : ∀ r, r ∈ x_records st → imgs0 !! image_filename r = None;
  xinv_below : ∀ r, r ∈ x_records st →
     (counter_of (image_filename r) < id_counter st)%nat;
  xinv_nodup : NoDup (image_filename <$> x_records st);
}.

End Invariants.

(** * Further examples *)

Module CivitaiFolderExamples.
Import Civitai.

(** A folder given by its metadata files: every image is there, and
    [json.load] gives the listed values. *)
Definition folder (files : list (string * jvalue)) : Folder := {|
  listdir := fst <$> files;
  path_exists := λ _, true;
  json_load := λ f,
    match list_find (λ e, fst e = f) files with
    | Some (_, e) => Ok (snd e)
    | None => Raise Exception
    end;
|}.

Definition with_prompt (p : string) : jvalue :=
  JObj [("id", JOther); ("meta", JObj [("prompt", JStr p)])].

(** Two images with their prompts, and one whose metadata has [meta: null]. *)
Definition two_prompts : Folder :=
  folder [("1.json", with_prompt "a cat "); ("2.json", with_prompt "a dog")].

Definition null_meta : Folder :=
  folder [("1.json", with_prompt "a cat"); ("2.json", JObj [("meta", JNull)])].

End CivitaiFolderExamples.

(** * Invariants of the Civitai script *)

Module CivitaiInvariants.
Import Py Civitai.

(** Doubling the quotes, and undoing it, as [str.replace] does them. *)
Definition escape (p : string) : string := replace p quote (quote +:+ quote).
Definition unescape (s : string) : string := replace s (quote +:+ quote) quote.

(** The doubling, on the characters of a string. *)
Definition escape_char (c : uchar) : list uchar :=
  if (fst c =? 34)%N then [c; c] else [c].
Definition escape_chars (l : list uchar) : list uchar := l ≫= escape_char.

(** What [meta_prompt] returns comes from a string [p] under [meta.prompt]
    (or the default [""]), escaped and stripped. *)
Definition prompt_source (data : jvalue) (p : string) : Prop :=
  ∃ meta, dict_get data "meta" (JObj []) = Ok meta ∧
          dict_get meta "prompt" (JStr "") = Ok (JStr p).

(** What holds of the rows collected so far. *)
Record pinv (d : Folder) (filenames : list string) (st : PState) : Prop := {
  pinv_seen : ∀ r, r ∈ rows st → prompt r ∈ seen_prompts st;
  pinv_nodup : NoDup (prompt <$> rows st);
  pinv_names : (λ r, id r +:+ ".json") <$> rows st `sublist_of` filenames;
  pinv_row : ∀ r, r ∈ rows st →
     prompt r ≠ "" ∧ image_filename r = id r +:+ ".jpg" ∧
     path_exists d (image_filename r) = true ∧
     ∃ data, json_load d (id r +:+ ".json") = Ok data ∧
             meta_prompt data = Ok (prompt r);
}.

(** A file that stops the loop. *)
Definition fatal (d : Folder) (filename : string) : Prop :=
  endswith filename ".json" = true ∧
  path_exists d (take (length filename - 5) filename +:+ ".jpg") = true ∧
  ∀ data, json_load d filename = Ok data → is_ok (meta_prompt data) = false.

(** The row of the frame a record was made from. *)
Definition row_of_record (r : CaptionRow) : Row :=
  {| id := c_id r; prompt := c_prompt r; image_filename := c_image_filename r |}.

(** The marks in [bad_files] are the files of the records without caption. *)
Definition marks_exact (st : State) : Prop :=
  (∀ r, r ∈ records st → caption r = None → c_image_filename r ∈ bad_files st) ∧
  (∀ f, f ∈ bad_files st →
     ∃ r, r ∈ records st ∧ c_image_filename r = f ∧ caption r = None).

End CivitaiInvariants.

(** * The multi-model captioner: checkpoint and further examples *)

Module Checkpoints.
Import MultiModel.

(** The checkpoint file never holds anything but a prefix of the records. *)
Definition checkpoint_prefix (st : State) : Prop :=
  ∀ saved, temp_csv st = Some saved → saved `prefix_of` records st.

(** A folder with the expected images and one more picture, [cover.png],
    that has a prompt file of its own. *)
Definition stray : World := {|
  listdir := ["1.png"; "2.png"; "cover.png"];
  path_exists := λ _, true;
  read_text := λ _, Ok "a prompt";
  png_base64 := λ _, Ok "iVBORw0KGgo=";
  api := λ _ _, Ok "A caption.";
|}.

End Checkpoints.

(** * The Lexica pipeline: the image folder and the records *)

Module LexicaInvariants.
Import Lexica Invariants.

(** A record of [extract_and_download] with its file in the image folder
    [imgs]: made from a counter [n] and an accepted extension, with a prompt
    that is not empty, and a file that is not empty and passed [verify]. *)
Definition record_ok (w : World) (imgs : gmap string string) (r : Row) : Prop :=
  ∃ n ext b,
    id r = img_id_of n ∧ image_filename r = img_filename_of n ext ∧
    allowed_ext ext = true ∧ truthy (prompt r) = true ∧
    imgs !! image_filename r = Some b ∧ b ≠ "" ∧ pil_verify w b = true.

(** The order of the records: by the counter in their file name. *)
Definition counter_lt (r1 r2 : Row) : Prop :=
  (counter_of (image_filename r1) < counter_of (image_filename r2))%nat.

(** What holds of the image folder and the records all along a run of
    [extract_and_download] that started from the folder [imgs0]. *)
Record xfiles (w : World) (imgs0 : gmap string string) (st : XState) : Prop := {
  xf_kept : ∀ f b, imgs0 !! f = Some b → x_images st !! f = Some b;
  xf_record : ∀ r, r ∈ x_records st → record_ok w (x_images st) r;
  xf_new : ∀ f b, x_images st !! f = Some b →
     imgs0 !! f = Some b ∨ b = "" ∨ ∃ r, r ∈ x_records st ∧ image_filename r = f;
  xf_incr : StronglySorted counter_lt (x_records st);
}.

(** The number of rows of the parquet files that can be read. *)
Fixpoint row_count (w : World) (files : list string) : nat :=
  match files with
  | [] => 0
  | file :: rest =>
      match read_parquet w file with
      | Ok rows => List.length rows
      | Raise _ => 0
      end + row_count w rest
  end.

End LexicaInvariants.

(** * caption_enhanced_images.py, STEP 3: the loop over the model folders *)

Module MultiModelScript.
Import MultiModel.





End MultiModelScript.

(** * Facts and theorems *)

Module PyFacts.
Import Py.

Lemma str_app_cons c s t : String c s +:+ t = String c (s +:+ t).
Proof. reflexivity. Qed.

Lemma str_app_nil_l t : "" +:+ t = t.
Proof. reflexivity. Qed.

Lemma str_app_nil_r s : s +:+ "" = s.
Proof. induction s as [|c s IH]; [done|]. by rewrite str_app_cons, IH. Qed.

Lemma str_app_assoc s t u : (s +:+ t) +:+ u = s +:+ (t +:+ u).
Proof. induction s as [|c s IH]; [done|]. by rewrite !str_app_cons, IH. Qed.

Lemma str_take_drop n s : take n s +:+ drop n s = s.
Proof.
  revert s; induction n as [|n IH]; intros [|c s]; simpl; try done.
  by rewrite str_app_cons, IH.
Qed.

Lemma endswith_app s suf : endswith s suf = true → ∃ g, s = g +:+ suf.
Proof.
  unfold endswith. intros H%bool_decide_eq_true.
  exists (take (length s - length suf) s).
  rewrite <- H at 2. by rewrite str_take_drop.
Qed.

Lemma str_length_app s t : length (s +:+ t) = (length s + length t)%nat.
Proof. induction s as [|c s IH]; [done|]. rewrite str_app_cons. simpl. by rewrite IH. Qed.

Lemma str_take_app_length s t : take (length s) (s +:+ t) = s.
Proof. induction s as [|c s IH]; [by destruct t|]. rewrite str_app_cons. simpl. by rewrite IH. Qed.

Lemma str_drop_app_length s t : drop (length s) (s +:+ t) = t.
Proof. induction s as [|c s IH]; [by destruct t|]. rewrite str_app_cons. simpl. by rewrite IH. Qed.

Lemma str_length_take n s : (n ≤ length s)%nat → length (take n s) = n.
Proof.
  revert s. induction n as [|n IH]; intros [|c s]; simpl; try done; try lia.
  intros H. rewrite IH; lia.
Qed.

Lemma str_length_drop n s : length (drop n s) = (length s - n)%nat.
Proof. revert s. induction n as [|n IH]; intros [|c s]; simpl; try done. Qed.

Lemma str_drop_drop n m s : drop n (drop m s) = drop (m + n) s.
Proof.
  revert s. induction m as [|m IH]; intros s; [done|].
  destruct s as [|c s]; simpl; [by destruct n|]. apply IH.
Qed.

Lemma str_take_app_le n s t : (n ≤ length s)%nat → take n (s +:+ t) = take n s.
Proof.
  revert s. induction n as [|n IH]; intros s H.
  - by destruct s, t.
  - destruct s as [|c s]; simpl in H; [lia|].
    rewrite str_app_cons. simpl. rewrite IH; [done|lia].
Qed.

Lemma str_drop_app_le n s t : (n ≤ length s)%nat → drop n (s +:+ t) = drop n s +:+ t.
Proof.
  revert s. induction n as [|n IH]; intros s H.
  - by destruct s, t.
  - destruct s as [|c s]; simpl in H; [lia|].
    rewrite str_app_cons. simpl. rewrite IH; [done|lia].
Qed.

Lemma rfind_ge c s : -1 ≤ rfind c s.
Proof.
  induction s as [|a s IH]; simpl; [lia|].
  destruct (0 <=? rfind c s) eqn:E; [apply Z.leb_le in E; lia|].
  destruct (decide (a = c)); lia.
Qed.

Lemma rfind_app c s t :
  rfind c (s +:+ t) =
    if 0 <=? rfind c t then Z.of_nat (length s) + rfind c t else rfind c s.
Proof.
  induction s as [|a s IH]; [rewrite str_app_nil_l|rewrite str_app_cons]; simpl.
  - destruct (0 <=? rfind c t) eqn:E; [lia|].
    apply Z.leb_gt in E. pose proof (rfind_ge c t). lia.
  - rewrite IH. destruct (0 <=? rfind c t) eqn:E.
    + apply Z.leb_le in E.
      destruct (0 <=? Z.of_nat (length s) + rfind c t) eqn:E2; [lia|].
      apply Z.leb_gt in E2. lia.
    + done.
Qed.

Lemma splitext_txt g :
  fst (splitext (g +:+ ".txt")) = g ∨ fst (splitext (g +:+ ".txt")) = g +:+ ".txt".
Proof.
  unfold splitext.
  assert (rfind "."%char (g +:+ ".txt") = Z.of_nat (length g)) as ->.
  { rewrite rfind_app. simpl. lia. }
  rewrite Nat2Z.id.
  destruct (_ && _); simpl; [left; apply str_take_app_length | by right].
Qed.

End PyFacts.

(** ** The characters of a string *)

Module Utf8Facts.
Import Py PyFacts Text.

Lemma byte_bound c : (byte c < 256)%N.
Proof. apply N_ascii_bounded. Qed.

Lemma cont_app s t :
  cont t = None → cont (s +:+ t) = (λ p, (fst p, snd p +:+ t)) <$> cont s.
Proof.
  intros Ht. destruct s as [|b s]; [by rewrite str_app_nil_l, Ht|].
  rewrite str_app_cons. simpl. by destruct (_ && _).
Qed.

Lemma cont_Some s x r :
  cont s = Some (x, r) →
  ∃ b, s = String b r ∧ ∀ r', cont (String b r') = Some (x, r').
Proof.
  destruct s as [|b s]; simpl; [done|].
  destruct (_ && _) eqn:E; [|done]. intros [= <- <-]. exists b.
  split; [done|]. intros r'. simpl. by rewrite E.
Qed.

Lemma head_char_bounds s : s ≠ "" → (1 ≤ snd (head_char s) ≤ length s)%nat.
Proof.
  destruct s as [|b0 s1]; [done|]. intros _. unfold head_char, raw.
  destruct (_ <? _)%N; [simpl; lia|].
  destruct (cont s1) as [[x1 s2]|] eqn:E1; [|simpl; lia].
  apply cont_Some in E1 as (b1 & -> & _).
  destruct (_ && _); [simpl; lia|].
  destruct (cont s2) as [[x2 s3]|] eqn:E2; [|simpl; lia].
  apply cont_Some in E2 as (b2 & -> & _).
  destruct (_ && _); [destruct (_ && _); simpl; lia|].
  destruct (cont s3) as [[x3 s4]|] eqn:E3; [|simpl; lia].
  apply cont_Some in E3 as (b3 & -> & _).
  destruct (_ && _); simpl; lia.
Qed.

Lemma chars_go_drop k : ∀ s, chars_go k s = chars (drop k s).
Proof.
  induction k as [|k IH]; intros [|c s]; try done. simpl. apply IH.
Qed.

(** The first character, then the characters of the rest. *)
Lemma chars_cons s :
  s ≠ "" →
  chars s = (fst (head_char s), take (snd (head_char s)) s)
              :: chars (drop (snd (head_char s)) s).
Proof.
  intros Hs. pose proof (head_char_bounds s Hs) as Hn.
  destruct s as [|c s]; [done|]. unfold chars at 1. cbn [chars_go].
  destruct (head_char (String c s)) as [cp n]. simpl in *.
  rewrite chars_go_drop. destruct n as [|n]; [lia|]. simpl.
  by rewrite Nat.sub_0_r.
Qed.

Lemma chars_nil : chars "" = [].
Proof. done. Qed.

Lemma bytes_of_app l1 l2 : bytes_of (l1 ++ l2) = bytes_of l1 +:+ bytes_of l2.
Proof.
  induction l1 as [|c l1 IH]; simpl; [done|]. by rewrite IH, str_app_assoc.
Qed.

(** An induction on the length of strings. *)
Lemma string_length_ind (P : string → Prop) :
  (∀ s, (∀ s', (length s' < length s)%nat → P s') → P s) → ∀ s, P s.
Proof.
  intros Hstep s. remember (length s) as n eqn:Hn. revert s Hn.
  induction (lt_wf n) as [n _ IH]. intros s ->. apply Hstep.
  intros s' Hlt. by apply (IH (length s')).
Qed.

(** The characters are a partition of the bytes. *)
Lemma bytes_of_chars s : bytes_of (chars s) = s.
Proof.
  induction s as [s IH] using string_length_ind.
  destruct (decide (s = "")) as [-> | Hs]; [done|].
  rewrite chars_cons by done. pose proof (head_char_bounds s Hs) as Hn.
  cbn [bytes_of foldr snd]. fold (bytes_of (chars (drop (snd (head_char s)) s))).
  rewrite IH; [apply str_take_drop|]. rewrite str_length_drop.
  destruct s; [done|]. simpl in *. lia.
Qed.

Lemma chars_plain_cons c s :
  plain_char c = true → chars (String c s) = (byte c, String c "") :: chars s.
Proof.
  intros Hc. rewrite chars_cons by done. unfold head_char. unfold plain_char in Hc.
  rewrite Hc. simpl. by destruct s.
Qed.

Lemma chars_plain_app a t : plain a = true → chars (a +:+ t) = plain_chars a ++ chars t.
Proof.
  induction a as [|c a IH]; [done|]. simpl. intros [Hc Ha]%andb_true_iff.
  rewrite str_app_cons, chars_plain_cons by done. simpl. by rewrite IH.
Qed.

Lemma chars_plain a : plain a = true → chars a = plain_chars a.
Proof.
  intros Ha. rewrite <- (str_app_nil_r a) at 1.
  rewrite chars_plain_app by done. by rewrite chars_nil, app_nil_r.
Qed.

(** What follows a string does not change its first character, unless it
    starts with a continuation byte. *)
Lemma head_char_app s t :
  s ≠ "" → cont t = None → head_char (s +:+ t) = head_char s.
Proof.
  intros Hs Ht. destruct s as [|b0 s1]; [done|].
  rewrite str_app_cons. unfold head_char.
  destruct (_ <? _)%N; [done|].
  rewrite cont_app by done. destruct (cont s1) as [[x1 s2]|]; simpl; [|done].
  destruct (_ && _); [done|].
  rewrite cont_app by done. destruct (cont s2) as [[x2 s3]|]; simpl; [|done].
  destruct (_ && _); [done|].
  rewrite cont_app by done. by destruct (cont s3) as [[x3 s4]|].
Qed.

Lemma chars_app s t : cont t = None → chars (s +:+ t) = chars s ++ chars t.
Proof.
  intros Ht. induction s as [s IH] using string_length_ind.
  destruct (decide (s = "")) as [-> | Hs]; [done|].
  pose proof (head_char_bounds s Hs) as Hn.
  rewrite (chars_cons s) by done.
  rewrite chars_cons by (destruct s; done).
  rewrite head_char_app by done.
  rewrite str_take_app_le, str_drop_app_le by lia.
  rewrite IH; [done|]. rewrite str_length_drop. destruct s; [done|]. simpl in *. lia.
Qed.

(** A string that starts with an ASCII character starts no continuation. *)
Lemma cont_plain c s : plain_char c = true → cont (String c s) = None.
Proof.
  unfold plain_char. intros Hc%N.ltb_lt. simpl.
  destruct (128 <=? byte c)%N eqn:E; [apply N.leb_le in E; lia|done].
Qed.

(** Every character of a string is a first character of one of its ends. *)
Lemma elem_of_chars s c :
  c ∈ chars s →
  ∃ s', s' ≠ "" ∧ c = (fst (head_char s'), take (snd (head_char s')) s').
Proof.
  induction s as [s IH] using string_length_ind.
  destruct (decide (s = "")) as [-> | Hs]; [by intros ?%elem_of_nil|].
  pose proof (head_char_bounds s Hs) as Hn.
  rewrite chars_cons by done. intros [-> | Hin]%elem_of_cons; [by exists s|].
  apply IH in Hin; [done|]. rewrite str_length_drop. destruct s; [done|]. simpl in *. lia.
Qed.

#[local] Arguments cont : simpl never.

Lemma surrogate_raw b : surrogate (fst (raw (byte b))) = true.
Proof.
  pose proof (byte_bound b). unfold surrogate, in_range, raw. simpl.
  apply andb_true_iff. split; [apply N.leb_le|apply N.leb_le]; lia.
Qed.

(** A well-formed sequence is read the same whatever follows it. *)
Lemma head_char_well_formed s :
  s ≠ "" → surrogate (fst (head_char s)) = false →
  well_formed (fst (head_char s), take (snd (head_char s)) s).
Proof.
  intros Hs Hsur. pose proof (head_char_bounds s Hs) as Hn.
  split; simpl.
  { destruct s; [done|]. destruct (snd (head_char _)); [lia|done]. }
  intros t. rewrite str_length_take by lia.
  destruct s as [|b0 s1]; [done|]. clear Hs Hn.
  destruct (head_char (String b0 s1)) as [cp n] eqn:Hhc. simpl in *.
  assert (raw (byte b0) = (cp, n) → False) as Hraw.
  { intros [= <- <-]. pose proof (surrogate_raw b0) as H. simpl in H. congruence. }
  unfold head_char in Hhc.
  destruct (byte b0 <? 128)%N eqn:E0.
  { injection Hhc as <- <-. simpl. by rewrite E0. }
  destruct (cont s1) as [[x1 s2]|] eqn:E1; [|by destruct Hraw].
  apply cont_Some in E1 as (b1 & -> & Hb1).
  destruct ((194 <=? byte b0)%N && (byte b0 <? 224)%N) eqn:L2.
  { injection Hhc as <- <-. simpl. rewrite ?str_app_cons, ?str_app_nil_l, E0, Hb1. by rewrite L2. }
  destruct (cont s2) as [[x2 s3]|] eqn:E2; [|by destruct Hraw].
  apply cont_Some in E2 as (b2 & -> & Hb2).
  destruct ((224 <=? byte b0)%N && (byte b0 <? 240)%N) eqn:L3.
  { match type of Hhc with (if ?c then _ else _) = _ => destruct c eqn:V3 end;
      [|by destruct Hraw].
    injection Hhc as <- <-. simpl. rewrite ?str_app_cons, ?str_app_nil_l, E0, Hb1, L2, Hb2, L3. by rewrite V3. }
  destruct (cont s3) as [[x3 s4]|] eqn:E3; [|by destruct Hraw].
  apply cont_Some in E3 as (b3 & -> & Hb3).
  match type of Hhc with (if ?c then _ else _) = _ => destruct c eqn:V4 end;
    [|by destruct Hraw].
  injection Hhc as <- <-. simpl. rewrite ?str_app_cons, ?str_app_nil_l, E0, Hb1, L2, Hb2, L3, Hb3. by rewrite V4.
Qed.

Lemma chars_well_formed s c :
  c ∈ chars s → surrogate (fst c) = false → well_formed c.
Proof.
  intros (s' & Hs' & ->)%elem_of_chars Hsur. by apply head_char_well_formed.
Qed.

(** Characters that are well formed are read back from their bytes. *)
Lemma chars_bytes_of l t :
  Forall well_formed l → chars (bytes_of l +:+ t) = l ++ chars t.
Proof.
  induction 1 as [|[cp bs] l [Hne Hwf] _ IH]; simpl in *; [done|].
  rewrite str_app_assoc.
  rewrite chars_cons by (destruct bs; done).
  rewrite Hwf. simpl. rewrite str_take_app_length, str_drop_app_length. by rewrite IH.
Qed.

End Utf8Facts.

(** ** Digits *)

Module DigitFacts.
Import Py PyFacts Text Utf8Facts.

Lemma decimal_Some cp d :
  decimal cp = Some d →
  ∃ z, z ∈ digit_zeros ∧ in_range z (z + 9) cp = true ∧ d = (cp - z)%N.
Proof.
  unfold decimal. destruct (List.find _ _) as [z|] eqn:E; [|done].
  intros [= <-]. apply find_some in E as [Hin Hz]. exists z.
  split; [by apply list_elem_of_In|done].
Qed.

(** What holds of the ten digits after every zero holds of every digit. *)
Lemma digit_forall (p : N → bool) :
  forallb (λ z, forallb (λ i, p (z + i)%N) [0; 1; 2; 3; 4; 5; 6; 7; 8; 9]%N)
    digit_zeros = true →
  ∀ cp, is_digit cp = true → p cp = true.
Proof.
  intros Hall cp. unfold is_digit.
  destruct (decimal cp) as [d|] eqn:E; [|done]. intros _.
  apply decimal_Some in E as (z & Hz & Hr & ->).
  rewrite forallb_forall in Hall. apply list_elem_of_In, Hall in Hz.
  rewrite forallb_forall in Hz.
  unfold in_range in Hr. apply andb_true_iff in Hr as [H1%N.leb_le H2%N.leb_le].
  replace cp with (z + (cp - z))%N by lia. apply Hz.
  assert (cp - z = 0 ∨ cp - z = 1 ∨ cp - z = 2 ∨ cp - z = 3 ∨ cp - z = 4 ∨ cp - z = 5
          ∨ cp - z = 6 ∨ cp - z = 7 ∨ cp - z = 8 ∨ cp - z = 9)%N as H by lia.
  repeat destruct H as [-> | H]; try rewrite H; simpl; tauto.
Qed.

Lemma digit_not_surrogate cp : is_digit cp = true → surrogate cp = false.
Proof.
  intros H. apply negb_true_iff. revert cp H.
  apply (digit_forall (λ cp, negb (surrogate cp))). by vm_compute.
Qed.

Lemma digit_not_int_space cp : is_digit cp = true → int_space cp = false.
Proof.
  intros H. apply negb_true_iff. revert cp H.
  apply (digit_forall (λ cp, negb (int_space cp))). by vm_compute.
Qed.

Lemma digit_not_sign cp :
  is_digit cp = true → (cp =? 45)%N = false ∧ (cp =? 43)%N = false ∧ (cp =? 95)%N = false.
Proof.
  intros H.
  assert (negb (cp =? 45)%N && negb (cp =? 43)%N && negb (cp =? 95)%N = true) as Hn.
  { revert cp H.
    apply (digit_forall (λ cp, negb (cp =? 45)%N && negb (cp =? 43)%N && negb (cp =? 95)%N)).
    by vm_compute. }
  apply andb_true_iff in Hn as [[H1 H2]%andb_true_iff H3].
  by rewrite !negb_true_iff in *.
Qed.

Lemma digit_value_nonneg cp : 0 ≤ digit_value cp.
Proof. unfold digit_value. lia. Qed.

Lemma plain_digit_plain c : plain_digit c = true → plain_char c = true.
Proof.
  unfold plain_digit, plain_char, in_range.
  intros [_ H%N.leb_le]%andb_true_iff. apply N.ltb_lt. lia.
Qed.

Lemma plain_digit_decimal c :
  plain_digit c = true → decimal (byte c) = Some (byte c - 48)%N.
Proof.
  intros H. unfold plain_digit in H. unfold decimal, digit_zeros. cbn [List.find].
  change (48 + 9)%N with 57%N. by rewrite H.
Qed.

Lemma plain_digit_is_digit c : plain_digit c = true → is_digit (byte c) = true.
Proof. intros H. unfold is_digit. by rewrite plain_digit_decimal. Qed.

Lemma plain_digit_value c :
  plain_digit c = true → digit_value (byte c) = Z.of_N (byte c) - 48.
Proof.
  intros H. unfold digit_value. rewrite plain_digit_decimal by done. simpl.
  unfold plain_digit, in_range in H. apply andb_true_iff in H as [H%N.leb_le _]. lia.
Qed.

Lemma plain_not_digit c :
  plain_char c = true → plain_digit c = false → is_digit (byte c) = false.
Proof.
  unfold plain_char. intros Hc%N.ltb_lt Hd. unfold is_digit.
  destruct (decimal (byte c)) as [d|] eqn:E; [|done].
  apply decimal_Some in E as (z & Hz & Hr & _). exfalso.
  unfold digit_zeros in Hz. apply elem_of_cons in Hz as [-> | Hz].
  - unfold plain_digit in Hd. change (48 + 9)%N with 57%N in Hr. congruence.
  - assert (forallb (λ z, 128 <=? z)%N (List.tl digit_zeros) = true) as Hbig
      by by vm_compute.
    rewrite forallb_forall in Hbig. apply list_elem_of_In, Hbig, N.leb_le in Hz.
    unfold in_range in Hr. apply andb_true_iff in Hr as [H%N.leb_le _]. lia.
Qed.

(** *** The search for the first run, on lists of characters *)

Lemma take_while_digits (ds post : list uchar) :
  Forall (λ c, is_digit (fst c) = true) ds →
  match post with c :: _ => is_digit (fst c) = false | [] => True end →
  take_while (λ c, is_digit (fst c)) (ds ++ post) = ds.
Proof.
  intros Hds Hpost. induction Hds as [|c ds Hc _ IH]; simpl.
  - destruct post as [|c post]; simpl; [done|]. by rewrite Hpost.
  - by rewrite Hc, IH.
Qed.

Lemma take_while_split (l : list uchar) :
  ∃ post, l = take_while (λ c, is_digit (fst c)) l ++ post ∧
    Forall (λ c, is_digit (fst c) = true) (take_while (λ c, is_digit (fst c)) l) ∧
    match post with c :: _ => is_digit (fst c) = false | [] => True end.
Proof.
  induction l as [|c l (post & Hl & Hall & Hpost)]; simpl.
  - by exists [].
  - destruct (is_digit (fst c)) eqn:Ec.
    + exists post. simpl. rewrite <- Hl. split_and!; [done| |done]. by constructor.
    + exists (c :: l). by split_and!.
Qed.

Lemma search_run_Some l ds :
  search_run l = Some ds →
  ∃ pre post, l = pre ++ ds ++ post ∧
    Forall (λ c, is_digit (fst c) = false) pre ∧ ds ≠ [] ∧
    Forall (λ c, is_digit (fst c) = true) ds ∧
    match post with c :: _ => is_digit (fst c) = false | [] => True end.
Proof.
  induction l as [|c l IH]; cbn [search_run]; [done|].
  destruct (is_digit (fst c)) eqn:Ec.
  - intros [= <-]. destruct (take_while_split (c :: l)) as (post & Hl & Hall & Hpost).
    exists [], post. split_and!; try done. simpl. by rewrite Ec.
  - intros (pre & post & -> & Hpre & ? & ? & ?)%IH.
    exists (c :: pre), post. split_and!; try done. by constructor.
Qed.

Lemma search_run_None l :
  search_run l = None ↔ forallb (λ c, negb (is_digit (fst c))) l = true.
Proof.
  induction l as [|c l IH]; simpl; [done|].
  destruct (is_digit (fst c)); simpl; [split; done|done].
Qed.

Lemma search_run_skip pre l :
  Forall (λ c, is_digit (fst c) = false) pre → search_run (pre ++ l) = search_run l.
Proof. induction 1 as [|c pre Hc _ IH]; simpl; [done|]. by rewrite Hc. Qed.

Lemma search_run_digits ds post :
  ds ≠ [] → Forall (λ c, is_digit (fst c) = true) ds →
  match post with c :: _ => is_digit (fst c) = false | [] => True end →
  search_run (ds ++ post) = Some ds.
Proof.
  intros Hne Hds Hpost. destruct ds as [|c ds]; [done|].
  pose proof Hds as Hds'. apply Forall_cons in Hds' as [Hc _].
  rewrite <- app_comm_cons. cbn [search_run]. rewrite Hc.
  rewrite app_comm_cons. by rewrite take_while_digits.
Qed.

Lemma search_run_app l l' :
  Forall (λ c, is_digit (fst c) = false) l' → search_run (l ++ l') = search_run l.
Proof.
  intros Hl'. induction l as [|c l IH].
  - simpl. apply search_run_None. apply forallb_forall. intros x Hx%list_elem_of_In.
    rewrite Forall_forall in Hl'. by rewrite (Hl' x Hx).
  - rewrite <- app_comm_cons. cbn [search_run]. destruct (is_digit (fst c)) eqn:Ec; [|done].
    f_equal. destruct (take_while_split (c :: l)) as (post & Hl & Hall & Hpost).
    rewrite app_comm_cons. rewrite Hl at 1. rewrite <- app_assoc.
    apply take_while_digits; [done|].
    destruct post as [|p post]; simpl; [|done].
    destruct Hl' as [|x l' Hx _]; simpl; done.
Qed.

(** *** Plain text *)

Lemma plain_no_digit_plain t : plain_no_digit t = true → plain t = true.
Proof.
  induction t as [|c t IH]; simpl; [done|].
  intros [[-> _]%andb_true_iff Ht]%andb_true_iff. by rewrite IH.
Qed.

Lemma plain_digits_plain d : plain_digits d = true → plain d = true.
Proof.
  induction d as [|c d IH]; simpl; [done|].
  intros [Hc Hd]%andb_true_iff. by rewrite plain_digit_plain, IH.
Qed.

Lemma plain_chars_no_digit t :
  plain_no_digit t = true → Forall (λ c, is_digit (fst c) = false) (plain_chars t).
Proof.
  induction t as [|c t IH]; simpl; [constructor|].
  intros [[Hc Hd%negb_true_iff]%andb_true_iff Ht]%andb_true_iff.
  constructor; [by apply plain_not_digit|by apply IH].
Qed.

Lemma plain_chars_digits d :
  plain_digits d = true → Forall (λ c, is_digit (fst c) = true) (plain_chars d).
Proof.
  induction d as [|c d IH]; simpl; [constructor|].
  intros [Hc Hd]%andb_true_iff.
  constructor; [by apply plain_digit_is_digit|by apply IH].
Qed.

Lemma bytes_of_plain_chars s : bytes_of (plain_chars s) = s.
Proof. induction s as [|c s IH]; simpl; [done|]. by rewrite IH. Qed.

Lemma cont_plain_no_digit t : plain_no_digit t = true → cont t = None.
Proof.
  destruct t as [|c t]; [done|]. simpl.
  intros [[Hc _]%andb_true_iff _]%andb_true_iff. by apply cont_plain.
Qed.

(** *** Strings *)

Lemma search_digits_None s : search_digits s = None ↔ no_digit s = true.
Proof.
  unfold search_digits, no_digit. rewrite <- search_run_None.
  destruct (search_run (chars s)); simpl; split; done.
Qed.

Lemma search_digits_app s t :
  plain_no_digit t = true → search_digits (s +:+ t) = search_digits s.
Proof.
  intros Ht. unfold search_digits.
  rewrite chars_app by by apply cont_plain_no_digit.
  rewrite search_run_app; [done|].
  rewrite chars_plain by by apply plain_no_digit_plain. by apply plain_chars_no_digit.
Qed.

Lemma search_digits_skip pre s :
  plain_no_digit pre = true → search_digits (pre +:+ s) = search_digits s.
Proof.
  intros Hpre. unfold search_digits.
  rewrite chars_plain_app by by apply plain_no_digit_plain.
  rewrite search_run_skip; [done|]. by apply plain_chars_no_digit.
Qed.

Lemma search_digits_stem fname :
  endswith fname ".txt" = true →
  search_digits (fst (splitext fname)) = search_digits fname.
Proof.
  intros [g ->]%endswith_app.
  destruct (splitext_txt g) as [-> | ->]; [|done].
  by rewrite search_digits_app.
Qed.

(** The run found is made of characters of the string, and reads back as
    these characters. *)
Lemma search_digits_chars s run :
  search_digits s = Some run →
  ∃ ds, search_run (chars s) = Some ds ∧ run = bytes_of ds ∧ chars run = ds.
Proof.
  unfold search_digits. destruct (search_run (chars s)) as [ds|] eqn:E; [|done].
  intros [= <-]. exists ds. split_and!; [done..|].
  apply search_run_Some in E as (pre & post & Hs & _ & _ & Hds & _).
  rewrite <- (str_app_nil_r (bytes_of ds)), chars_bytes_of, chars_nil, app_nil_r; [done|].
  apply Forall_forall. intros c Hc. apply (chars_well_formed s).
  - rewrite Hs. apply elem_of_app. right. apply elem_of_app. by left.
  - apply digit_not_surrogate. rewrite Forall_forall in Hds. by apply Hds.
Qed.

Lemma bytes_of_nil_inv l :
  Forall (λ c : uchar, snd c ≠ "") l → bytes_of l = "" → l = [].
Proof.
  destruct 1 as [|[cp bs] l Hc _]; simpl; [done|]. by destruct bs.
Qed.

Lemma chars_nonempty s c : c ∈ chars s → snd c ≠ "".
Proof.
  intros (s' & Hs' & ->)%elem_of_chars. simpl.
  pose proof (head_char_bounds s' Hs'). destruct s'; [done|].
  destruct (snd (head_char _)); [lia|done].
Qed.

End DigitFacts.

Module PyRuns.
Import Py PyFacts Text Utf8Facts DigitFacts.

Lemma search_digits_Some s run :
  search_digits s = Some run → first_maximal_digit_run s run.
Proof.
  intros (ds & Hrun & -> & Hchars)%search_digits_chars.
  apply search_run_Some in Hrun as (pre & post & Hs & Hpre & Hne & Hds & Hpost).
  exists pre, post. rewrite Hchars. split_and!; try done.
  - intros Hnil. apply Hne. rewrite <- Hchars, Hnil. done.
  - unfold all_digits. rewrite Hchars. apply forallb_forall.
    intros c Hc%list_elem_of_In. rewrite Forall_forall in Hds. by apply Hds.
Qed.

Lemma trim_id {A} (p : A → bool) (l : list A) :
  match l with x :: _ => p x = false | [] => True end →
  match last l with Some x => p x = false | None => True end →
  trim p l = l.
Proof.
  intros Hhd Hlast. unfold trim.
  assert (drop_while p l = l) as -> by (destruct l; simpl; [done|by rewrite Hhd]).
  assert (drop_while p (reverse l) = reverse l) as ->.
  { destruct l as [|x l] using rev_ind; [done|].
    rewrite reverse_snoc. rewrite last_snoc in Hlast. simpl. by rewrite Hlast. }
  apply reverse_involutive.
Qed.

Lemma int_body_digits ds : ∀ acc,
  Forall (λ c : uchar, is_digit (fst c) = true) ds →
  int_body acc true ds = Some (value_from acc ds).
Proof.
  induction ds as [|c ds IH]; intros acc Hds; [done|].
  apply Forall_cons in Hds as [Hc Hds]. simpl. rewrite Hc. by apply IH.
Qed.

Lemma filter_digits (l : list (N * string)) :
  Forall (λ c, is_digit (fst c) = true) l →
  List.filter (λ c : N * string, is_digit (fst c)) l = l.
Proof. induction 1 as [|x l Hx _ IH]; [done|]. simpl. by rewrite Hx, IH. Qed.

(** [int] of a string of digits. *)
Lemma int_digit_chars s :
  chars s ≠ [] → Forall (λ c, is_digit (fst c) = true) (chars s) →
  int s = if max_str_digits <? Z.of_nat (nchars s) then Raise ValueError
          else Ok (digits_value s).
Proof.
  intros Hne Hds. unfold int, nchars, digits_value, digits_value_from.
  rewrite trim_id.
  - pose proof (filter_digits _ Hds) as Hfilter.
    destruct (chars s) as [|c ds] eqn:E; [done|].
    pose proof Hds as Hds'. apply Forall_cons in Hds' as [Hc Htl].
    destruct (digit_not_sign _ Hc) as (-> & -> & _).
    rewrite Hfilter. cbn [int_body]. rewrite Hc. by rewrite int_body_digits.
  - destruct (chars s) as [|c ds]; [done|]. apply digit_not_int_space.
    by apply Forall_cons in Hds as [? _].
  - destruct (last _) as [c|] eqn:E; [|done]. apply digit_not_int_space.
    apply last_Some_elem_of in E. rewrite Forall_forall in Hds. by apply Hds.
Qed.

Lemma int_run s run :
  search_digits s = Some run →
  int run = if max_str_digits <? Z.of_nat (nchars run) then Raise ValueError
            else Ok (digits_value run).
Proof.
  intros (ds & Hrun & -> & Hchars)%search_digits_chars.
  apply search_run_Some in Hrun as (pre & post & Hs & Hpre & Hne & Hds & Hpost).
  apply int_digit_chars; by rewrite Hchars.
Qed.

Lemma value_from_nonneg l : ∀ acc, 0 ≤ acc → 0 ≤ value_from acc l.
Proof.
  induction l as [|c l IH]; intros acc Hacc; simpl; [done|].
  apply IH. pose proof (digit_value_nonneg (fst c)). lia.
Qed.

Lemma digits_value_nonneg s : 0 ≤ digits_value s.
Proof. by apply value_from_nonneg. Qed.

End PyRuns.

Module DecimalFacts.
Import Py PyFacts Text Utf8Facts DigitFacts PyRuns.

Lemma plain_digits_app s t :
  plain_digits (s +:+ t) = plain_digits s && plain_digits t.
Proof.
  induction s as [|c s IH]; [done|]. rewrite str_app_cons. simpl.
  rewrite IH. by destruct (plain_digit c).
Qed.

Lemma digits_value_from_cons acc c s :
  plain_digit c = true →
  digits_value_from acc (String c s) =
    digits_value_from (10 * acc + (Z.of_N (byte c) - 48)) s.
Proof.
  intros Hc. unfold digits_value_from.
  rewrite chars_plain_cons by by apply plain_digit_plain.
  simpl. by rewrite plain_digit_value.
Qed.

Lemma digits_value_from_app acc s t :
  plain_digits s = true →
  digits_value_from acc (s +:+ t) = digits_value_from (digits_value_from acc s) t.
Proof.
  revert acc. induction s as [|c s IH]; intros acc; [done|]. simpl.
  intros [Hc Hs]%andb_true_iff.
  rewrite str_app_cons, !digits_value_from_cons by done. by apply IH.
Qed.

Lemma digits_value_snoc s c :
  plain_digits s = true → plain_digit c = true →
  digits_value (s +:+ String c "") = 10 * digits_value s + (Z.of_N (byte c) - 48).
Proof.
  intros Hs Hc. unfold digits_value.
  rewrite digits_value_from_app, digits_value_from_cons by done. done.
Qed.

Lemma pretty_N_char_digit x :
  (x < 10)%N →
  plain_digit (pretty_N_char x) = true ∧
  Z.of_N (byte (pretty_N_char x)) - 48 = Z.of_N x.
Proof.
  intros Hx.
  assert (x = 0 ∨ x = 1 ∨ x = 2 ∨ x = 3 ∨ x = 4 ∨ x = 5
          ∨ x = 6 ∨ x = 7 ∨ x = 8 ∨ x = 9)%N as H by lia.
  repeat destruct H as [-> | H]; try subst x; by vm_compute.
Qed.

Lemma pretty_N_go_digits x s :
  ∃ d, pretty_N_go x s = d +:+ s ∧ plain_digits d = true ∧
       digits_value d = Z.of_N x ∧ ((0 < x)%N → d ≠ "").
Proof.
  revert s. induction (N.lt_wf_0 x) as [x _ IH]; intros s.
  destruct (decide (x = 0%N)) as [-> | Hx].
  - exists "". rewrite pretty_N_go_0. split_and!; try done.
  - rewrite pretty_N_go_step by lia.
    destruct (IH (x `div` 10)%N) with (s := String (pretty_N_char (x `mod` 10)) s)
      as (d & -> & Hall & Hval & _).
    { apply N.div_lt; lia. }
    destruct (pretty_N_char_digit (x `mod` 10)%N) as [Hdig Hdv].
    { apply N.mod_lt. lia. }
    exists (d +:+ String (pretty_N_char (x `mod` 10)) "").
    split_and!.
    + by rewrite str_app_assoc.
    + rewrite plain_digits_app, Hall. simpl. by rewrite Hdig.
    + rewrite digits_value_snoc, Hval, Hdv by done.
      rewrite (N.div_mod x 10) at 3 by lia. lia.
    + intros _. destruct d; done.
Qed.

Lemma pretty_nat_digits (n : nat) :
  plain_digits (pretty n) = true ∧ pretty n ≠ "" ∧
  digits_value (pretty n) = Z.of_nat n.
Proof.
  unfold pretty, pretty_nat, pretty, pretty_N.
  destruct (decide (N.of_nat n = 0%N)) as [H0 | Hn].
  - assert (n = 0%nat) as -> by lia. by split_and!.
  - destruct (pretty_N_go_digits (N.of_nat n) "") as (d & -> & Hall & Hval & Hne).
    rewrite str_app_nil_r. split_and!; [done|apply Hne; lia|lia].
Qed.

Lemma plain_digits_chars d :
  plain_digits d = true →
  chars d = plain_chars d ∧ Forall (λ c, is_digit (fst c) = true) (chars d).
Proof.
  intros Hd. rewrite chars_plain by by apply plain_digits_plain.
  split; [done|]. by apply plain_chars_digits.
Qed.

Lemma plain_digits_all d : plain_digits d = true → all_digits d = true.
Proof.
  intros [_ Hd]%plain_digits_chars. unfold all_digits. apply forallb_forall.
  intros c Hc%list_elem_of_In. rewrite Forall_forall in Hd. by apply Hd.
Qed.

(** A run of ASCII digits followed by nothing, or by an ASCII character that
    is no digit, is found as it is. *)
Lemma search_digits_digits d t :
  plain_digits d = true → d ≠ "" →
  match t with
  | String c _ => plain_char c = true ∧ plain_digit c = false
  | EmptyString => True
  end →
  search_digits (d +:+ t) = Some d.
Proof.
  intros Hd Hne Ht. unfold search_digits.
  rewrite chars_plain_app by by apply plain_digits_plain.
  rewrite search_run_digits.
  - simpl. by rewrite bytes_of_plain_chars.
  - by destruct d.
  - by apply plain_chars_digits.
  - destruct t as [|c t]; [done|]. destruct Ht as [Hc Hnd].
    rewrite chars_plain_cons by done. simpl. by apply plain_not_digit.
Qed.

Lemma nchars_plain d : plain d = true → nchars d = length d.
Proof.
  intros Hd. unfold nchars. rewrite chars_plain by done.
  induction d as [|c d IH]; simpl in *; [done|].
  apply andb_true_iff in Hd as [_ Hd]. by rewrite IH.
Qed.

Lemma int_digits d :
  plain_digits d = true → d ≠ "" →
  int d = if max_str_digits <? Z.of_nat (length d) then Raise ValueError
          else Ok (digits_value d).
Proof.
  intros Hd Hne. destruct (plain_digits_chars d Hd) as [Hc Hall].
  rewrite int_digit_chars; [|by rewrite Hc; destruct d|done].
  by rewrite nchars_plain by by apply plain_digits_plain.
Qed.

End DecimalFacts.

Module NumberedFacts.
Import Py PyFacts PyRuns Text Utf8Facts DigitFacts DecimalFacts.

Lemma replace_go_digits old d t :
  plain_digits d = true →
  match old with String c _ => plain_digit c = false | EmptyString => False end →
  replace_go old "" O (d +:+ t) = d +:+ replace_go old "" O t.
Proof.
  intros Hd Hold. induction d as [|c d IH]; [done|].
  rewrite !str_app_cons. simpl in Hd. apply andb_true_iff in Hd as [Hc Hd].
  cbn [replace_go].
  assert (startswith (String c (d +:+ t)) old = false) as ->.
  { destruct old as [|o old]; [done|]. simpl.
    destruct (decide (o = c)) as [-> |]; [congruence|done]. }
  by rewrite IH.
Qed.

Lemma numbered_png f :
  numbered ".png" f →
  ∃ n : nat, f = str_nat n +:+ ".png" ∧
    ∀ v, int (replace f ".png" "") = Ok v → v = Z.of_nat n.
Proof.
  intros [n ->]. exists n. split; [done|].
  destruct (pretty_nat_digits n) as (Hall & Hne & Hval).
  unfold replace, str_nat. cbn match.
  rewrite replace_go_digits by done.
  assert (replace_go ".png" "" 0 ".png" = "") as -> by by vm_compute.
  rewrite str_app_nil_r, int_digits by done.
  destruct (_ <? _); [done|]. intros v [= <-]. by rewrite Hval.
Qed.

Lemma numbered_txt f :
  numbered ".txt" f →
  ∃ n : nat, f = str_nat n +:+ ".txt" ∧
    search_digits (fst (splitext f)) = Some (str_nat n) ∧
    digits_value (str_nat n) = Z.of_nat n.
Proof.
  intros [n ->]. exists n. split; [done|].
  destruct (pretty_nat_digits n) as (Hall & Hne & Hval).
  split; [|done].
  rewrite search_digits_stem.
  - by apply search_digits_digits.
  - unfold endswith. apply bool_decide_eq_true.
    rewrite str_length_app. simpl.
    replace (length (str_nat n) + 4 - 4)%nat with (length (str_nat n)) by lia.
    apply str_drop_app_length.
Qed.

Lemma Forall2_impl_elem {A B} (R R' : A → B → Prop) l k :
  Forall2 R l k → (∀ x y, x ∈ l → R x y → R' x y) → Forall2 R' l k.
Proof.
  induction 1 as [|x y l k HR _ IH]; intros Himp; constructor.
  - apply Himp; [left|done].
  - apply IH. intros x' y' Hx'. apply Himp. by right.
Qed.

(** A key that determines the name: names without repetition have keys
    without repetition. *)
Lemma NoDup_keys {A} (g : Z → A) (names : list A) (keys : list Z) :
  Forall2 (λ f i, f = g i) names keys → NoDup names → NoDup keys.
Proof.
  intros H Hnd.
  assert (names = g <$> keys) as ->.
  { induction H; simpl; [done|]. f_equal; [done|]. apply IHForall2.
    by apply NoDup_cons in Hnd as [_ ?]. }
  by apply NoDup_fmap_1 in Hnd.
Qed.

End NumberedFacts.

Module ConsolidateFacts.
Import Py PyFacts DigitFacts PyRuns Consolidate.

Lemma sorted_perm names : sorted names ≡ₚ names.
Proof. apply merge_sort_Permutation. Qed.

Lemma sort_values_perm {A} (key : A → Z) rows : sort_values key rows ≡ₚ rows.
Proof. apply merge_sort_Permutation. Qed.

Lemma sort_values_sorted {A} (key : A → Z) rows :
  Sorted Z.le (key <$> sort_values key rows).
Proof.
  assert (Sorted (key_le key) (sort_values key rows)) as H
    by apply (Sorted_merge_sort _).
  induction H as [|r l _ IH Hhd]; simpl; constructor; [done|].
  destruct Hhd; simpl; by constructor.
Qed.

Lemma txt_files_endswith w fname :
  fname ∈ txt_files w → endswith fname ".txt" = true.
Proof.
  unfold txt_files. rewrite sorted_perm. intros [H _]%list_elem_of_filter.
  by apply Is_true_true.
Qed.

Lemma read_prompts_elem w files fname text :
  fname ∈ files → read_text w fname = Ok text →
  (fst (splitext fname), strip text) ∈ read_prompts w files.
Proof.
  intros Hin Hread. induction files as [|f files IH]; [by apply elem_of_nil in Hin|].
  apply elem_of_cons in Hin as [<- | Hin]; simpl.
  - rewrite Hread. left.
  - destruct (read_text w f); [right|]; by apply IH.
Qed.

(** The cast of a cell that holds a run of digits found by [str.extract]. *)
Lemma cell_astype_int_run s run :
  search_digits s = Some run →
  cell_astype_int (Some run) =
    if max_str_digits <? Z.of_nat (nchars run) then Raise ValueError
    else if digits_value run <? 2 ^ 63 then Ok (digits_value run)
    else Raise OverflowError.
Proof.
  intros Hrun. unfold cell_astype_int. rewrite (int_run s run Hrun).
  by destruct (max_str_digits <? _).
Qed.

Lemma astype_int_Ok data ids :
  astype_int (str_extract (fst <$> data)) = Ok ids →
  Forall2 (λ (d : string * string) i,
             ∃ run, search_digits (fst d) = Some run ∧ i = digits_value run)
          data ids.
Proof.
  revert ids. induction data as [|d data IH]; intros ids.
  - intros [= <-]. constructor.
  - rewrite fmap_cons. unfold str_extract in *. rewrite fmap_cons.
    cbn [astype_int].
    destruct (search_digits d.1) as [run|] eqn:Hrun; [|done].
    rewrite (cell_astype_int_run _ _ Hrun).
    destruct (max_str_digits <? _); [done|].
    destruct (digits_value run <? 2 ^ 63); [|done].
    destruct (astype_int _) as [vs|]; [|done].
    intros [= <-]. constructor; [by exists run|by apply IH].
Qed.

Lemma astype_int_NaN (data : list (string * string)) d :
  d ∈ data → search_digits (fst d) = None →
  ∃ e, astype_int (str_extract (fst <$> data)) = Raise e.
Proof.
  intros Hin Hnone. induction data as [|d' data IH]; [by apply elem_of_nil in Hin|].
  rewrite fmap_cons. unfold str_extract in *. rewrite fmap_cons.
  cbn [astype_int]. apply elem_of_cons in Hin as [<- | Hin].
  - rewrite Hnone. simpl. by eexists.
  - destruct (cell_astype_int _); [|by eexists].
    destruct (IH Hin) as [e ->]. by eexists.
Qed.

Lemma consolidate_Ok w rows :
  consolidate w = Ok rows →
  ∃ ids, astype_int (str_extract (fst <$> read_prompts w (txt_files w))) = Ok ids ∧
    rows = sort_values id
             (zip_with (λ i d, {| id := i; prompt_original := snd d |}) ids
                (read_prompts w (txt_files w))).
Proof.
  unfold consolidate. destruct (read_prompts w (txt_files w)) as [|d data]; [done|].
  destruct (astype_int _) as [ids|]; [|done]. intros [= <-]. by exists ids.
Qed.

End ConsolidateFacts.

Module ConsolidateOrder.
Import Py PyFacts DigitFacts PyRuns DecimalFacts NumberedFacts Consolidate ConsolidateFacts Invariants.

Lemma read_prompts_stems w files :
  Forall2 (λ f (d : string * string), fst d = fst (splitext f))
    (filter (readable w) files) (read_prompts w files).
Proof.
  induction files as [|f files IH]; simpl; [constructor|].
  destruct (read_text w f) eqn:E.
  - rewrite filter_cons_True by (unfold readable; by rewrite E). by constructor.
  - rewrite filter_cons_False by (unfold readable; by rewrite E). done.
Qed.

Lemma ids_of_zip (ids : list Z) (data : list (string * string)) :
  List.length ids = List.length data →
  id <$> zip_with (λ i d, {| id := i; prompt_original := snd d |}) ids data = ids.
Proof.
  revert data. induction ids as [|i ids IH]; intros [|d data]; simpl; try done.
  intros [= H]. by rewrite IH.
Qed.

Lemma consolidate_ids w rows :
  consolidate w = Ok rows →
  ∃ ids, id <$> rows ≡ₚ ids ∧
    Forall2 (λ f i, ∃ run, search_digits (fst (splitext f)) = Some run ∧
                           i = digits_value run)
      (filter (readable w) (txt_files w)) ids.
Proof.
  intros (ids & Hids & ->)%consolidate_Ok. exists ids.
  apply astype_int_Ok in Hids. split.
  - rewrite sort_values_perm, ids_of_zip; [done|].
    symmetry. by eapply Forall2_length.
  - pose proof (read_prompts_stems w (txt_files w)) as Hst.
    revert Hst Hids. generalize (read_prompts w (txt_files w)).
    generalize (filter (readable w) (txt_files w)).
    intros fs data Hst. revert ids.
    induction Hst as [|f d fs data Hfd _ IH]; intros ids Hids;
      inversion Hids as [|? i ? ids' (run & Hrun & ->) Hrest]; subst;
      constructor; [|by apply IH].
    exists run. by rewrite <- Hfd.
Qed.

Lemma txt_files_NoDup w : NoDup (listdir w) → NoDup (txt_files w).
Proof.
  intros H. unfold txt_files. rewrite sorted_perm. by apply NoDup_filter.
Qed.

Lemma consolidate_sorted w rows :
  consolidate w = Ok rows → Sorted Z.le (id <$> rows).
Proof. intros (ids & _ & ->)%consolidate_Ok. apply sort_values_sorted. Qed.

Lemma consolidate_unique w rows :
  consolidate w = Ok rows →
  NoDup (listdir w) →
  (∀ f, f ∈ txt_files w → numbered ".txt" f) →
  NoDup (id <$> rows).
Proof.
  intros (ids & Hperm & Hids)%consolidate_ids Hnd Hnum.
  rewrite Hperm.
  apply (NoDup_keys (λ i, str_nat (Z.to_nat i) +:+ ".txt")
           (filter (readable w) (txt_files w))).
  - eapply Forall2_impl_elem; [exact Hids|]. simpl.
    intros f i [_ Hf]%list_elem_of_filter (run & Hrun & ->).
    destruct (numbered_txt f) as (n & -> & Hrun' & Hval); [apply Hnum, Hf|].
    rewrite Hrun' in Hrun. injection Hrun as <-.
    by rewrite Hval, Nat2Z.id.
  - by apply NoDup_filter, txt_files_NoDup.
Qed.

End ConsolidateOrder.

Module MultiModelFacts.
Import Py PyFacts DigitFacts DecimalFacts NumberedFacts ConsolidateFacts MultiModel.

Lemma attempts_spec w b64 delay remaining : ∀ attempt n,
  ∃ k : nat, (k ≤ remaining)%nat ∧
    snd (attempts w b64 delay attempt remaining n) = backoff delay attempt k ∧
    (∀ i, (i < k)%nat → is_ok (api w (n + i) b64) = false) ∧
    ((k < remaining)%nat →
       ∃ content, api w (n + k) b64 = Ok content ∧
         attempts w b64 delay attempt remaining n
           = (strip content, S (n + k), backoff delay attempt k)) ∧
    (k = remaining →
       attempts w b64 delay attempt remaining n = ("", (n + k)%nat, backoff delay attempt k)).
Proof.
  induction remaining as [|remaining IH]; intros attempt n.
  - exists 0%nat. simpl. rewrite Nat.add_0_r. split_and!; try done; lia.
  - simpl. destruct (api w n b64) as [content|e] eqn:Hapi.
    + exists 0%nat. rewrite Nat.add_0_r. simpl. split_and!; try done; try lia.
      intros _. by exists content.
    + destruct (IH (S attempt) (S n)) as (k & Hk & Hsl & Hfail & Hok & Hall).
      exists (S k).
      destruct (attempts w b64 delay (S attempt) remaining (S n)) as [[c n'] sl] eqn:E.
      simpl in *. subst sl.
      replace (n + S k)%nat with (S n + k)%nat by lia.
      split_and!; try done; try lia.
      * intros [|i] Hi; [by rewrite Nat.add_0_r, Hapi|].
        replace (n + S i)%nat with (S n + i)%nat by lia. apply Hfail. lia.
      * intros Hlt. destruct Hok as (content & Hc & Heq); [lia|].
        exists content. split; [done|]. by simplify_eq.
      * intros [= ->]. specialize (Hall eq_refl). by simplify_eq.
Qed.

Lemma step_records w total idx fname st st' :
  step w total (idx, fname) st = Ok st' →
  records st' = records st ∨
  ∃ r, records st' = records st ++ [r] ∧ image_filename r = fname ∧
       int (replace fname ".png" "") = Ok (id r) ∧
       is_Some (encode_image w fname).
Proof.
  unfold step.
  destruct (path_exists w _); simpl; [|intros [= <-]; by left].
  destruct (read_text w _) as [text|]; [|intros [= <-]; by left].
  destruct (encode_image w fname) as [[|c b64]|] eqn:Henc; try (intros [= <-]; by left).
  destruct (get_caption_from_api _ _ _ _ _) as [[cap n'] sl].
  destruct (decide (cap = "")); [intros [= <-]; by left|].
  destruct (int _) as [i|] eqn:Hint; [|done].
  intros [= <-]. right. eexists. simpl. split_and!; done.
Qed.

(** The checkpoint is written in the iterations that add a record, when the
    index is a multiple of the interval or the last one, and in no other. *)
Lemma step_checkpoint w total idx fname st st' :
  step w total (idx, fname) st = Ok st' →
  (records st' = records st ∧ temp_csv st' = temp_csv st) ∨
  (records st' ≠ records st ∧
   temp_csv st' =
     if ((idx mod save_interval =? 0) || (idx =? total))%nat
     then Some (records st') else temp_csv st).
Proof.
  unfold step.
  destruct (path_exists w _); simpl; [|intros [= <-]; by left].
  destruct (read_text w _) as [text|]; [|intros [= <-]; by left].
  destruct (encode_image w fname) as [[|c b64]|]; try (intros [= <-]; by left).
  destruct (get_caption_from_api _ _ _ _ _) as [[cap n'] sl].
  destruct (decide (cap = "")); [intros [= <-]; by left|].
  destruct (int _) as [i|]; [|done].
  intros [= <-]. right. simpl. split; [|done].
  intros H. apply (f_equal List.length) in H. rewrite length_app in H. simpl in H. lia.
Qed.

Lemma loop_records w total items : ∀ st st',
  loop w total items st = Ok st' →
  ∃ new, records st' = records st ++ new ∧
    (image_filename <$> new) `sublist_of` (snd <$> items) ∧
    Forall (λ r, int (replace (image_filename r) ".png" "") = Ok (id r) ∧
                 is_Some (encode_image w (image_filename r))) new.
Proof.
  induction items as [|[idx fname] items IH]; intros st st'; cbn [loop].
  - intros [= <-]. exists []. split_and!.
    + by rewrite app_nil_r.
    + apply sublist_nil.
    + constructor.
  - destruct (step w total (idx, fname) st) as [st1|] eqn:Hstep; [|done].
    intros (new & -> & Hsub & Hall)%IH.
    apply step_records in Hstep as [-> | (r & -> & <- & Hint & Henc)].
    + exists new. split_and!; [done| |done]. simpl. by apply sublist_cons.
    + exists (r :: new). rewrite <- app_assoc. split_and!; [done| |by constructor].
      simpl. by apply sublist_skip.
Qed.

Lemma snd_enumerate {A} (xs : list A) k : snd <$> enumerate k xs = xs.
Proof. revert k. induction xs as [|x xs IH]; intros k; simpl; [done|]. by rewrite IH. Qed.

Lemma png_files_NoDup w : NoDup (listdir w) → NoDup (png_files w).
Proof.
  intros H. unfold png_files. eapply sublist_NoDup; [|apply sublist_take].
  rewrite sorted_perm. by apply NoDup_filter.
Qed.

Lemma model_csv_Ok w rows :
  model_csv w = Ok rows →
  ∃ st, process_model_folder w = Ok st ∧ rows = sort_values id (records st).
Proof.
  unfold model_csv. destruct (process_model_folder w) as [st|]; [|done].
  destruct (records st) eqn:E; [done|]. intros [= <-]. exists st. by rewrite E.
Qed.

Lemma model_csv_sorted w rows :
  model_csv w = Ok rows → Sorted Z.le (id <$> rows).
Proof. intros (st & _ & ->)%model_csv_Ok. apply sort_values_sorted. Qed.

Lemma model_csv_unique w rows :
  model_csv w = Ok rows →
  NoDup (listdir w) →
  (∀ f, f ∈ png_files w → numbered ".png" f) →
  NoDup (id <$> rows).
Proof.
  intros (st & Hrun & ->)%model_csv_Ok Hnd Hnum.
  rewrite sort_values_perm.
  apply loop_records in Hrun as (new & Hrec & Hsub & Hint).
  simpl in Hrec. rewrite Hrec. clear Hrec. rewrite snd_enumerate in Hsub.
  apply (NoDup_keys (λ i, str_nat (Z.to_nat i) +:+ ".png") (image_filename <$> new)).
  - assert (Forall (λ r, image_filename r ∈ png_files w) new) as Hin.
    { apply Forall_forall. intros r Hr.
      eapply elem_of_sublist; [|exact Hsub]. by apply list_elem_of_fmap_2. }
    clear Hsub. induction new as [|r new IH]; simpl; [constructor|].
    apply Forall_cons in Hint as [Hr Hint]. apply Forall_cons in Hin as [Hfr Hin].
    constructor; [|by apply IH].
    destruct (numbered_png _ (Hnum _ Hfr)) as (n & Hf & Hn).
    destruct Hr as [Hr _]. apply Hn in Hr as ->. by rewrite Nat2Z.id.
  - eapply sublist_NoDup; [|exact Hsub]. by apply png_files_NoDup.
Qed.

End MultiModelFacts.

Module ConsolidateClaims.
Import Py PyFacts DigitFacts PyRuns Consolidate ConsolidateExamples ConsolidateFacts ConsolidateOrder.

(** C5, as the script behaves.  Take a [.txt] file of the folder that can be
    read.  If the run completes, the CSV has a record for the file whose id is
    the number denoted by the first maximal run of digits of the file name
    and whose prompt is the stripped text.  If the name has no digit, the run
    does not complete: it raises before anything is written.  A digit is what
    [\d] matches and [int] reads: a decimal digit of any script. *)
Theorem consolidate_id_is_first_digit_run (w : World) (fname text : string) :
  fname ∈ txt_files w →
  read_text w fname = Ok text →
  (∀ rows, consolidate w = Ok rows →
     ∃ run r, first_maximal_digit_run fname run ∧ r ∈ rows ∧
       id r = digits_value run ∧ prompt_original r = strip text) ∧
  (no_digit fname = true → ∃ e, consolidate w = Raise e).
Proof.
  intros Hin Hread.
  pose proof (txt_files_endswith _ _ Hin) as Hsuf.
  pose proof (read_prompts_elem _ _ _ _ Hin Hread) as Hdata.
  split.
  - intros rows (ids & Hids & ->)%consolidate_Ok.
    apply astype_int_Ok in Hids.
    apply list_elem_of_lookup in Hdata as [k Hk].
    destruct (Forall2_lookup_l _ _ _ _ _ Hids Hk) as (i & Hi & run & Hrun & ->).
    simpl in Hrun. rewrite search_digits_stem in Hrun by done.
    exists run, {| id := digits_value run; prompt_original := strip text |}.
    split_and!; [by apply search_digits_Some| |done..].
    rewrite sort_values_perm. apply list_elem_of_lookup. exists k.
    rewrite lookup_zip_with, Hi. simpl. by rewrite Hk.
  - intros Hno%search_digits_None. rewrite <- search_digits_stem in Hno by done.
    unfold consolidate.
    destruct (read_prompts w (txt_files w)) as [|d data] eqn:E; [by eexists|].
    rewrite <- E in *.
    destruct (astype_int_NaN _ _ Hdata Hno) as [e ->]. by eexists.
Qed.

(** The theorem at [10.txt] of the three files of the example. *)
Lemma consolidate_id_is_first_digit_run_witness :
  "10.txt" ∈ txt_files three_files ∧
  read_text three_files "10.txt" = Ok "b" ∧
  ∃ run r, first_maximal_digit_run "10.txt" run ∧
    r ∈ [ {| id := 2; prompt_original := "c" |};
          {| id := 3; prompt_original := "a" |};
          {| id := 10; prompt_original := "b" |} ] ∧
    id r = digits_value run ∧ prompt_original r = strip "b".
Proof.
  assert ("10.txt" ∈ txt_files three_files) as Hin.
  { compute_done. }
  assert (read_text three_files "10.txt" = Ok "b") as Hread by (vm_compute; reflexivity).
  split; [exact Hin|]. split; [exact Hread|].
  apply (proj1 (consolidate_id_is_first_digit_run three_files "10.txt" "b" Hin Hread)).
  vm_compute. reflexivity.
Defined.

(** A name in two scripts: U+0663 and [5] are one run of digits, the id is
    35; the space that is stripped from the text is U+00A0. *)
Lemma arabic_indic_id :
  consolidate arabic_indic = Ok [ {| id := 35; prompt_original := "x" |} ].
Proof. vm_compute. reflexivity. Qed.

(** C5 as the specification words it fails: [notes.txt] is read, its name has
    no digit, and the run does not complete. *)
Lemma consolidate_undigited_raises :
  "notes.txt" ∈ txt_files undigited ∧
  read_text undigited "notes.txt" = Ok "x" ∧
  no_digit "notes.txt" = true ∧
  ¬ ∃ rows, consolidate undigited = Ok rows.
Proof.
  split_and!.
  - compute_done.
  - vm_compute. reflexivity.
  - vm_compute. reflexivity.
  - intros [rows H]. vm_compute in H. discriminate H.
Qed.

End ConsolidateClaims.

Module OrderClaims.
Import Py ConsolidateExamples ConsolidateFacts ConsolidateOrder MultiModelFacts.

(** C6, as the scripts behave.  Whenever the consolidator or the per-model
    captioner writes its CSV, the rows are in ascending order of id.  The ids
    are without repetition when the folder holds files named by plain decimal
    numbers ([17.txt], [17.png]); no check for collisions is made otherwise.
    The three files [3.txt], [10.txt], [2.txt] holding a, b, c give the rows
    (2, c), (3, a), (10, b). *)
Theorem csv_rows_sorted_by_id :
  (∀ w rows, Consolidate.consolidate w = Ok rows →
     Sorted Z.le (Consolidate.id <$> rows) ∧
     (NoDup (Consolidate.listdir w) →
      (∀ f, f ∈ Consolidate.txt_files w → numbered ".txt" f) →
      NoDup (Consolidate.id <$> rows))) ∧
  (∀ w rows, MultiModel.model_csv w = Ok rows →
     Sorted Z.le (MultiModel.id <$> rows) ∧
     (NoDup (MultiModel.listdir w) →
      (∀ f, f ∈ MultiModel.png_files w → numbered ".png" f) →
      NoDup (MultiModel.id <$> rows))) ∧
  Consolidate.consolidate three_files =
    Ok [ {| Consolidate.id := 2; Consolidate.prompt_original := "c" |};
         {| Consolidate.id := 3; Consolidate.prompt_original := "a" |};
         {| Consolidate.id := 10; Consolidate.prompt_original := "b" |} ].
Proof.
  split_and!.
  - intros w rows H. split; [by eapply consolidate_sorted|].
    intros. by eapply consolidate_unique.
  - intros w rows H. split; [by eapply model_csv_sorted|].
    intros. by eapply model_csv_unique.
  - vm_compute. reflexivity.
Qed.

(** The theorem at the three files of the example: the ids 2, 3, 10 are in
    order and without repetition. *)
Lemma csv_rows_sorted_by_id_witness :
  Sorted Z.le [2; 3; 10] ∧ NoDup [2; 3; 10].
Proof.
  destruct csv_rows_sorted_by_id as (Hc & _ & Hrows).
  destruct (Hc three_files _ Hrows) as [Hsorted Hunique].
  split; [exact Hsorted|]. apply Hunique.
  - compute_done.
  - intros f Hf.
    assert (f ∈ ["10.txt"; "2.txt"; "3.txt"]) as Hf' by exact Hf.
    apply elem_of_cons in Hf' as [-> | Hf']; [by exists 10%nat|].
    apply elem_of_cons in Hf' as [-> | Hf']; [by exists 2%nat|].
    apply elem_of_cons in Hf' as [-> | Hf']; [by exists 3%nat|].
    by apply elem_of_nil in Hf'.
Defined.

(** C6 as the specification words it fails: [1.txt] and [01.txt] both get
    id 1. *)
Lemma colliding_ids_repeat :
  ∃ rows, Consolidate.consolidate colliding = Ok rows ∧
          ¬ NoDup (Consolidate.id <$> rows).
Proof.
  eexists. split; [vm_compute; reflexivity|].
  simpl. intros [Hnot _]%NoDup_cons. apply Hnot. left.
Qed.

End OrderClaims.

Module MultiModelClaims.
Import Py MultiModel MultiModelExamples MultiModelFacts.

(** C9.  [get_caption_from_api] with its defaults makes at most three calls;
    after each failed one it sleeps the base delay times the number of the
    attempt (1.5 s, 3 s, 4.5 s); the first answer, stripped, is returned at
    once; when all three calls raise, the result is the empty string, and no
    exception leaves the function. *)
Theorem get_caption_from_api_retries (w : World) (b64 : string) (n : nat) :
  (∃ k : nat, (k ≤ 3)%nat ∧
     snd (get_caption_from_api w b64 default_retries default_delay n)
       = backoff default_delay 0 k ∧
     (∀ i, (i < k)%nat → is_ok (api w (n + i) b64) = false) ∧
     ((k < 3)%nat →
        ∃ content, api w (n + k) b64 = Ok content ∧
          fst (get_caption_from_api w b64 default_retries default_delay n)
            = (strip content, S (n + k)))) ∧
  ((∀ i, (i < 3)%nat → is_ok (api w (n + i) b64) = false) →
   get_caption_from_api w b64 default_retries default_delay n
     = ("", (n + 3)%nat, [(1.5 * 1)%Q; (1.5 * 2)%Q; (1.5 * 3)%Q])).
Proof.
  unfold get_caption_from_api, default_retries.
  destruct (attempts_spec w b64 default_delay 3 0 n)
    as (k & Hk & Hsl & Hfail & Hok & Hall).
  split.
  - exists k. split_and!; try done.
    intros Hlt. destruct (Hok Hlt) as (content & Hc & ->). by exists content.
  - intros Hdown. destruct (decide (k = 3%nat)) as [-> | Hne].
    + by rewrite Hall.
    + destruct Hok as (content & Hc & _); [lia|].
      specialize (Hdown k). rewrite Hc in Hdown. simpl in Hdown.
      discriminate Hdown. lia.
Qed.

(** The theorem when the service is down. *)
Lemma get_caption_from_api_retries_witness :
  get_caption_from_api service_down "iVBORw0KGgo=" default_retries default_delay 0
    = ("", 3%nat, [(1.5 * 1)%Q; (1.5 * 2)%Q; (1.5 * 3)%Q]).
Proof.
  apply (proj2 (get_caption_from_api_retries service_down "iVBORw0KGgo=" 0)).
  intros i _. reflexivity.
Defined.

(** C7 at a folder of 100 numbered images where the prompt files of the
    50th and the 100th image in processing order ([53.png], [99.png]) are
    missing: all other 98 images are captioned, and the checkpoint file is
    never written. *)
Theorem checkpoint_skipped_when_item_fails :
  png_files (folder 100 ["53.txt"; "99.txt"]) !! 49%nat = Some "53.png" ∧
  png_files (folder 100 ["53.txt"; "99.txt"]) !! 99%nat = Some "99.png" ∧
  ∃ st, process_model_folder (folder 100 ["53.txt"; "99.txt"]) = Ok st ∧
        List.length (records st) = 98%nat ∧ temp_csv st = None.
Proof.
  split_and!; [vm_compute; reflexivity..|].
  eexists. split; [vm_compute; reflexivity|]. split; reflexivity.
Qed.

End MultiModelClaims.

Module TraceFacts.

Lemma failures_cons o os :
  failures (o :: os) = ((if failed o then 1 else 0) + failures os)%nat.
Proof.
  unfold failures. destruct (failed o) eqn:E.
  - rewrite filter_cons_True; [done|by apply Is_true_true].
  - rewrite filter_cons_False; [done|by apply Is_true_false].
Qed.

Lemma streak_from_cons k o os :
  streak_from k (o :: os) = streak_from (streak_step k o) os.
Proof. done. Qed.

End TraceFacts.

Module CivitaiFacts.
Import Py Civitai CivitaiTrace TraceFacts Invariants.

(** The branches of one iteration: the image does not encode; or it does and
    the service answers, raises [RateLimitError], or raises something else. *)
Local Ltac step_cases w :=
  unfold step, record_failure;
  destruct (negb (truthy_str _)); simpl;
  [|destruct (api w _ _) as [?|[]]; simpl].

(** What one iteration does to the counter, by outcome. *)
Lemma step_fail_count w row st :
  let '(st', fl) := step w row st in
  if failed (outcome_of w row st)
  then fail_count st' = S (fail_count st) ∧
       fl = (if (max_failures <=? S (fail_count st))%nat then Break else Next)
  else fail_count st' = fail_count st ∧ fl = Next.
Proof.
  unfold outcome_of. step_cases w; done.
Qed.

Lemma loop_counts w df : ∀ st,
  (fail_count st < max_failures)%nat →
  let '(st', fl) := loop w df st in
  let os := outcomes w df st in
  fail_count st' = (fail_count st + failures os)%nat ∧
  (fl = Next → (fail_count st' < max_failures)%nat ∧ List.length os = List.length df) ∧
  (fl = Break → fail_count st' = max_failures ∧
                ∃ os' o, os = os' ++ [o] ∧ failed o = true).
Proof.
  induction df as [|row df IH]; intros st Hlt.
  - simpl. unfold failures. simpl. split_and!; [lia|done|done].
  - cbn [loop outcomes]. rewrite failures_cons.
    pose proof (step_fail_count w row st) as Hstep.
    destruct (step w row st) as [st1 fl1].
    (* the loop goes on from [st1]: the claim for the rest carries over *)
    assert ((fail_count st1 < max_failures)%nat →
            fail_count st1 =
              (fail_count st + (if failed (outcome_of w row st) then 1 else 0))%nat →
            let '(st', fl) := loop w df st1 in
            let os := outcome_of w row st :: outcomes w df st1 in
            fail_count st' =
              (fail_count st + ((if failed (outcome_of w row st) then 1 else 0)
                                + failures (outcomes w df st1)))%nat ∧
            (fl = Next → (fail_count st' < max_failures)%nat ∧
                         List.length os = S (List.length df)) ∧
            (fl = Break → fail_count st' = max_failures ∧
                          ∃ os' o, os = os' ++ [o] ∧ failed o = true)) as Hrest.
    { intros Hlt1 Hc. specialize (IH st1 Hlt1).
      destruct (loop w df st1) as [st' fl].
      destruct IH as (Hcount & Hnext & Hbreak).
      split_and!; [lia| |].
      - intros Hfl. destruct (Hnext Hfl). simpl. split; [done|lia].
      - intros Hfl. destruct (Hbreak Hfl) as (Hten & os' & o & -> & Ho).
        split; [done|]. by exists (outcome_of w row st :: os'), o. }
    destruct (failed (outcome_of w row st)) eqn:Hf; destruct Hstep as [Hc ->].
    + destruct (max_failures <=? S (fail_count st))%nat eqn:Hmax.
      * apply Nat.leb_le in Hmax. unfold failures. simpl.
        split_and!; [lia|done|].
        intros _. split; [lia|]. exists [], (outcome_of w row st). by rewrite Hf.
      * apply Nat.leb_gt in Hmax. apply Hrest; lia.
    + apply Hrest; lia.
Qed.

(** The files submitted to the service: at most one request per row, in the
    order of the rows. *)
Lemma step_calls w row st :
  calls (fst (step w row st)) = calls st ∨
  calls (fst (step w row st)) = calls st ++ [image_filename row].
Proof.
  step_cases w; auto.
Qed.

Lemma loop_calls w df : ∀ st,
  ∃ sub, calls (fst (loop w df st)) = calls st ++ sub ∧
         sub `sublist_of` (image_filename <$> df).
Proof.
  induction df as [|row df IH]; intros st; cbn [loop].
  - exists []. by rewrite app_nil_r.
  - pose proof (step_calls w row st) as Hc.
    destruct (step w row st) as [st1 []]; simpl in Hc.
    + destruct (IH st1) as (sub & -> & Hsub). destruct Hc as [-> | ->].
      * exists sub. split; [done|]. by apply sublist_cons.
      * exists (image_filename row :: sub). rewrite <- app_assoc.
        split; [done|]. by apply sublist_skip.
    + simpl. destruct Hc as [-> | ->].
      * exists []. rewrite app_nil_r. split; [done|]. apply sublist_nil_l.
      * exists [image_filename row]. split; [done|].
        apply sublist_skip, sublist_nil_l.
Qed.

Lemma encode_image_undecodable w f : undecodable w f → encode_image w f = None.
Proof. unfold undecodable, encode_image. by destruct (png_base64 w f). Qed.

Lemma record_failure_bad_marked w row st calls' :
  bad_marked w st → bad_marked w (fst (record_failure row st calls')).
Proof.
  intros Hinv r Hr Hu. simpl in *.
  apply elem_of_app in Hr as [Hr | ->%list_elem_of_singleton].
  - destruct (Hinv r Hr Hu). split; [done|]. apply elem_of_union. by left.
  - simpl. split; [done|]. apply elem_of_union. right. by apply elem_of_singleton.
Qed.

Lemma step_bad_marked w row st :
  bad_marked w st → bad_marked w (fst (step w row st)).
Proof.
  intros Hinv. unfold step.
  destruct (truthy_str (encode_image w (image_filename row))) eqn:Henc; simpl;
    [|by apply record_failure_bad_marked].
  assert (¬ undecodable w (image_filename row)) as Hdec.
  { intros Hu. by rewrite encode_image_undecodable in Henc. }
  destruct (api w _ _) as [content|e].
  - intros r Hr Hu. simpl in *.
    apply elem_of_app in Hr as [Hr | ->%list_elem_of_singleton]; [by apply Hinv|].
    by destruct Hdec.
  - destruct e; try by apply record_failure_bad_marked.
    intros r Hr Hu. by apply Hinv.
Qed.

Lemma loop_bad_marked w df : ∀ st,
  bad_marked w st → bad_marked w (fst (loop w df st)).
Proof.
  induction df as [|row df IH]; intros st Hinv; cbn [loop]; [done|].
  pose proof (step_bad_marked w row st Hinv) as H1.
  destruct (step w row st) as [st1 []]; [by apply IH|done].
Qed.

End CivitaiFacts.

Module FilenameFacts.
Import Py PyFacts DigitFacts PyRuns DecimalFacts Text Lexica Invariants.

Lemma plain_digits_zeros k : plain_digits (zeros k) = true.
Proof. induction k; simpl; [done|]. by rewrite IHk. Qed.

Lemma digits_value_from_zeros k : digits_value_from 0 (zeros k) = 0.
Proof.
  induction k; simpl; [done|]. by rewrite digits_value_from_cons by done.
Qed.

Lemma format_07d_digits n :
  plain_digits (format_07d n) = true ∧ format_07d n ≠ "" ∧
  digits_value (format_07d n) = Z.of_nat n.
Proof.
  destruct (pretty_nat_digits n) as (Hall & Hne & Hval).
  unfold format_07d, str_nat. split_and!.
  - by rewrite plain_digits_app, plain_digits_zeros.
  - destruct (zeros _); [by rewrite str_app_nil_l|done].
  - unfold digits_value.
    rewrite digits_value_from_app, digits_value_from_zeros by apply plain_digits_zeros.
    exact Hval.
Qed.

Lemma counter_of_img_filename n ext : counter_of (img_filename_of n ext) = n.
Proof.
  destruct (format_07d_digits n) as (Hall & Hne & Hval).
  unfold counter_of, img_filename_of, img_id_of.
  rewrite str_app_assoc, search_digits_skip by done.
  rewrite search_digits_digits; [|done|done|by split].
  simpl. rewrite Hval. lia.
Qed.

End FilenameFacts.

Module ExtractFacts.
Import Py Lexica FilenameFacts Invariants.

Create HintDb xinv discriminated.

Section invariant.
Context (imgs0 : gmap string string) (w : World).

Lemma xinv_init : xinv imgs0 (x_init imgs0).
Proof.
  split; simpl; [done| | |constructor]; intros r Hr; by apply elem_of_nil in Hr.
Qed.

(** The invariant does not look at the two counters of failures and of
    downloads. *)
Lemma xinv_gets st n :
  xinv imgs0 st →
  xinv imgs0 {| x_records := x_records st; id_counter := id_counter st;
                consecutive_fails := consecutive_fails st;
                x_images := x_images st; gets := n |}.
Proof. intros []. by split. Qed.

Lemma xinv_fails st k :
  xinv imgs0 st →
  xinv imgs0 {| x_records := x_records st; id_counter := id_counter st;
                consecutive_fails := k;
                x_images := x_images st; gets := gets st |}.
Proof. intros []. by split. Qed.

(** The one place where files and records are made.  A file is written only
    under a name that is not in the folder, hence was not there at the start;
    the record made for it is named from the current counter, which is above
    the counters of all earlier records. *)
Lemma save_image_xinv prompt img_bytes img_ext st :
  xinv imgs0 st → xinv imgs0 (ending_state (save_image w prompt img_bytes img_ext st)).
Proof.
  intros Hinv. pose proof Hinv as [Hkept Hfresh Hbelow Hnodup]. unfold save_image.
  destruct (truthy img_bytes); [|by apply xinv_fails].
  case_bool_decide as Hex.
  { split; simpl; try done. intros r Hr. specialize (Hbelow r Hr). lia. }
  assert (x_images st !! img_filename_of (id_counter st) img_ext = None) as Hnone.
  { by apply eq_None_not_Some. }
  assert (imgs0 !! img_filename_of (id_counter st) img_ext = None) as Hnone0.
  { apply eq_None_not_Some. intros H. by apply Hex, Hkept. }
  assert (∀ b f, is_Some (imgs0 !! f) →
            is_Some (<[img_filename_of (id_counter st) img_ext := b]> (x_images st) !! f))
    as Hins.
  { intros b f Hf. rewrite lookup_insert_ne; [by apply Hkept|].
    intros <-. rewrite Hnone0 in Hf. by destruct Hf. }
  destruct img_bytes as [|s|b|d|t]; simpl;
    try (split; simpl; by auto).
  destruct (pil_verify w b); simpl.
  - split; simpl.
    + by auto.
    + intros r [Hr | ->%list_elem_of_singleton]%elem_of_app; [by apply Hfresh|done].
    + intros r [Hr | ->%list_elem_of_singleton]%elem_of_app.
      * specialize (Hbelow r Hr). lia.
      * simpl. rewrite counter_of_img_filename. lia.
    + rewrite fmap_app. apply NoDup_app. split_and!; [done| |apply NoDup_singleton].
      intros f (r & -> & Hr)%list_elem_of_fmap Heq%list_elem_of_singleton.
      specialize (Hbelow r Hr). simpl in Heq.
      rewrite Heq, counter_of_img_filename in Hbelow. lia.
  - split; simpl; try done.
    intros f Hf. rewrite lookup_delete_ne; [by apply Hins|].
    intros <-. rewrite Hnone0 in Hf. by destruct Hf.
Qed.

Hint Resolve xinv_gets xinv_fails save_image_xinv : xinv.

Lemma download_xinv prompt img_url st :
  xinv imgs0 st → xinv imgs0 (ending_state (download w prompt img_url st)).
Proof.
  intros Hinv. unfold download.
  destruct (negb (allowed_ext _)); [done|].
  destruct (http_get w _ _); simpl; auto with xinv.
Qed.

Hint Resolve download_xinv : xinv.

Lemma try_row_xinv row st :
  xinv imgs0 st → xinv imgs0 (ending_state (try_row w row st)).
Proof.
  intros Hinv. unfold try_row.
  repeat case_match; simpl; auto with xinv.
Qed.

Lemma x_step_xinv row st :
  xinv imgs0 st → xinv imgs0 (fst (x_step w row st)).
Proof.
  intros Hinv%(try_row_xinv row). unfold x_step.
  destruct (try_row w row st); simpl in *; auto with xinv.
Qed.

Lemma x_rows_xinv rows : ∀ st,
  xinv imgs0 st → xinv imgs0 (x_rows w rows st).
Proof.
  induction rows as [|row rows IH]; intros st Hinv; cbn [x_rows]; [done|].
  pose proof (x_step_xinv row st Hinv) as H1.
  destruct (x_step w row st) as [st1 []]; [by apply IH|done].
Qed.

Lemma x_files_xinv files : ∀ st,
  xinv imgs0 st → xinv imgs0 (x_files w files st).
Proof.
  induction files as [|file files IH]; intros st Hinv; cbn [x_files]; [done|].
  destruct (read_parquet w file) as [[|row rows]|]; try by apply IH.
  pose proof (x_rows_xinv (row :: rows) st Hinv) as H1.
  destruct (_ <=? _)%nat; [done|by apply IH].
Qed.

End invariant.

Lemma extract_and_download_xinv w imgs0 :
  xinv imgs0 (extract_and_download w imgs0).
Proof. apply x_files_xinv, xinv_init. Qed.

End ExtractFacts.

Module CaptionFacts.
Import Py Lexica LexicaTrace TraceFacts.

#[local] Arguments Nat.leb : simpl never.

Lemma c_step_counter w imgs row st :
  let '(st', fl) := c_step w imgs row st in
  fail_count st' = streak_step (fail_count st) (outcome_of w imgs row st) ∧
  (fl = Break ↔
     outcome_of w imgs row st = ApiFailed ∧ (max_api_failures ≤ fail_count st')%nat).
Proof.
  unfold c_step, outcome_of.
  destruct (negb (bool_decide _)); simpl; [split; [done|]; split; [done|by intros [? _]]|].
  destruct (negb (truthy_str _)); simpl; [split; [done|]; split; [done|by intros [? _]]|].
  destruct (api w _ _) as [content|e]; cbn -[Nat.leb];
    [split; [done|]; split; [done|by intros [? _]]|].
  split; [done|].
  destruct (max_api_failures <=? S (fail_count st))%nat eqn:E.
  - apply Nat.leb_le in E. split; [intros _; by split|done].
  - apply Nat.leb_gt in E. split; [done|]. intros [_ ?]. lia.
Qed.

Lemma c_loop_streak w imgs df : ∀ st,
  let '(st', fl) := c_loop w imgs df st in
  let os := outcomes w imgs df st in
  fail_count st' = streak_from (fail_count st) os ∧
  (fl = Break ↔ last os = Some ApiFailed ∧ (max_api_failures ≤ fail_count st')%nat) ∧
  (fl = Next → List.length os = List.length df) ∧
  (df ≠ [] → os ≠ []).
Proof.
  induction df as [|row df IH]; intros st.
  - simpl. split_and!; try done. split; [done|by intros [? _]].
  - cbn [c_loop outcomes]. rewrite streak_from_cons.
    pose proof (c_step_counter w imgs row st) as Hstep.
    destruct (c_step w imgs row st) as [st1 fl1].
    destruct Hstep as [Hc Hfl]. destruct fl1.
    + specialize (IH st1). rewrite last_cons. destruct df as [|row' df].
      * simpl. split_and!; [done| |done|done].
        split; [done|]. intros [[= Ho] Hten].
        assert (Next = Break) by by apply Hfl. done.
      * destruct (c_loop w imgs (row' :: df) st1) as [st' fl].
        destruct IH as (Hcount & Hbreak & Hnext & Hne).
        split_and!; [by rewrite <- Hc| |intros Hfl2; simpl; f_equal; by apply Hnext|done].
        rewrite Hbreak.
        destruct (last (outcomes w imgs (row' :: df) st1)) eqn:El; [done|].
        apply last_None in El. by destruct Hne.
    + simpl. destruct (proj1 Hfl eq_refl) as [Ho Hten].
      split_and!; [done| |done|done]. by rewrite Ho.
Qed.

(** What one iteration does to the request log and to the records. *)
Lemma c_step_effects w imgs row st :
  let st' := fst (c_step w imgs row st) in
  (calls st' = calls st ∧ records st' = records st) ∨
  (calls st' = calls st ++ [image_filename row] ∧
   (records st' = records st ∨
    ∃ r, records st' = records st ++ [r] ∧
         c_image_filename r = Some (image_filename row) ∧
         is_Some (c_caption r) ∧
         is_Some (encode_image w imgs (image_filename row)))).
Proof.
  unfold c_step.
  destruct (negb (bool_decide _)); simpl; [by left|].
  destruct (encode_image w imgs (image_filename row)) as [[|c b64]|]; simpl;
    try by left.
  destruct (api w _ _) as [content|e]; simpl; right; (split; [done|]).
  - right. eexists. split_and!; done.
  - by left.
Qed.

Lemma c_loop_effects w imgs df : ∀ st,
  let st' := fst (c_loop w imgs df st) in
  ∃ subc new subr,
    calls st' = calls st ++ subc ∧ subc `sublist_of` (image_filename <$> df) ∧
    records st' = records st ++ new ∧
    c_image_filename <$> new = Some <$> subr ∧
    subr `sublist_of` (image_filename <$> df) ∧
    Forall (λ r, is_Some (c_caption r) ∧
                 ∃ f, c_image_filename r = Some f ∧ is_Some (encode_image w imgs f)) new.
Proof.
  induction df as [|row df IH]; intros st; cbn [c_loop].
  - exists [], [], []. rewrite !app_nil_r. simpl.
    split_and!; try done; constructor.
  - pose proof (c_step_effects w imgs row st) as Heff.
    destruct (c_step w imgs row st) as [st1 fl]. simpl in Heff.
    assert (∃ subc new subr,
      calls (fst (match fl with
                  | Next => c_loop w imgs df st1
                  | Break => (st1, Break)
                  end)) = calls st1 ++ subc ∧
      subc `sublist_of` (image_filename <$> df) ∧
      records (fst (match fl with
                    | Next => c_loop w imgs df st1
                    | Break => (st1, Break)
                    end)) = records st1 ++ new ∧
      c_image_filename <$> new = Some <$> subr ∧
      subr `sublist_of` (image_filename <$> df) ∧
      Forall (λ r, is_Some (c_caption r) ∧
                   ∃ f, c_image_filename r = Some f ∧ is_Some (encode_image w imgs f)) new)
      as (subc & new & subr & Hcalls & Hsubc & Hrecs & Hnames & Hsubr & Hall).
    { destruct fl; [apply IH|].
      exists [], [], []. rewrite !app_nil_r. simpl.
      split_and!; try done; try apply sublist_nil_l. }
    assert (∀ st2 : CState * flow,
      (let st' := fst st2 in
       calls st' = calls st1 ++ subc ∧ records st' = records st1 ++ new) →
      ∃ subc new subr,
        calls (fst st2) = calls st ++ subc ∧
        subc `sublist_of` (image_filename <$> row :: df) ∧
        records (fst st2) = records st ++ new ∧
        c_image_filename <$> new = Some <$> subr ∧
        subr `sublist_of` (image_filename <$> row :: df) ∧
        Forall (λ r, is_Some (c_caption r) ∧
                     ∃ f, c_image_filename r = Some f ∧ is_Some (encode_image w imgs f)) new)
      as Hgoal.
    { intros st2 [-> ->]. simpl.
      destruct Heff as [[-> ->] | [-> [-> | (r & -> & Hf & Hcap & Henc)]]].
      - exists subc, new, subr. split_and!; try done; by apply sublist_cons.
      - exists (image_filename row :: subc), new, subr. rewrite <- app_assoc.
        split_and!; try done; [by apply sublist_skip|by apply sublist_cons].
      - exists (image_filename row :: subc), (r :: new), (image_filename row :: subr).
        rewrite <- !app_assoc, !fmap_cons, Hf, Hnames.
        split_and!; try done; try by apply sublist_skip.
        constructor; [|done]. split; [done|]. by exists (image_filename row). }
    destruct fl; apply Hgoal; by split.
Qed.

Lemma work_queue_sublist existing df : work_queue existing df `sublist_of` df.
Proof. destruct existing; simpl; [apply sublist_filter|done]. Qed.



End CaptionFacts.

Module LexicaClaims.
Import Py Lexica LexicaExamples LexicaRuns FilenameFacts ExtractFacts CaptionFacts Invariants.













(** C3 at a CSV whose only row is for [img_0000001.jpg] and has no caption,
    with that image on disk.  Called with the image in the frame,
    [caption_images] has an empty work queue, makes no request and returns
    without writing.  A run of the pipeline on a data set of two images
    submits the second image only, and the CSV it writes has lost the first
    image. *)
Theorem uncaptioned_row_not_requeued :
  work_queue (Some uncaptioned) [row_of 1 "jpg"] = [] ∧
  caption_images two_urls (images first_uncaptioned)
    (Some uncaptioned) [row_of 1 "jpg"] = (None, c_init) ∧
  requests (main two_urls first_uncaptioned) = ["img_0000002.jpg"] ∧
  written (main two_urls first_uncaptioned)
    = Some [csv_row 2 "jpg" (Some "A caption.")].
Proof. split_and!; vm_compute; reflexivity. Qed.

End LexicaClaims.

Module BatchClaims.
Import Py TraceFacts CivitaiExamples.

(** C1, as the scripts behave.  In [generate_captions] (Civitai) the counter
    is the number of failed items met so far; it is never reset; the loop is
    left exactly when it reaches 10, on the item that failed last, and when it
    is not left every row has been processed.  In [caption_images] (Lexica)
    the counter is the number of failed items since the last captioned one
    (rows whose file is missing count for nothing), and the loop is left
    exactly on a failed remote call that leaves the counter at 10 or more. *)
Theorem failure_counters :
  (∀ w df,
     let '(st, fl) := Civitai.loop w df Civitai.init in
     let os := CivitaiTrace.outcomes w df Civitai.init in
     Civitai.fail_count st = failures os ∧
     (Civitai.fail_count st ≤ Civitai.max_failures)%nat ∧
     (fl = Break ↔ Civitai.fail_count st = Civitai.max_failures) ∧
     (fl = Break → ∃ os' o, os = os' ++ [o] ∧ failed o = true) ∧
     (fl = Next → List.length os = List.length df)) ∧
  (∀ w imgs df,
     let '(st, fl) := Lexica.c_loop w imgs df Lexica.c_init in
     let os := LexicaTrace.outcomes w imgs df Lexica.c_init in
     Lexica.fail_count st = streak os ∧
     (fl = Break ↔
        last os = Some ApiFailed ∧
        (Lexica.max_api_failures ≤ Lexica.fail_count st)%nat) ∧
     (fl = Next → List.length os = List.length df)).
Proof.
  split.
  - intros w df.
    pose proof (CivitaiFacts.loop_counts w df Civitai.init) as H.
    destruct (Civitai.loop w df Civitai.init) as [st fl].
    destruct H as (Hcount & Hnext & Hbreak); [unfold Civitai.max_failures; simpl; lia|].
    simpl in Hcount. split_and!; [done| | | |].
    + destruct fl; [destruct (Hnext eq_refl); lia|destruct (Hbreak eq_refl); lia].
    + split; [by intros [? _]%Hbreak|].
      intros Hten. destruct fl; [|done]. destruct (Hnext eq_refl). lia.
    + by intros [_ ?]%Hbreak.
    + by intros [_ ?]%Hnext.
  - intros w imgs df.
    pose proof (CaptionFacts.c_loop_streak w imgs df Lexica.c_init) as H.
    destruct (Lexica.c_loop w imgs df Lexica.c_init) as [st fl].
    destruct H as (Hcount & Hbreak & Hnext & _). by split_and!.
Qed.

(** C1 as the specification words it fails in the Civitai script: after an
    image that does not decode and one that is captioned, the counter is 1
    although no failed item precedes. *)
Lemma civitai_counter_not_reset :
  CivitaiTrace.outcomes (world ["a.jpg"] []) two_rows Civitai.init
    = [Undecodable; Captioned] ∧
  Civitai.fail_count (fst (Civitai.loop (world ["a.jpg"] []) two_rows Civitai.init))
    = 1%nat ∧
  Civitai.fail_count (fst (Civitai.loop (world ["a.jpg"] []) two_rows Civitai.init))
    ≠ streak (CivitaiTrace.outcomes (world ["a.jpg"] []) two_rows Civitai.init).
Proof. split_and!; [vm_compute; reflexivity..|vm_compute; discriminate]. Qed.

(** C4.  An image file that does not decode makes [encode_image] return
    [None]; in the Civitai script every record about it is without caption
    and the CSV written has no row for it; in the other two scripts no record
    is made for it at all.  None of the three loops raises on it. *)
Theorem undecodable_image_excluded :
  (∀ w df f,
     is_ok (Civitai.png_base64 w f) = false →
     Civitai.encode_image w f = None ∧
     (∀ r, r ∈ Civitai.records (fst (Civitai.loop w df Civitai.init)) →
           Civitai.c_image_filename r = f → Civitai.caption r = None) ∧
     (∀ r, r ∈ Civitai.generate_captions w df → Civitai.c_image_filename r ≠ f)) ∧
  (∀ w imgs df f,
     Lexica.encode_image w imgs f = None →
     ∀ r, r ∈ Lexica.records (fst (Lexica.c_loop w imgs df Lexica.c_init)) →
          Lexica.c_image_filename r ≠ Some f) ∧
  (∀ w f st,
     MultiModel.encode_image w f = None →
     MultiModel.process_model_folder w = Ok st →
     ∀ r, r ∈ MultiModel.records st → MultiModel.image_filename r ≠ f).
Proof.
  split_and!.
  - intros w df f Hu.
    assert (Invariants.bad_marked w (fst (Civitai.loop w df Civitai.init))) as Hinv.
    { apply CivitaiFacts.loop_bad_marked. intros r Hr. by apply elem_of_nil in Hr. }
    split_and!.
    + by apply CivitaiFacts.encode_image_undecodable.
    + intros r Hr <-. by apply Hinv.
    + intros r [Hgood Hr]%list_elem_of_filter <-. apply Hgood. by apply Hinv.
  - intros w imgs df f Hnone r Hr Hf.
    destruct (CaptionFacts.c_loop_effects w imgs df Lexica.c_init)
      as (_ & new & _ & _ & _ & Hrec & _ & _ & Hall).
    simpl in Hrec. rewrite Hrec in Hr.
    rewrite Forall_forall in Hall. destruct (Hall r Hr) as (_ & f' & Hf' & Henc).
    rewrite Hf in Hf'. injection Hf' as <-. rewrite Hnone in Henc. by destruct Henc.
  - intros w f st Hnone Hrun r Hr <-.
    apply MultiModelFacts.loop_records in Hrun as (new & Hrec & _ & Hall).
    simpl in Hrec. rewrite Hrec in Hr.
    rewrite Forall_forall in Hall. destruct (Hall r Hr) as [_ Henc].
    rewrite Hnone in Henc. by destruct Henc.
Qed.

(** The theorem at two images of which the first does not decode. *)
Lemma undecodable_image_excluded_witness :
  Civitai.encode_image (world ["a.jpg"] []) "a.jpg" = None ∧
  (∀ r, r ∈ Civitai.generate_captions (world ["a.jpg"] []) two_rows →
        Civitai.c_image_filename r ≠ "a.jpg").
Proof.
  assert (is_ok (Civitai.png_base64 (world ["a.jpg"] []) "a.jpg") = false) as Hu
    by (vm_compute; reflexivity).
  destruct (proj1 undecodable_image_excluded (world ["a.jpg"] []) two_rows "a.jpg" Hu)
    as (Henc & _ & Hcsv).
  by split.
Defined.

(** C8, as the scripts behave.  In the Civitai script a remote call that
    raises [RateLimitError] is followed by a sleep of 5 seconds and the next
    row: no record, no mark in [bad_files], the counter unchanged; each row is
    submitted at most once, in order, so the image is not tried again.  In the
    Lexica script every exception of the remote call, [RateLimitError]
    included, counts as a failure and is checked against the threshold. *)
Theorem rate_limit_handling :
  (∀ w row st b64,
     Civitai.encode_image w (Civitai.image_filename row) = Some b64 →
     b64 ≠ "" →
     Civitai.api w (List.length (Civitai.calls st)) b64 = Raise RateLimitError →
     Civitai.step w row st =
       ({| Civitai.records := Civitai.records st;
           Civitai.fail_count := Civitai.fail_count st;
           Civitai.bad_files := Civitai.bad_files st;
           Civitai.calls := Civitai.calls st ++ [Civitai.image_filename row];
           Civitai.slept := Civitai.slept st ++ [5%Q] |}, Next)) ∧
  (∀ w df,
     Civitai.calls (fst (Civitai.loop w df Civitai.init))
       `sublist_of` (Civitai.image_filename <$> df)) ∧
  (∀ w imgs row st b64 e,
     is_Some (imgs !! Lexica.image_filename row) →
     Lexica.encode_image w imgs (Lexica.image_filename row) = Some b64 →
     b64 ≠ "" →
     Lexica.api w (List.length (Lexica.calls st)) b64 = Raise e →
     Lexica.c_step w imgs row st =
       ({| Lexica.records := Lexica.records st;
           Lexica.fail_count := S (Lexica.fail_count st);
           Lexica.calls := Lexica.calls st ++ [Lexica.image_filename row] |},
        if (Lexica.max_api_failures <=? S (Lexica.fail_count st))%nat
        then Break else Next)).
Proof.
  split_and!.
  - intros w row st b64 Henc Hne Hapi. unfold Civitai.step. rewrite Henc.
    destruct b64 as [|c b64]; [done|]. simpl. by rewrite Hapi.
  - intros w df.
    destruct (CivitaiFacts.loop_calls w df Civitai.init) as (sub & -> & Hsub). done.
  - intros w imgs row st b64 e Hex Henc Hne Hapi. unfold Lexica.c_step.
    rewrite bool_decide_eq_true_2 by done. rewrite Henc.
    destruct b64 as [|c b64]; [done|]. simpl. by rewrite Hapi.
Qed.

(** The theorem at a first call that is rate-limited. *)
Lemma rate_limit_handling_witness :
  Civitai.step (world [] [Raise RateLimitError]) (row_of "a") Civitai.init =
    ({| Civitai.records := []; Civitai.fail_count := 0; Civitai.bad_files := ∅;
        Civitai.calls := ["a.jpg"]; Civitai.slept := [5%Q] |}, Next).
Proof.
  apply (proj1 rate_limit_handling (world [] [Raise RateLimitError]) (row_of "a")
           Civitai.init "iVBORw0KGgo=");
    [vm_compute; reflexivity|discriminate|vm_compute; reflexivity].
Defined.

(** C8 as the specification words it fails in the Civitai script: the first
    call, for [a.jpg], raises [RateLimitError]; the next call is for [b.jpg];
    [a.jpg] is never submitted again and has no row in the CSV. *)
Lemma rate_limited_image_not_retried :
  Civitai.api (world [] [Raise RateLimitError]) 0 "iVBORw0KGgo=" = Raise RateLimitError ∧
  Civitai.calls (fst (Civitai.loop (world [] [Raise RateLimitError]) two_rows Civitai.init))
    = ["a.jpg"; "b.jpg"] ∧
  Civitai.c_image_filename <$>
    Civitai.generate_captions (world [] [Raise RateLimitError]) two_rows = ["b.jpg"].
Proof. split_and!; vm_compute; reflexivity. Qed.

End BatchClaims.

Module EscapeFacts.
Import Py PyFacts Text Utf8Facts Civitai CivitaiInvariants.

Lemma startswith_nil s : startswith s "" = true.
Proof. by destruct s. Qed.

Lemma escape_nil : escape "" = "".
Proof. reflexivity. Qed.

Lemma escape_cons c s :
  escape (String c s) =
    if decide (c = quote_char) then String quote_char (String quote_char (escape s))
    else String c (escape s).
Proof.
  unfold escape, replace, quote. cbn [replace_go startswith].
  destruct (decide (quote_char = c)) as [<- | Hne].
  - rewrite decide_True by done. by rewrite startswith_nil.
  - rewrite decide_False by congruence. done.
Qed.

Lemma unescape_nil : unescape "" = "".
Proof. reflexivity. Qed.

Lemma unescape_quotes s :
  unescape (String quote_char (String quote_char s)) = String quote_char (unescape s).
Proof.
  unfold unescape, replace, quote.
  change (String quote_char "" +:+ String quote_char "")
    with (String quote_char (String quote_char "")).
  cbn [replace_go startswith]. rewrite !decide_True by done.
  by rewrite startswith_nil.
Qed.

Lemma unescape_other c s :
  c ≠ quote_char → unescape (String c s) = String c (unescape s).
Proof.
  intros Hne. unfold unescape, replace, quote.
  change (String quote_char "" +:+ String quote_char "")
    with (String quote_char (String quote_char "")).
  cbn [replace_go startswith]. rewrite decide_False by congruence. done.
Qed.

Lemma unescape_escape p : unescape (escape p) = p.
Proof.
  induction p as [|c p IH]; [done|]. rewrite escape_cons.
  destruct (decide (c = quote_char)) as [-> | Hne].
  - by rewrite unescape_quotes, IH.
  - by rewrite unescape_other, IH.
Qed.

Lemma escape_app a b : escape (a +:+ b) = escape a +:+ escape b.
Proof.
  induction a as [|c a IH]; [done|]. rewrite str_app_cons, !escape_cons, IH.
  by destruct (decide _).
Qed.

Lemma escape_quote : escape quote = quote +:+ quote.
Proof. reflexivity. Qed.

Lemma escape_eq_nil p : escape p = "" → p = "".
Proof.
  destruct p as [|c p]; [done|]. rewrite escape_cons. by destruct (decide _).
Qed.

Lemma quote_plain : plain_char quote_char = true.
Proof. reflexivity. Qed.

Lemma byte_quote c : byte c = 34%N → c = quote_char.
Proof.
  intros H. rewrite <- (ascii_N_embedding c). unfold byte in H. by rewrite H.
Qed.

(** Doubling the quotes leaves a string without ASCII bytes as it is. *)
Lemma escape_high a : high a = true → escape a = a.
Proof.
  induction a as [|c a IH]; [done|]. simpl. intros [Hc Ha]%andb_true_iff.
  rewrite escape_cons, decide_False, IH; [done..|].
  intros ->. by rewrite quote_plain in Hc.
Qed.

#[local] Arguments cont : simpl never.

Lemma cont_high s x r :
  cont s = Some (x, r) → ∃ b, s = String b r ∧ plain_char b = false.
Proof.
  destruct s as [|b s]; [done|]. unfold cont.
  destruct (128 <=? byte b)%N eqn:E; [|done]. destruct (_ <? _)%N; [|done].
  intros [= <- <-]. exists b. split; [done|]. unfold plain_char.
  apply N.leb_le in E. apply N.ltb_ge. lia.
Qed.

Lemma cont_escape s :
  cont (escape s) = (λ p, (fst p, escape (snd p))) <$> cont s.
Proof.
  destruct s as [|b s]; [done|]. rewrite escape_cons.
  destruct (decide (b = quote_char)) as [-> | Hne]; [done|].
  unfold cont. by destruct (_ && _).
Qed.

(** The first character of a string that does not start with a quote: it
    is the first character after the doubling too, with the same bytes. *)
Lemma head_char_escape b0 s1 :
  b0 ≠ quote_char →
  head_char (escape (String b0 s1)) = head_char (String b0 s1).
Proof.
  intros Hne. rewrite escape_cons, decide_False by done. unfold head_char.
  destruct (_ <? _)%N; [done|].
  rewrite cont_escape. destruct (cont s1) as [[x1 s2]|]; simpl; [|done].
  destruct (_ && _); [done|].
  rewrite cont_escape. destruct (cont s2) as [[x2 s3]|]; simpl; [|done].
  destruct (_ && _); [done|].
  rewrite cont_escape. by destruct (cont s3) as [[x3 s4]|].
Qed.

Lemma head_char_bytes b0 s1 :
  let s := String b0 s1 in
  (plain_char b0 = true ∧ head_char s = (byte b0, 1%nat)) ∨
  (plain_char b0 = false ∧ (128 ≤ fst (head_char s))%N ∧
   high (take (snd (head_char s)) s) = true).
Proof.
  simpl. unfold head_char, raw. destruct (plain_char b0) eqn:Hb0.
  { left. unfold plain_char in Hb0. by rewrite Hb0. }
  right. pose proof Hb0 as E0. unfold plain_char in E0. rewrite E0.
  apply N.ltb_ge in E0. split; [done|].
  destruct (cont s1) as [[x1 s2]|] eqn:E1;
    [|simpl; split; [lia|by rewrite Hb0]].
  apply cont_high in E1 as (b1 & -> & Hb1).
  destruct ((194 <=? byte b0)%N && (byte b0 <? 224)%N) eqn:L2.
  { apply andb_true_iff in L2 as [L%N.leb_le _]. simpl. split; [lia|].
    by rewrite Hb0, Hb1. }
  destruct (cont s2) as [[x2 s3]|] eqn:E2;
    [|simpl; split; [lia|by rewrite Hb0]].
  apply cont_high in E2 as (b2 & -> & Hb2).
  destruct ((224 <=? byte b0)%N && (byte b0 <? 240)%N) eqn:L3.
  { match goal with |- context [if ?c then (_, 3%nat) else _] => destruct c eqn:V3 end;
      [|simpl; split; [lia|by rewrite Hb0]].
    apply andb_true_iff in V3 as [V%N.leb_le _]. simpl. split; [lia|].
    by rewrite Hb0, Hb1, Hb2. }
  destruct (cont s3) as [[x3 s4]|] eqn:E3;
    [|simpl; split; [lia|by rewrite Hb0]].
  apply cont_high in E3 as (b3 & -> & Hb3).
  match goal with |- context [if ?c then (_, 4%nat) else _] => destruct c eqn:V4 end;
    [|simpl; split; [lia|by rewrite Hb0]].
  apply andb_true_iff in V4 as [[_ V%N.leb_le]%andb_true_iff _]. simpl. split; [lia|].
  by rewrite Hb0, Hb1, Hb2, Hb3.
Qed.

(** A character of a string is the quote, or its bytes hold no quote. *)
Lemma chars_quote s c :
  c ∈ chars s →
  (fst c = 34%N ∧ snd c = quote) ∨ (fst c ≠ 34%N ∧ escape (snd c) = snd c).
Proof.
  intros (s' & Hs' & ->)%elem_of_chars. destruct s' as [|b0 s1]; [done|].
  cbn [fst snd].
  destruct (head_char_bytes b0 s1) as [[Hp Hh] | (Hp & Hcp & Hhigh)]; cbn zeta in *.
  - rewrite Hh. cbn [fst snd].
    assert (take 1 (String b0 s1) = String b0 "") as -> by by destruct s1.
    destruct (decide (b0 = quote_char)) as [-> | Hne]; [by left|right].
    split; [intros H; by apply byte_quote in H|].
    by rewrite escape_cons, decide_False.
  - right. split; [lia|]. by apply escape_high.
Qed.

Lemma str_take_take_app n s t :
  (n ≤ length s)%nat → take n (take n s +:+ t) = take n s.
Proof.
  intros H. pose proof (str_length_take n s H) as Hl. revert Hl.
  generalize (take n s). intros a <-. apply str_take_app_length.
Qed.

Lemma str_drop_take_app n s t :
  (n ≤ length s)%nat → drop n (take n s +:+ t) = t.
Proof.
  intros H. pose proof (str_length_take n s H) as Hl. revert Hl.
  generalize (take n s). intros a <-. apply str_drop_app_length.
Qed.

Lemma chars_escape p : chars (escape p) = escape_chars (chars p).
Proof.
  induction p as [p IH] using string_length_ind.
  destruct p as [|b0 s1]; [done|].
  destruct (decide (b0 = quote_char)) as [-> | Hne].
  - rewrite escape_cons, decide_True by done.
    rewrite !chars_plain_cons by done. unfold escape_chars. simpl.
    f_equal. f_equal. apply IH. simpl. lia.
  - pose proof (head_char_bounds (String b0 s1) ltac:(done)) as Hn.
    assert (escape (String b0 s1)
            = take (snd (head_char (String b0 s1))) (String b0 s1)
              +:+ escape (drop (snd (head_char (String b0 s1))) (String b0 s1))) as Hesc.
    { rewrite <- (str_take_drop (snd (head_char (String b0 s1))) (String b0 s1)) at 1.
      rewrite escape_app. f_equal.
      destruct (head_char_bytes b0 s1) as [[Hp ->] | (Hp & Hcp & Hhigh)].
      - cbn [snd]. assert (take 1 (String b0 s1) = String b0 "") as -> by by destruct s1.
        by rewrite escape_cons, decide_False.
      - by apply escape_high. }
    assert (fst (head_char (String b0 s1)) ≠ 34%N) as Hcp.
    { destruct (head_char_bytes b0 s1) as [[Hp ->] | (Hp & Hcp & Hhigh)].
      - cbn [fst]. intros H. by apply byte_quote in H.
      - cbn zeta in Hcp. lia. }
    rewrite (chars_cons (escape _)) by (rewrite escape_cons; by destruct (decide _)).
    rewrite head_char_escape by done.
    rewrite (chars_cons (String b0 s1)) by done.
    unfold escape_chars. cbn [mbind list_bind]. unfold escape_char at 1. cbn [fst].
    rewrite (proj2 (N.eqb_neq _ _) Hcp). cbn [app]. f_equal.
    + f_equal. rewrite Hesc. apply str_take_take_app. lia.
    + rewrite Hesc at 1. rewrite str_drop_take_app by lia. apply IH.
      rewrite str_length_drop. lia.
Qed.

Lemma bytes_of_escape_chars s l :
  l ⊆ chars s → bytes_of (escape_chars l) = escape (bytes_of l).
Proof.
  induction l as [|c l IH]; intros Hsub; [done|].
  unfold escape_chars. cbn [mbind list_bind]. rewrite bytes_of_app.
  fold (escape_chars l). rewrite IH by (intros x Hx; apply Hsub; by right).
  simpl. rewrite escape_app. f_equal.
  destruct (chars_quote s c) as [[Hc Hb] | [Hc Hb]]; [apply Hsub; left|..];
    unfold escape_char.
  - rewrite Hc. simpl. by rewrite Hb, str_app_nil_r.
  - rewrite (proj2 (N.eqb_neq _ _) Hc). simpl. by rewrite Hb, str_app_nil_r.
Qed.

Lemma space_not_quote (c : uchar) : is_space (fst c) = true → (fst c =? 34)%N = false.
Proof.
  intros H. apply N.eqb_neq. intros Hq. rewrite Hq in H. by vm_compute in H.
Qed.

Lemma drop_while_escape_chars l :
  drop_while (λ c : uchar, is_space (fst c)) (escape_chars l)
  = escape_chars (drop_while (λ c : uchar, is_space (fst c)) l).
Proof.
  induction l as [|c l IH]; [done|].
  unfold escape_chars. cbn [mbind list_bind]. fold (escape_chars l).
  cbn [drop_while]. destruct (is_space (fst c)) eqn:Hc.
  - unfold escape_char. rewrite space_not_quote by done. simpl. by rewrite Hc.
  - unfold escape_chars. cbn [mbind list_bind]. fold (escape_chars l).
    unfold escape_char. destruct (fst c =? 34)%N; simpl; by rewrite Hc.
Qed.

Lemma reverse_escape_chars l : reverse (escape_chars l) = escape_chars (reverse l).
Proof.
  induction l as [|c l IH]; [done|].
  unfold escape_chars in *. cbn [mbind list_bind].
  rewrite reverse_app, reverse_cons, IH, bind_app. f_equal.
  cbn [mbind list_bind]. rewrite app_nil_r.
  unfold escape_char. by destruct (fst c =? 34)%N.
Qed.

Lemma trim_escape_chars l :
  trim (λ c : uchar, is_space (fst c)) (escape_chars l)
  = escape_chars (trim (λ c : uchar, is_space (fst c)) l).
Proof.
  unfold trim.
  by rewrite drop_while_escape_chars, reverse_escape_chars, drop_while_escape_chars,
    reverse_escape_chars.
Qed.

Lemma drop_while_subseteq {A} (p : A → bool) (l : list A) : drop_while p l ⊆ l.
Proof.
  induction l as [|x l IH]; simpl; [done|].
  destruct (p x); [|done]. intros y Hy. right. by apply IH.
Qed.

Lemma trim_subseteq {A} (p : A → bool) (l : list A) : trim p l ⊆ l.
Proof.
  unfold trim. intros x Hx. rewrite elem_of_reverse in Hx.
  apply drop_while_subseteq in Hx. rewrite elem_of_reverse in Hx.
  by apply drop_while_subseteq in Hx.
Qed.

(** Stripping and doubling the quotes can be done in either order. *)
Lemma strip_escape p : strip (escape p) = escape (strip p).
Proof.
  unfold strip. rewrite chars_escape, trim_escape_chars.
  apply (bytes_of_escape_chars p), trim_subseteq.
Qed.

End EscapeFacts.

Module PromptFacts.
Import Py PyFacts DigitFacts Civitai CivitaiInvariants EscapeFacts.

Lemma str_app_inv_r s s' t : s +:+ t = s' +:+ t → s = s'.
Proof.
  intros H.
  assert (length s = length s') as Hlen.
  { apply (f_equal length) in H. rewrite !str_length_app in H. lia. }
  rewrite <- (str_take_app_length s t), H, Hlen. apply str_take_app_length.
Qed.

(** [filename[:-5]] of a name that ends in [.json]. *)
Lemma json_base filename :
  endswith filename ".json" = true →
  take (length filename - 5) filename +:+ ".json" = filename.
Proof.
  intros [g ->]%endswith_app. rewrite str_length_app. simpl.
  replace (length g + 5 - 5)%nat with (length g) by lia.
  by rewrite str_take_app_length.
Qed.

Lemma meta_prompt_Ok data s :
  meta_prompt data = Ok s → ∃ p, prompt_source data p ∧ s = strip (escape p).
Proof.
  unfold meta_prompt, prompt_source.
  destruct (dict_get data "meta" (JObj [])) as [meta|]; [|done].
  destruct (dict_get meta "prompt" (JStr "")) as [[|p| |]|] eqn:Hp; try done.
  intros [= <-]. exists p. split; [by exists meta|done].
Qed.

Lemma pinv_skip d filenames filename st :
  pinv d filenames st → pinv d (filenames ++ [filename]) st.
Proof.
  intros [? ? ? ?]. split; try done. by apply sublist_inserts_r.
Qed.

Lemma prompt_step_pinv d filenames filename st st' :
  pinv d filenames st →
  prompt_step d filename st = Ok st' →
  pinv d (filenames ++ [filename]) st'.
Proof.
  intros Hinv. unfold prompt_step.
  destruct (endswith filename ".json") eqn:Hjson; simpl;
    [|intros [= <-]; by apply pinv_skip].
  destruct (path_exists d _) eqn:Hjpg; simpl; [|intros [= <-]; by apply pinv_skip].
  destruct (json_load d filename) as [data|] eqn:Hload; [|done].
  destruct (meta_prompt data) as [p|] eqn:Hp; [|done].
  case_bool_decide as Hempty; simpl; [intros [= <-]; by apply pinv_skip|].
  case_bool_decide as Hseen; simpl; intros [= <-]; [by apply pinv_skip|].
  destruct Hinv as [Hs Hnd Hnames Hrow]. split; simpl.
  - intros r [Hr | ->%list_elem_of_singleton]%elem_of_app.
    + apply elem_of_union. left. by apply Hs.
    + apply elem_of_union. right. by apply elem_of_singleton.
  - rewrite fmap_app. apply NoDup_app. split_and!; [done| |apply NoDup_singleton].
    intros x (r & -> & Hr)%list_elem_of_fmap Hx%list_elem_of_singleton.
    apply Hseen. simpl in Hx. rewrite <- Hx. by apply Hs.
  - rewrite fmap_app. simpl. rewrite json_base by done.
    by apply sublist_app.
  - intros r [Hr | ->%list_elem_of_singleton]%elem_of_app; [by apply Hrow|].
    simpl. split_and!; try done. exists data. by rewrite json_base.
Qed.

Lemma prompt_loop_pinv d filenames : ∀ done_ st st',
  pinv d done_ st →
  prompt_loop d filenames st = Ok st' →
  pinv d (done_ ++ filenames) st'.
Proof.
  induction filenames as [|filename filenames IH]; intros done_ st st' Hinv; cbn [prompt_loop].
  - intros [= <-]. by rewrite app_nil_r.
  - destruct (prompt_step d filename st) as [st1|] eqn:Hstep; [|done].
    intros Hloop. rewrite cons_middle, app_assoc.
    eapply IH; [|exact Hloop]. by eapply prompt_step_pinv.
Qed.

Lemma extract_prompts_pinv d df :
  extract_prompts d = Ok df →
  ∃ st, rows st = df ∧ pinv d (listdir d) st.
Proof.
  unfold extract_prompts.
  destruct (prompt_loop d (listdir d) _) as [st|] eqn:Hloop; [|done].
  intros [= <-]. exists st. split; [done|].
  apply (prompt_loop_pinv d (listdir d) []) in Hloop; [done|].
  split; simpl.
  - intros r Hr. by apply elem_of_nil in Hr.
  - constructor.
  - apply sublist_nil_l.
  - intros r Hr. by apply elem_of_nil in Hr.
Qed.

Lemma prompt_step_fatal d filename st :
  fatal d filename → ∃ e, prompt_step d filename st = Raise e.
Proof.
  intros (Hjson & Hjpg & Hbad). unfold prompt_step. rewrite Hjson, Hjpg. simpl.
  destruct (json_load d filename) as [data|e]; [|by eexists].
  specialize (Hbad data eq_refl). destruct (meta_prompt data); [done|by eexists].
Qed.

Lemma prompt_loop_fatal d filenames filename : ∀ st,
  filename ∈ filenames → fatal d filename →
  ∃ e, prompt_loop d filenames st = Raise e.
Proof.
  induction filenames as [|f filenames IH]; intros st Hin Hfatal;
    [by apply elem_of_nil in Hin|].
  cbn [prompt_loop]. destruct (prompt_step d f st) as [st1|e] eqn:Hstep; [|by eexists].
  apply elem_of_cons in Hin as [<- | Hin]; [|by apply IH].
  destruct (prompt_step_fatal d filename st Hfatal) as [e He]. congruence.
Qed.

(** Rows of different metadata files name different images. *)
Lemma pinv_files_NoDup d st :
  pinv d (listdir d) st → NoDup (listdir d) → NoDup (image_filename <$> rows st).
Proof.
  intros [_ _ Hnames Hrow] Hls.
  assert (NoDup ((λ r, id r +:+ ".json") <$> rows st)) as Hjson
    by by eapply sublist_NoDup.
  clear Hnames.
  induction (rows st) as [|r l IH]; [constructor|].
  rewrite fmap_cons in Hjson. apply NoDup_cons in Hjson as [Hnotin Hjson].
  rewrite fmap_cons. apply NoDup_cons. split.
  - intros (r' & Heq & Hr')%list_elem_of_fmap. apply Hnotin.
    apply list_elem_of_fmap. exists r'. split; [|done].
    destruct (Hrow r) as (_ & Hf & _); [left|].
    destruct (Hrow r') as (_ & Hf' & _); [by right|].
    rewrite Hf, Hf' in Heq. by apply str_app_inv_r in Heq as ->.
  - apply IH; [|done]. intros r' Hr'. apply Hrow. by right.
Qed.

End PromptFacts.

Module CsvFacts.
Import Py Civitai CivitaiInvariants.

Lemma generate_step_records w row st :
  let st' := fst (step w row st) in
  (records st' = records st ∧ bad_files st' = bad_files st) ∨
  (∃ r, records st' = records st ++ [r] ∧ row_of_record r = row ∧
        ((is_Some (caption r) ∧ bad_files st' = bad_files st) ∨
         (caption r = None ∧ bad_files st' = bad_files st ∪ {[ image_filename row ]}))).
Proof.
  assert (∀ calls', ∃ r,
    records (fst (record_failure row st calls')) = records st ++ [r] ∧
    row_of_record r = row ∧
    ((is_Some (caption r) ∧
      bad_files (fst (record_failure row st calls')) = bad_files st) ∨
     (caption r = None ∧
      bad_files (fst (record_failure row st calls'))
        = bad_files st ∪ {[ image_filename row ]}))) as Hfail.
  { intros calls'. exists (failed_row row). simpl. split_and!; [done| |by right].
    by destruct row. }
  unfold step. destruct (negb (truthy_str _)); [right; apply Hfail|].
  destruct (api w _ _) as [content|e]; simpl.
  - right. eexists. split; [done|]. split; [by destruct row|]. left. by split; [eexists|].
  - destruct e; try (right; apply Hfail). by left.
Qed.

Lemma step_marks_exact w row st :
  marks_exact st → marks_exact (fst (step w row st)).
Proof.
  intros [Hin Hout]. pose proof (generate_step_records w row st) as Hstep. simpl in Hstep.
  unfold marks_exact.
  destruct Hstep as [[-> ->] | (r & -> & Hrow & [[Hcap ->] | [Hcap ->]])]; [done|..].
  - split.
    + intros r' [Hr' | ->%list_elem_of_singleton]%elem_of_app Hnone; [by apply Hin|].
      rewrite Hnone in Hcap. by destruct Hcap.
    + intros f (r' & Hr' & ? & ?)%Hout. exists r'. split; [|done].
      apply elem_of_app. by left.
  - assert (c_image_filename r = image_filename row) as Hfile by by rewrite <- Hrow.
    split.
    + intros r' [Hr' | ->%list_elem_of_singleton]%elem_of_app Hnone.
      * apply elem_of_union. left. by apply Hin.
      * apply elem_of_union. right. by apply elem_of_singleton.
    + intros f [Hf | ->%elem_of_singleton]%elem_of_union.
      * destruct (Hout f Hf) as (r' & Hr' & ? & ?). exists r'. split; [|done].
        apply elem_of_app. by left.
      * exists r. split; [|done]. apply elem_of_app. right. by apply list_elem_of_singleton.
Qed.

Lemma loop_marks_exact w df : ∀ st,
  marks_exact st → marks_exact (fst (loop w df st)).
Proof.
  induction df as [|row df IH]; intros st Hinv; cbn [loop]; [done|].
  pose proof (step_marks_exact w row st Hinv) as H1.
  destruct (step w row st) as [st1 []]; [by apply IH|done].
Qed.

Lemma loop_rows w df : ∀ st,
  ∃ new, records (fst (loop w df st)) = records st ++ new ∧
         row_of_record <$> new `sublist_of` df.
Proof.
  induction df as [|row df IH]; intros st; cbn [loop].
  - exists []. by rewrite app_nil_r.
  - pose proof (generate_step_records w row st) as Hstep. simpl in Hstep.
    assert (∃ new, records (fst (step w row st)) = records st ++ new ∧
                   row_of_record <$> new `sublist_of` [row]) as (new1 & Hnew1 & Hsub1).
    { destruct Hstep as [[-> _] | (r & -> & <- & _)].
      - exists []. rewrite app_nil_r. split; [done|apply sublist_nil_l].
      - by exists [r]. }
    destruct (step w row st) as [st1 []]; simpl in *.
    + destruct (IH st1) as (new & -> & Hsub). exists (new1 ++ new).
      rewrite Hnew1, <- app_assoc, fmap_app. split; [done|].
      by apply (sublist_app _ [row]).
    + exists new1. split; [done|]. rewrite <- (app_nil_r (_ <$> new1)).
      apply (sublist_app _ [row]); [done|apply sublist_nil_l].
Qed.

Lemma init_marks_exact : marks_exact init.
Proof.
  split; simpl.
  - intros r Hr. by apply elem_of_nil in Hr.
  - intros f Hf. by apply not_elem_of_empty in Hf.
Qed.

(** The rows written have a caption and are rows of the frame, in order. *)
Lemma generate_captions_captioned w df r :
  r ∈ generate_captions w df → is_Some (caption r).
Proof.
  pose proof (loop_marks_exact w df init init_marks_exact) as [Hin _].
  unfold generate_captions, drop_bad. intros [Hgood Hr]%list_elem_of_filter.
  destruct (caption r) eqn:Hcap; [by eexists|]. by destruct Hgood; apply Hin.
Qed.

Lemma generate_captions_sublist w df :
  row_of_record <$> generate_captions w df `sublist_of` df.
Proof.
  destruct (loop_rows w df init) as (new & Hrec & Hsub). simpl in Hrec.
  unfold generate_captions, drop_bad.
  rewrite Hrec. etrans; [|exact Hsub]. apply fmap_sublist, sublist_filter.
Qed.

End CsvFacts.

Module CivitaiExtras.
Import Py PyFacts DigitFacts Civitai CivitaiInvariants EscapeFacts PromptFacts CsvFacts CivitaiFolderExamples.

(** X1.  The frame returned by [extract_prompts]: the prompts are not empty
    and pairwise different; every row is about a metadata file of the folder,
    in listing order, and names the image beside it, which exists; when the
    listing has no repeated name the image file names are pairwise
    different. *)
Theorem extract_prompts_rows (d : Folder) (df : list Row) :
  extract_prompts d = Ok df →
  NoDup (prompt <$> df) ∧
  (λ r, id r +:+ ".json") <$> df `sublist_of` listdir d ∧
  (∀ r, r ∈ df →
     prompt r ≠ "" ∧ image_filename r = id r +:+ ".jpg" ∧
     path_exists d (image_filename r) = true) ∧
  (NoDup (listdir d) → NoDup (image_filename <$> df)).
Proof.
  intros (st & <- & Hinv)%extract_prompts_pinv.
  pose proof Hinv as [_ Hnd Hnames Hrow].
  split_and!; [done|done| |].
  - intros r Hr. destruct (Hrow r Hr) as (? & ? & ? & _). by split_and!.
  - by apply pinv_files_NoDup.
Qed.

Lemma extract_prompts_rows_witness :
  NoDup ["a cat"; "a dog"] ∧ NoDup ["1.jpg"; "2.jpg"].
Proof.
  assert (extract_prompts two_prompts =
    Ok [ {| id := "1"; prompt := "a cat"; image_filename := "1.jpg" |};
         {| id := "2"; prompt := "a dog"; image_filename := "2.jpg" |} ]) as H
    by (vm_compute; reflexivity).
  destruct (extract_prompts_rows two_prompts _ H) as (Hp & _ & _ & Hf).
  split; [exact Hp|]. apply Hf. compute_done.
Defined.

(** X2.  Each stored prompt is the string under [meta.prompt] of the row's
    metadata file (the empty string when the key is absent), with every
    double quote doubled and the white space around it stripped, which is
    every character that is white space to [str.strip], as U+00A0 and U+3000
    are; replacing the doubled quotes by single ones gives the stripped
    original back. *)
Theorem stored_prompt_unescapes (d : Folder) (df : list Row) (r : Row) :
  extract_prompts d = Ok df →
  r ∈ df →
  ∃ data p,
    json_load d (id r +:+ ".json") = Ok data ∧
    prompt_source data p ∧
    prompt r = strip (replace p quote (quote +:+ quote)) ∧
    replace (prompt r) (quote +:+ quote) quote = strip p.
Proof.
  intros (st & <- & [_ _ _ Hrow])%extract_prompts_pinv Hr.
  destruct (Hrow r Hr) as (_ & _ & _ & data & Hload & Hp).
  apply meta_prompt_Ok in Hp as (p & Hsrc & Hp).
  exists data, p. split_and!; try done.
  rewrite Hp. fold (escape p). fold (unescape (strip (escape p))).
  by rewrite strip_escape, unescape_escape.
Qed.

Lemma stored_prompt_unescapes_witness :
  ∃ data p,
    json_load two_prompts "1.json" = Ok data ∧
    prompt_source data p ∧
    "a cat" = strip (replace p quote (quote +:+ quote)) ∧
    replace "a cat" (quote +:+ quote) quote = strip p.
Proof.
  assert (extract_prompts two_prompts =
    Ok [ {| id := "1"; prompt := "a cat"; image_filename := "1.jpg" |};
         {| id := "2"; prompt := "a dog"; image_filename := "2.jpg" |} ]) as H
    by (vm_compute; reflexivity).
  apply (stored_prompt_unescapes two_prompts _
           {| id := "1"; prompt := "a cat"; image_filename := "1.jpg" |} H).
  left.
Defined.

(** X3.  Nothing in [extract_prompts] catches exceptions: one metadata file
    (with its image beside it) that cannot be loaded, or whose content is not
    an object, or whose [meta] is present but not an object (as [null] is),
    or whose [meta.prompt] is present but not a string, makes the function
    raise, whatever the other files hold.  A missing [meta] or a missing
    [prompt] is no error: the prompt is empty. *)
Theorem bad_metadata_aborts :
  (∀ d filename, filename ∈ listdir d → fatal d filename →
     ∃ e, extract_prompts d = Raise e) ∧
  (∀ data, (∀ members, data ≠ JObj members) → is_ok (meta_prompt data) = false) ∧
  (∀ members v, member "meta" members = Some v → (∀ mm, v ≠ JObj mm) →
     is_ok (meta_prompt (JObj members)) = false) ∧
  (∀ members mm v, member "meta" members = Some (JObj mm) →
     member "prompt" mm = Some v → (∀ p, v ≠ JStr p) →
     is_ok (meta_prompt (JObj members)) = false) ∧
  (∀ members, member "meta" members = None → meta_prompt (JObj members) = Ok "") ∧
  (∀ members mm, member "meta" members = Some (JObj mm) →
     member "prompt" mm = None → meta_prompt (JObj members) = Ok "").
Proof.
  split_and!.
  - intros d filename Hin Hfatal. unfold extract_prompts.
    destruct (prompt_loop_fatal d (listdir d) filename
                {| seen_prompts := ∅; rows := [] |} Hin Hfatal) as [e ->].
    by exists e.
  - intros data Hno. destruct data as [|s|members|]; try done. by destruct (Hno members).
  - intros members v Hmeta Hno. unfold meta_prompt. simpl. rewrite Hmeta. simpl.
    destruct v as [|s|mm|]; try done. by destruct (Hno mm).
  - intros members mm v Hmeta Hprompt Hno. unfold meta_prompt. simpl.
    rewrite Hmeta. simpl. rewrite Hprompt. simpl.
    destruct v as [|p| |]; try done. by destruct (Hno p).
  - intros members Hmeta. unfold meta_prompt. simpl. by rewrite Hmeta.
  - intros members mm Hmeta Hprompt. unfold meta_prompt. simpl.
    rewrite Hmeta. simpl. by rewrite Hprompt.
Qed.

Lemma bad_metadata_aborts_witness : ∃ e, extract_prompts null_meta = Raise e.
Proof.
  apply (proj1 bad_metadata_aborts null_meta "2.json"); [compute_done|].
  split_and!; [reflexivity..|].
  intros data [= <-]. reflexivity.
Defined.

(** X4.  The frame that [generate_captions] writes as CSV: no row has the
    caption [None], which is what a failed image is recorded with; the
    caption of a row is a string, and it is the empty string (an empty cell
    of the file) when the answer of the service was blank.  The rows are rows
    of the input frame, in its order; and when the input frame has no
    repeated image file name, the rows written are exactly the records whose
    caption is not [None]: the filter on [bad_files] removes no row with an
    answer. *)
Theorem generate_captions_csv (w : World) (df : list Row) :
  (∀ r, r ∈ generate_captions w df → is_Some (caption r)) ∧
  row_of_record <$> generate_captions w df `sublist_of` df ∧
  (NoDup (image_filename <$> df) →
   generate_captions w df =
     filter (λ r, is_Some (caption r)) (records (fst (loop w df init)))).
Proof.
  split_and!; [intros r; apply generate_captions_captioned
              |apply generate_captions_sublist|].
  pose proof (loop_marks_exact w df init init_marks_exact) as [Hin Hout].
  destruct (loop_rows w df init) as (new & Hrec & Hsub). simpl in Hrec.
  unfold generate_captions, drop_bad.
  intros Hnd.
  assert (NoDup (c_image_filename <$> records (fst (loop w df init)))) as Hfiles.
  { rewrite Hrec. eapply sublist_NoDup; [exact Hnd|].
    replace (c_image_filename <$> new)
      with (image_filename <$> (row_of_record <$> new))
      by (rewrite <- list_fmap_compose; done).
    by apply fmap_sublist. }
  revert Hin Hout Hfiles. generalize (bad_files (fst (loop w df init))).
  generalize (records (fst (loop w df init))). intros recs bad Hin Hout Hfiles.
  assert (∀ r, r ∈ recs → (c_image_filename r ∉ bad ↔ is_Some (caption r))) as Hiff.
  { intros r Hr. split.
    - intros Hgood. destruct (caption r) eqn:Hcap; [by eexists|].
      by destruct Hgood; apply Hin.
    - intros Hcap Hbad. destruct (Hout _ Hbad) as (r' & Hr' & Hf & Hnone).
      assert (r' = r) as ->.
      { apply list_elem_of_lookup in Hr as [i Hi]. apply list_elem_of_lookup in Hr' as [j Hj].
        assert (i = j) as ->.
        { eapply NoDup_lookup; [exact Hfiles| |].
          - by rewrite list_lookup_fmap, Hi.
          - rewrite list_lookup_fmap, Hj. simpl. by rewrite Hf. }
        congruence. }
      rewrite Hnone in Hcap. by destruct Hcap. }
  clear Hin Hout Hfiles. induction recs as [|r recs IH]; [done|].
  assert (filter (λ r, c_image_filename r ∉ bad) recs
          = filter (λ r, is_Some (caption r)) recs) as IH'.
  { apply IH. intros r' Hr'. apply Hiff. by right. }
  destruct (Hiff r) as [H1 H2]; [left|].
  destruct (decide (c_image_filename r ∉ bad)) as [Hg | Hb].
  - rewrite !filter_cons_True by auto. by rewrite IH'.
  - rewrite !filter_cons_False by auto. done.
Qed.

(** A blank answer is kept, as a row with an empty caption. *)
Lemma blank_answer_row :
  generate_captions (CivitaiExamples.world [] [Ok "  "]) [CivitaiExamples.row_of "a"] =
    [ {| c_id := "a"; c_prompt := "a prompt"; c_image_filename := "a.jpg";
         caption := Some "" |} ].
Proof. vm_compute. reflexivity. Qed.

Lemma generate_captions_csv_witness :
  generate_captions (CivitaiExamples.world ["a.jpg"] []) CivitaiExamples.two_rows =
    filter (λ r, is_Some (caption r))
      (records (fst (loop (CivitaiExamples.world ["a.jpg"] [])
                          CivitaiExamples.two_rows init))).
Proof.
  apply (proj2 (proj2 (generate_captions_csv _ _))). compute_done.
Defined.

(** X5.  The script as a whole, when [extract_prompts] does not raise and
    the folder listing has no repeated name: the rows of the CSV are rows of
    the extracted frame, in the order of the frame, each with a caption that
    is not [None] (a string, the empty one when the answer of the service was
    blank), with pairwise different image file names and pairwise different
    prompts. *)
Theorem main_csv (d : Folder) (w : World) (csv : list CaptionRow) :
  main d w = Ok csv →
  NoDup (listdir d) →
  ∃ df, extract_prompts d = Ok df ∧
    row_of_record <$> csv `sublist_of` df ∧
    (∀ r, r ∈ csv → is_Some (caption r)) ∧
    NoDup (c_image_filename <$> csv) ∧
    NoDup (c_prompt <$> csv).
Proof.
  unfold main. destruct (extract_prompts d) as [df|] eqn:Hdf; [|done].
  intros [= <-] Hls. exists df.
  apply extract_prompts_pinv in Hdf as Hst. destruct Hst as (st & <- & Hinv).
  pose proof (pinv_nodup _ _ _ Hinv) as Hprompts.
  pose proof (pinv_files_NoDup d st Hinv) as Hfiles.
  pose proof (generate_captions_sublist w (rows st)) as Hsub.
  split_and!; [done|done|intros r; apply generate_captions_captioned| |].
  - replace (c_image_filename <$> generate_captions w (rows st))
      with (image_filename <$> (row_of_record <$> generate_captions w (rows st)))
      by (rewrite <- list_fmap_compose; done).
    eapply sublist_NoDup; [exact (Hfiles Hls)|]. by apply fmap_sublist.
  - replace (c_prompt <$> generate_captions w (rows st))
      with (prompt <$> (row_of_record <$> generate_captions w (rows st)))
      by (rewrite <- list_fmap_compose; done).
    eapply sublist_NoDup; [exact Hprompts|]. by apply fmap_sublist.
Qed.

Lemma main_csv_witness :
  NoDup ["1.jpg"; "2.jpg"] ∧ NoDup ["a cat"; "a dog"].
Proof.
  assert (main two_prompts (CivitaiExamples.world [] []) =
    Ok [ {| c_id := "1"; c_prompt := "a cat"; c_image_filename := "1.jpg";
            caption := Some "A caption." |};
         {| c_id := "2"; c_prompt := "a dog"; c_image_filename := "2.jpg";
            caption := Some "A caption." |} ]) as H by (vm_compute; reflexivity).
  destruct (main_csv two_prompts _ _ H) as (df & _ & _ & _ & Hf & Hp); [compute_done|].
  by split.
Defined.

End CivitaiExtras.

Module FolderFacts.
Import Py PyFacts DigitFacts DecimalFacts NumberedFacts ConsolidateFacts MultiModel MultiModelFacts Checkpoints.

Lemma attempts_calls w b64 delay remaining : ∀ attempt n,
  (n ≤ snd (fst (attempts w b64 delay attempt remaining n)) ≤ n + remaining)%nat.
Proof.
  induction remaining as [|remaining IH]; intros attempt n; simpl; [lia|].
  destruct (api w n b64); simpl; [lia|].
  specialize (IH (S attempt) (S n)).
  destruct (attempts w b64 delay (S attempt) remaining (S n)) as [[c n'] sl].
  simpl in *. lia.
Qed.

(** With the service down the answer is the empty string. *)
Lemma attempts_down w b64 delay remaining : ∀ attempt n,
  (∀ k b, is_ok (api w k b) = false) →
  fst (fst (attempts w b64 delay attempt remaining n)) = "".
Proof.
  induction remaining as [|remaining IH]; intros attempt n Hdown; simpl; [done|].
  specialize (Hdown n b64) as Hn. destruct (api w n b64); [done|].
  specialize (IH (S attempt) (S n) Hdown).
  by destruct (attempts w b64 delay (S attempt) remaining (S n)) as [[c n'] sl].
Qed.

(** What one iteration does: nothing but remote calls, or one more record,
    made from this file. *)
Lemma step_content w total idx fname st st' :
  step w total (idx, fname) st = Ok st' →
  (calls st ≤ calls st' ≤ calls st + 3)%nat ∧
  (records st' = records st ∨
   ∃ r text, records st' = records st ++ [r] ∧ image_filename r = fname ∧
     caption r ≠ "" ∧
     int (replace fname ".png" "") = Ok (id r) ∧
     path_exists w (replace fname ".png" "" +:+ ".txt") = true ∧
     read_text w (replace fname ".png" "" +:+ ".txt") = Ok text ∧
     prompt r = strip text).
Proof.
  unfold step.
  destruct (path_exists w _) eqn:Hex; simpl; [|intros [= <-]; split; [lia|by left]].
  destruct (read_text w _) as [text|] eqn:Hread; [|intros [= <-]; split; [lia|by left]].
  destruct (encode_image w fname) as [[|c b64]|];
    try (intros [= <-]; split; [lia|by left]).
  pose proof (attempts_calls w (String c b64) default_delay default_retries 0 (calls st)) as Hn.
  unfold get_caption_from_api.
  destruct (attempts _ _ _ _ _ _) as [[cap n'] sl]. simpl in Hn.
  unfold default_retries in Hn.
  destruct (decide (cap = "")); [intros [= <-]; simpl; split; [lia|by left]|].
  destruct (int _) as [i|] eqn:Hint; [|done].
  intros [= <-]. simpl. split; [lia|]. right. eexists _, text. by split_and!.
Qed.

Lemma step_down w total idx fname st :
  (∀ k b, is_ok (api w k b) = false) →
  ∃ st', step w total (idx, fname) st = Ok st' ∧ records st' = records st ∧
         temp_csv st' = temp_csv st.
Proof.
  intros Hdown. unfold step.
  destruct (path_exists w _); simpl; [|by exists st].
  destruct (read_text w _) as [text|]; [|by exists st].
  destruct (encode_image w fname) as [[|c b64]|]; try by exists st.
  pose proof (attempts_down w (String c b64) default_delay default_retries 0 (calls st) Hdown)
    as Hcap.
  unfold get_caption_from_api.
  destruct (attempts _ _ _ _ _ _) as [[cap n'] sl]. simpl in Hcap. subst cap.
  rewrite decide_True by done. by eexists.
Qed.

Lemma loop_down w total items : ∀ st,
  (∀ k b, is_ok (api w k b) = false) →
  ∃ st', loop w total items st = Ok st' ∧ records st' = records st ∧
         temp_csv st' = temp_csv st.
Proof.
  induction items as [|[idx fname] items IH]; intros st Hdown; cbn [loop].
  - by exists st.
  - destruct (step_down w total idx fname st Hdown) as (st1 & -> & Hr1 & Ht1).
    destruct (IH st1 Hdown) as (st' & -> & Hr & Ht). exists st'.
    split_and!; congruence.
Qed.

Lemma length_enumerate {A} (xs : list A) k : List.length (enumerate k xs) = List.length xs.
Proof. revert k. induction xs as [|x xs IH]; intros k; simpl; [done|]. by rewrite IH. Qed.

Lemma loop_content w total items : ∀ st st',
  loop w total items st = Ok st' →
  (calls st' ≤ calls st + 3 * List.length items)%nat ∧
  ∃ new, records st' = records st ++ new ∧
    image_filename <$> new `sublist_of` (snd <$> items) ∧
    Forall (λ r, caption r ≠ "" ∧
                 int (replace (image_filename r) ".png" "") = Ok (id r) ∧
                 ∃ text,
                   read_text w (replace (image_filename r) ".png" "" +:+ ".txt") = Ok text ∧
                   prompt r = strip text) new.
Proof.
  induction items as [|[idx fname] items IH]; intros st st'; cbn [loop].
  - intros [= <-]. split; [simpl; lia|]. exists []. rewrite app_nil_r.
    split_and!; [done|apply sublist_nil_l|constructor].
  - destruct (step w total (idx, fname) st) as [st1|] eqn:Hstep; [|done].
    intros (Hcalls & new & -> & Hsub & Hall)%IH.
    apply step_content in Hstep as [Hc1 Hrec1]. split; [simpl; lia|].
    destruct Hrec1 as [-> | (r & text & -> & <- & ? & ? & ? & ? & ?)].
    + exists new. split_and!; [done| |done]. simpl. by apply sublist_cons.
    + exists (r :: new). rewrite <- app_assoc. split_and!; [done| |].
      * simpl. by apply sublist_skip.
      * constructor; [|done]. split_and!; try done. by exists text.
Qed.

Lemma step_checkpoint_prefix w total idx fname st st' :
  checkpoint_prefix st → step w total (idx, fname) st = Ok st' → checkpoint_prefix st'.
Proof.
  intros Hinv Hstep. pose proof (step_records _ _ _ _ _ _ Hstep) as Hrec.
  apply step_checkpoint in Hstep as [[Hr Ht] | [Hr Ht]]; intros saved Hsaved.
  - rewrite Hr. apply Hinv. by rewrite <- Ht.
  - rewrite Ht in Hsaved. destruct (_ || _).
    + by injection Hsaved as <-.
    + destruct Hrec as [Hrec | (r & -> & _)]; [done|].
      apply prefix_app_r. by apply Hinv.
Qed.

Lemma loop_checkpoint_prefix w total items : ∀ st st',
  checkpoint_prefix st → loop w total items st = Ok st' → checkpoint_prefix st'.
Proof.
  induction items as [|[idx fname] items IH]; intros st st' Hinv; cbn [loop].
  - by intros [= <-].
  - destruct (step w total (idx, fname) st) as [st1|] eqn:Hstep; [|done].
    apply IH. by eapply step_checkpoint_prefix.
Qed.

Lemma enumerate_app {A} (xs ys : list A) k :
  enumerate k (xs ++ ys) = enumerate k xs ++ enumerate (k + List.length xs) ys.
Proof.
  revert k. induction xs as [|x xs IH]; intros k; simpl.
  - by rewrite Nat.add_0_r.
  - rewrite IH. do 3 f_equal. lia.
Qed.

Lemma loop_app w total items1 items2 st st' :
  loop w total (items1 ++ items2) st = Ok st' →
  ∃ st1, loop w total items1 st = Ok st1 ∧ loop w total items2 st1 = Ok st'.
Proof.
  revert st. induction items1 as [|item items1 IH]; intros st; simpl.
  - intros H. by exists st.
  - destruct (step w total item st) as [st0|]; [|done]. apply IH.
Qed.

Lemma attempts_answered w b64 delay remaining : ∀ attempt n,
  fst (fst (attempts w b64 delay attempt remaining n)) ≠ "" →
  (n < snd (fst (attempts w b64 delay attempt remaining n)))%nat.
Proof.
  induction remaining as [|remaining IH]; intros attempt n; simpl; [done|].
  destruct (api w n b64); simpl; [lia|].
  specialize (IH (S attempt) (S n)).
  destruct (attempts w b64 delay (S attempt) remaining (S n)) as [[c n'] sl].
  simpl in *. intros H%IH. lia.
Qed.

Lemma step_record_calls w total idx fname st st' :
  step w total (idx, fname) st = Ok st' →
  (List.length (records st) ≤ calls st)%nat →
  (List.length (records st') ≤ calls st')%nat.
Proof.
  unfold step.
  destruct (path_exists w _); simpl; [|by intros [= <-]].
  destruct (read_text w _) as [text|]; [|by intros [= <-]].
  destruct (encode_image w fname) as [[|c b64]|]; try by intros [= <-].
  pose proof (attempts_calls w (String c b64) default_delay default_retries 0 (calls st)) as Hn.
  pose proof (attempts_answered w (String c b64) default_delay default_retries 0 (calls st))
    as Hans.
  unfold get_caption_from_api.
  destruct (attempts _ _ _ _ _ _) as [[cap n'] sl]. simpl in Hn, Hans.
  destruct (decide (cap = "")); [intros [= <-]; simpl; lia|].
  destruct (int _) as [i|]; [|done].
  intros [= <-]. simpl. rewrite length_app. simpl. specialize (Hans n). lia.
Qed.

Lemma loop_record_calls w total items : ∀ st st',
  loop w total items st = Ok st' →
  (List.length (records st) ≤ calls st)%nat →
  (List.length (records st') ≤ calls st')%nat.
Proof.
  induction items as [|[idx fname] items IH]; intros st st'; cbn [loop].
  - by intros [= <-].
  - destruct (step w total (idx, fname) st) as [st1|] eqn:Hstep; [|done].
    intros Hloop Hst. eapply IH; [done|]. by eapply step_record_calls.
Qed.

(** With a service that always answers with some text, a file that has its
    prompt and encodes is captioned: the iteration gets to [int(img_id)]. *)
Lemma step_int_raises w total idx fname st text c b64 e :
  (∀ k b, ∃ content, api w k b = Ok content ∧ strip content ≠ "") →
  path_exists w (replace fname ".png" "" +:+ ".txt") = true →
  read_text w (replace fname ".png" "" +:+ ".txt") = Ok text →
  png_base64 w fname = Ok (String c b64) →
  int (replace fname ".png" "") = Raise e →
  step w total (idx, fname) st = Raise e.
Proof.
  intros Hapi Hex Hread Henc Hint. unfold step, encode_image.
  rewrite Hex, Hread, Henc. cbn [negb].
  unfold get_caption_from_api, default_retries. cbn [attempts].
  destruct (Hapi (calls st) (String c b64)) as (content & -> & Hne).
  rewrite decide_False by done. by rewrite Hint.
Qed.

Lemma loop_raises w total items fname : ∀ st,
  fname ∈ snd <$> items →
  (∀ idx st, ∃ e, step w total (idx, fname) st = Raise e) →
  ∃ e, loop w total items st = Raise e.
Proof.
  induction items as [|[idx f] items IH]; intros st Hin Hraise; simpl in Hin.
  - by apply elem_of_nil in Hin.
  - cbn [loop]. apply elem_of_cons in Hin as [-> | Hin].
    + destruct (Hraise idx st) as [e ->]. by exists e.
    + destruct (step w total (idx, f) st) as [st1|e]; [by apply IH|by exists e].
Qed.

End FolderFacts.

Module MultiModelExtras.
Import Py PyFacts DigitFacts ConsolidateFacts MultiModel MultiModelExamples MultiModelFacts.
Import Checkpoints FolderFacts.

(** X6.  The checkpoint file of [process_model_folder], when the run of a
    folder completes: whatever it holds is an initial segment of the records
    returned; and when the last image of the folder (in sorted order) has a
    record, it holds all of them. *)
Theorem checkpoint_contents (w : World) (st : State) :
  process_model_folder w = Ok st →
  (∀ saved, temp_csv st = Some saved → saved `prefix_of` records st) ∧
  (∀ f, NoDup (listdir w) → last (png_files w) = Some f →
        f ∈ image_filename <$> records st →
        temp_csv st = Some (records st)).
Proof.
  intros Hrun. split.
  - eapply loop_checkpoint_prefix; [|exact Hrun]. by intros saved [=].
  - intros f Hnd Hlast Hin. unfold process_model_folder in Hrun.
    apply png_files_NoDup in Hnd.
    apply last_Some in Hlast as [files Hfiles]. rewrite Hfiles in Hrun, Hnd.
    rewrite enumerate_app, length_app in Hrun. simpl in Hrun.
    apply loop_app in Hrun as (st1 & Hrun1 & Hlast).
    cbn [loop] in Hlast.
    destruct (step w _ _ st1) as [st2|] eqn:Hstep; [|done]. injection Hlast as ->.
    apply loop_content in Hrun1 as (_ & new & Hnew & Hsub & _).
    simpl in Hnew. rewrite snd_enumerate in Hsub.
    apply step_checkpoint in Hstep as [[Hr _] | [_ Ht]].
    + exfalso. rewrite Hr, Hnew in Hin.
      apply NoDup_app in Hnd as (_ & Hnot & _). apply (Hnot f); [|left].
      eapply elem_of_sublist; [exact Hin|exact Hsub].
    + rewrite Ht. destruct (_ || _) eqn:Hb; [done|].
      apply orb_false_iff in Hb as [_ Hb]. apply Nat.eqb_neq in Hb. lia.
Qed.

Lemma checkpoint_contents_witness :
  ∃ st, process_model_folder (folder 2 []) = Ok st ∧ temp_csv st = Some (records st).
Proof.
  let v := eval vm_compute in (process_model_folder (folder 2 [])) in
  lazymatch v with
  | Ok ?st =>
      exists st;
      assert (process_model_folder (folder 2 []) = Ok st) as E by (vm_compute; reflexivity)
  end.
  split; [exact E|].
  apply (proj2 (checkpoint_contents _ _ E) "2.png"); [compute_done|reflexivity|compute_done].
Defined.

(** X7.  What a folder costs: at most 200 images are looked at; every
    record took at least one remote call, and every image at most three. *)
Theorem process_model_folder_cost (w : World) (st : State) :
  process_model_folder w = Ok st →
  (List.length (records st) ≤ calls st ≤ 3 * List.length (png_files w))%nat ∧
  (List.length (png_files w) ≤ 200)%nat.
Proof.
  intros Hrun. split_and!.
  - eapply loop_record_calls; [exact Hrun|]. simpl. lia.
  - apply loop_content in Hrun as [Hcalls _]. rewrite length_enumerate in Hcalls.
    simpl in Hcalls. lia.
  - unfold png_files. rewrite length_take. unfold num_samples. lia.
Qed.

Lemma process_model_folder_cost_witness :
  ∃ st, process_model_folder service_down = Ok st ∧ (calls st ≤ 3)%nat.
Proof.
  destruct (process_model_folder service_down) as [st|] eqn:E.
  - exists st. split; [done|].
    destruct (process_model_folder_cost _ _ E) as [[_ H] _]. exact H.
  - exfalso. revert E. by vm_compute.
Defined.

(** What [int] reads: U+0663 and [5] as 35, a number between white space
    (here U+00A0 and a blank) with an underscore between its digits; not a
    name without digit. *)
Lemma int_examples :
  int (String "217" (String "163" "5")) = Ok 35 ∧
  int (String "194" (String "160" "-1_0 ")) = Ok (-10) ∧
  int "cover" = Raise ValueError.
Proof. split_and!; vm_compute; reflexivity. Qed.

(** X8.  The rows of [<model>_captions_sorted.csv]: each is about one
    [.png] file of the folder, has a caption that is not empty, as id the
    integer that [int] reads from the file name without [.png] (white space
    around it, a sign, digits of any script and underscores between digits
    are accepted), and as prompt the text of the [.txt] file of the same name
    without the white space at its ends; no image of a folder without
    repeated names has two rows. *)
Theorem model_csv_rows (w : World) (rows : list CaptionRecord) :
  model_csv w = Ok rows →
  (∀ r, r ∈ rows →
     image_filename r ∈ listdir w ∧ endswith (image_filename r) ".png" = true ∧
     caption r ≠ "" ∧
     int (replace (image_filename r) ".png" "") = Ok (id r) ∧
     ∃ text, read_text w (replace (image_filename r) ".png" "" +:+ ".txt") = Ok text ∧
             prompt r = strip text) ∧
  (NoDup (listdir w) → NoDup (image_filename <$> rows)).
Proof.
  intros (st & Hrun & ->)%model_csv_Ok.
  apply loop_content in Hrun as (_ & new & Hnew & Hsub & Hall).
  simpl in Hnew. rewrite Hnew. clear Hnew. rewrite snd_enumerate in Hsub. split.
  - intros r Hr. rewrite sort_values_perm in Hr.
    assert (image_filename r ∈ png_files w) as Hin.
    { eapply elem_of_sublist; [|exact Hsub]. by apply list_elem_of_fmap_2. }
    assert (image_filename r ∈ sorted (filter (λ f, endswith f ".png") (listdir w)))
      as Hin' by (eapply elem_of_sublist; [exact Hin|apply sublist_take]).
    clear Hin. rename Hin' into Hin.
    rewrite sorted_perm in Hin. apply list_elem_of_filter in Hin as [Hpng Hin].
    rewrite Forall_forall in Hall. destruct (Hall r Hr) as (? & ? & ?).
    split_and!; try done. by apply Is_true_true.
  - intros Hnd. rewrite sort_values_perm.
    eapply sublist_NoDup; [|exact Hsub]. by apply png_files_NoDup.
Qed.

Lemma model_csv_rows_witness :
  ∃ rows, model_csv (folder 2 []) = Ok rows ∧ NoDup (image_filename <$> rows).
Proof.
  destruct (model_csv (folder 2 [])) as [rows|] eqn:E.
  - exists rows. split; [done|]. apply (proj2 (model_csv_rows _ _ E)). compute_done.
  - exfalso. revert E. by vm_compute.
Defined.

(** X9.  Two ways to lose the run of a folder.  When no image gets a caption
    (the folder has no [.png] file, or the service fails at every call),
    [sort_values] raises [KeyError] on the frame without columns, and no
    checkpoint was written.  When the service answers and the folder has a
    captionable [.png] file whose name without [.png] [int] does not accept,
    [int] raises in the loop: no CSV is written for the folder. *)
Theorem folder_run_lost (w : World) :
  ((png_files w = [] ∨ (∀ k b, is_ok (api w k b) = false)) →
   model_csv w = Raise KeyError ∧
   ∃ st, process_model_folder w = Ok st ∧ records st = [] ∧ temp_csv st = None) ∧
  (∀ fname text c b64 e,
     (∀ k b, ∃ content, api w k b = Ok content ∧ strip content ≠ "") →
     fname ∈ png_files w →
     path_exists w (replace fname ".png" "" +:+ ".txt") = true →
     read_text w (replace fname ".png" "" +:+ ".txt") = Ok text →
     png_base64 w fname = Ok (String c b64) →
     int (replace fname ".png" "") = Raise e →
     ∃ e', process_model_folder w = Raise e' ∧ model_csv w = Raise e').
Proof.
  split.
  - intros Hnone.
    assert (∃ st, process_model_folder w = Ok st ∧ records st = [] ∧ temp_csv st = None)
      as (st & Hrun & Hrec & Htemp).
    { unfold process_model_folder. destruct Hnone as [-> | Hdown]; [by exists init|].
      destruct (loop_down w (List.length (png_files w)) (enumerate 1 (png_files w))
                  init Hdown) as (st & ? & ? & ?).
      by exists st. }
    split; [|by exists st]. unfold model_csv. by rewrite Hrun, Hrec.
  - intros fname text c b64 e Hapi Hin Hex Hread Henc Hint.
    destruct (loop_raises w (List.length (png_files w)) (enumerate 1 (png_files w))
                fname init) as [e' He'].
    + by rewrite snd_enumerate.
    + intros idx st. exists e. by eapply step_int_raises.
    + exists e'. unfold model_csv, process_model_folder. by rewrite He'.
Qed.

Lemma folder_run_lost_witness :
  model_csv service_down = Raise KeyError ∧ ∃ e, model_csv stray = Raise e.
Proof.
  split.
  - apply (proj1 (folder_run_lost service_down)). by right.
  - destruct (proj2 (folder_run_lost stray) "cover.png" "a prompt" "i"%char "VBORw0KGgo="
                ValueError) as (e & _ & He); try reflexivity.
    + intros k b. exists "A caption.". by split.
    + compute_done.
    + by exists e.
Defined.

End MultiModelExtras.

Module FolderContents.
Import Py Lexica FilenameFacts Invariants ExtractFacts LexicaInvariants.

Section contents.
Context (w : World) (imgs0 : gmap string string).

Lemma xfiles_init : xfiles w imgs0 (x_init imgs0).
Proof.
  split; simpl.
  - done.
  - intros r Hr. by apply elem_of_nil in Hr.
  - intros f b Hf. by left.
  - constructor.
Qed.

(** Only the records and the folder matter. *)
Lemma xfiles_same st st' :
  x_records st' = x_records st → x_images st' = x_images st →
  xfiles w imgs0 st → xfiles w imgs0 st'.
Proof. intros Hr Hi []. split; by rewrite ?Hr, ?Hi. Qed.

Lemma record_ok_insert imgs f b r :
  imgs !! f = None → record_ok w imgs r → record_ok w (<[f := b]> imgs) r.
Proof.
  intros Hnone (n & ext & b' & ? & ? & ? & ? & Hb' & ? & ?).
  exists n, ext, b'. split_and!; try done.
  rewrite lookup_insert_ne; [done|]. intros Heq. rewrite Heq in Hnone. congruence.
Qed.

Lemma save_image_xfiles prompt img_bytes img_ext st :
  truthy prompt = true → allowed_ext img_ext = true →
  xinv imgs0 st → xfiles w imgs0 st →
  xfiles w imgs0 (ending_state (save_image w prompt img_bytes img_ext st)).
Proof.
  intros Hprompt Hext Hinv Hfiles.
  pose proof Hfiles as [Hkept Hrec Hnew Hincr]. unfold save_image.
  destruct (truthy img_bytes) eqn:Htruthy; [|by apply (xfiles_same st)].
  case_bool_decide as Hex; [by apply (xfiles_same st)|].
  assert (x_images st !! img_filename_of (id_counter st) img_ext = None) as Hnone
    by by apply eq_None_not_Some.
  assert (∀ b' f b, imgs0 !! f = Some b →
            <[img_filename_of (id_counter st) img_ext := b']> (x_images st) !! f = Some b)
    as Hins.
  { intros b' f b Hf. rewrite lookup_insert_ne; [by apply Hkept|].
    intros <-. apply Hkept in Hf. by rewrite Hnone in Hf. }
  assert (xfiles w imgs0
            {| x_records := x_records st; id_counter := id_counter st;
               consecutive_fails := consecutive_fails st;
               x_images := <[img_filename_of (id_counter st) img_ext := ""]> (x_images st);
               gets := gets st |} ) as Hempty.
  { split; simpl; [by auto| | |done].
    - intros r Hr. by apply record_ok_insert, Hrec.
    - intros f b [[<- <-] | [Hne Hf]]%lookup_insert_Some; [by right; left|by apply Hnew]. }
  destruct img_bytes as [|s|b|d|t]; simpl; try by apply Hempty.
  destruct (pil_verify w b) eqn:Hverify; simpl.
  - split; simpl.
    + by auto.
    + intros r [Hr | ->%list_elem_of_singleton]%elem_of_app.
      * by apply record_ok_insert, Hrec.
      * exists (id_counter st), img_ext, b. simpl. rewrite lookup_insert_eq.
        split_and!; try done. intros ->. done.
    + intros f b' [[<- <-] | [Hne Hf]]%lookup_insert_Some.
      * right; right. eexists. split; [apply elem_of_app; right; left|done].
      * destruct (Hnew f b' Hf) as [? | [? | (r & Hr & <-)]]; [by left|by right; left|].
        right; right. exists r. split; [|done]. apply elem_of_app. by left.
    + apply StronglySorted_app_2; [|done|repeat constructor].
      intros r1 r2 Hr1 ->%list_elem_of_singleton. unfold counter_lt. simpl.
      rewrite counter_of_img_filename. by apply (xinv_below _ _ Hinv).
  - apply (xfiles_same st); simpl; [done| |done].
    by apply delete_insert_id.
Qed.

Lemma download_xfiles prompt img_url st :
  truthy prompt = true →
  xinv imgs0 st → xfiles w imgs0 st →
  xfiles w imgs0 (ending_state (download w prompt img_url st)).
Proof.
  intros Hprompt Hinv Hfiles. unfold download.
  destruct (allowed_ext _) eqn:Hext; simpl; [|done].
  destruct (http_get w _ _); simpl.
  - apply save_image_xfiles; [done|done| |].
    + by apply xinv_gets.
    + by apply (xfiles_same st).
  - by apply (xfiles_same st).
Qed.

Lemma try_row_xfiles row st :
  xinv imgs0 st → xfiles w imgs0 st →
  xfiles w imgs0 (ending_state (try_row w row st)).
Proof.
  intros Hinv Hfiles. unfold try_row.
  destruct (truthy (py_or (get row "text") (get row "prompt"))) eqn:Hprompt;
    cbn [negb orb]; [|done].
  destruct (truthy (py_or (get row "image") (get row "url"))); cbn [negb orb]; [|done].
  repeat case_match; try done;
    first [by apply save_image_xfiles | by apply download_xfiles].
Qed.

Lemma x_step_xfiles row st :
  xinv imgs0 st → xfiles w imgs0 st → xfiles w imgs0 (fst (x_step w row st)).
Proof.
  intros Hinv Hfiles. pose proof (try_row_xfiles row st Hinv Hfiles) as H.
  unfold x_step. destruct (try_row w row st) as [st1|st1]; simpl in *; [done|].
  by apply (xfiles_same st1).
Qed.

Lemma x_rows_xfiles rows : ∀ st,
  xinv imgs0 st → xfiles w imgs0 st → xfiles w imgs0 (x_rows w rows st).
Proof.
  induction rows as [|row rows IH]; intros st Hinv Hfiles; cbn [x_rows]; [done|].
  pose proof (x_step_xinv imgs0 w row st Hinv) as H1.
  pose proof (x_step_xfiles row st Hinv Hfiles) as H2.
  destruct (x_step w row st) as [st1 []]; [by apply IH|done].
Qed.

Lemma x_files_xfiles files : ∀ st,
  xinv imgs0 st → xfiles w imgs0 st → xfiles w imgs0 (x_files w files st).
Proof.
  induction files as [|file files IH]; intros st Hinv Hfiles; cbn [x_files]; [done|].
  destruct (read_parquet w file) as [[|row rows]|]; try by apply IH.
  pose proof (x_rows_xinv imgs0 w (row :: rows) st Hinv) as H1.
  pose proof (x_rows_xfiles (row :: rows) st Hinv Hfiles) as H2.
  destruct (_ <=? _)%nat; [done|by apply IH].
Qed.

End contents.

Lemma extract_and_download_xfiles w imgs0 :
  xfiles w imgs0 (extract_and_download w imgs0).
Proof. apply x_files_xfiles; [apply xinv_init|apply xfiles_init]. Qed.

(** ** Counting: a row costs at most one download and gives at most one
    record. *)

(** The records, the counter and the downloads of [st'] are those of [st]
    with at most [k] more. *)
Lemma save_image_count w prompt img_bytes img_ext st :
  let st' := ending_state (save_image w prompt img_bytes img_ext st) in
  gets st' = gets st ∧
  (List.length (x_records st') ≤ S (List.length (x_records st)))%nat ∧
  (id_counter st' ≤ S (id_counter st))%nat.
Proof.
  cbv zeta. unfold save_image.
  repeat case_match; simpl; rewrite ?length_app; simpl; lia.
Qed.

Lemma try_row_count w row st :
  let st' := ending_state (try_row w row st) in
  (gets st' ≤ S (gets st))%nat ∧
  (List.length (x_records st') ≤ S (List.length (x_records st)))%nat ∧
  (id_counter st' ≤ S (id_counter st))%nat.
Proof.
  assert (∀ prompt img_bytes img_ext st0,
    gets st0 ≤ S (gets st) → x_records st0 = x_records st → id_counter st0 = id_counter st →
    let st' := ending_state (save_image w prompt img_bytes img_ext st0) in
    (gets st' ≤ S (gets st))%nat ∧
    (List.length (x_records st') ≤ S (List.length (x_records st)))%nat ∧
    (id_counter st' ≤ S (id_counter st))%nat)%nat as Hsave.
  { intros prompt img_bytes img_ext st0 Hg Hr Hi.
    pose proof (save_image_count w prompt img_bytes img_ext st0) as H.
    cbv zeta in *. rewrite Hr, Hi in H. lia. }
  assert (∀ prompt img_url,
    let st' := ending_state (download w prompt img_url st) in
    (gets st' ≤ S (gets st))%nat ∧
    (List.length (x_records st') ≤ S (List.length (x_records st)))%nat ∧
    (id_counter st' ≤ S (id_counter st))%nat) as Hdown.
  { intros prompt img_url. cbv zeta. unfold download.
    destruct (negb _); [simpl; lia|].
    destruct (http_get w _ _); [|simpl; lia]. apply Hsave; simpl; (lia || done). }
  cbv zeta. unfold try_row. destruct (_ || _); [simpl; lia|].
  repeat case_match; try (simpl; lia); first [apply Hdown | apply Hsave; (lia || done)].
Qed.

Lemma x_rows_count w rows : ∀ st,
  let st' := x_rows w rows st in
  (gets st' ≤ gets st + List.length rows)%nat ∧
  (List.length (x_records st') ≤ List.length (x_records st) + List.length rows)%nat ∧
  (id_counter st' ≤ id_counter st + List.length rows)%nat.
Proof.
  induction rows as [|row rows IH]; intros st; cbn [x_rows]; [simpl; lia|].
  pose proof (try_row_count w row st) as H1. unfold x_step.
  destruct (try_row w row st) as [st1|st1]; simpl in H1.
  - specialize (IH st1). simpl in *. lia.
  - destruct (_ <=? _)%nat; simpl.
    + lia.
    + match goal with |- context [x_rows w rows ?s] => specialize (IH s) end.
      simpl in *. lia.
Qed.

Lemma x_files_count w files : ∀ st,
  let st' := x_files w files st in
  (gets st' ≤ gets st + row_count w files)%nat ∧
  (List.length (x_records st') ≤ List.length (x_records st) + row_count w files)%nat ∧
  (id_counter st' ≤ id_counter st + row_count w files)%nat.
Proof.
  induction files as [|file files IH]; intros st; cbn [x_files row_count]; [simpl; lia|].
  destruct (read_parquet w file) as [[|row rows]|].
  - specialize (IH st). simpl in *. lia.
  - pose proof (x_rows_count w (row :: rows) st) as H1.
    destruct (_ <=? _)%nat; [simpl in *; lia|].
    specialize (IH (x_rows w (row :: rows) st)). simpl in *. lia.
  - specialize (IH st). simpl in *. lia.
Qed.

End FolderContents.

Module PipelineFacts.
Import Py Lexica LexicaTrace CaptionFacts Invariants LexicaInvariants.

Lemma StronglySorted_lookup {A} (R : relation A) l i j x y :
  StronglySorted R l → l !! i = Some x → l !! j = Some y → (i < j)%nat → R x y.
Proof.
  intros Hs. revert i j. induction Hs as [|a l Hs IH Hall]; intros i j Hi Hj Hlt.
  - done.
  - destruct j as [|j]; [lia|]. simpl in Hj. destruct i as [|i]; simpl in Hi.
    + injection Hi as <-. rewrite Forall_forall in Hall.
      by apply Hall, (list_elem_of_lookup_2 _ j).
    + apply (IH i j); [done|done|lia].
Qed.

(** The records of one run of the loop of [caption_images]: each is about a
    row of the frame whose file was submitted to the service. *)
Lemma c_loop_new_records w imgs df : ∀ st r,
  r ∈ records (fst (c_loop w imgs df st)) →
  r ∈ records st ∨
  ∃ row, row ∈ df ∧ c_image_filename r = Some (image_filename row) ∧
         c_id r = PStr (id row) ∧ c_prompt r = prompt row ∧
         image_filename row ∈ calls (fst (c_loop w imgs df st)) ∧
         is_Some (imgs !! image_filename row).
Proof.
  induction df as [|row df IH]; intros st r; cbn [c_loop]; [by left|].
  assert (∀ st1 fl, c_step w imgs row st = (st1, fl) →
    ∀ r, r ∈ records st1 → r ∈ records st ∨
      (c_image_filename r = Some (image_filename row) ∧
       c_id r = PStr (id row) ∧ c_prompt r = prompt row ∧
       image_filename row ∈ calls st1 ∧ is_Some (imgs !! image_filename row))) as Hstep.
  { intros st1 fl. unfold c_step. case_bool_decide as Hex; simpl; [|intros [= <- _]; by left].
    destruct (negb (truthy_str _)); [intros [= <- _]; by left|].
    destruct (api w _ _); intros [= <- _] r'; simpl; [|by left].
    intros [? | ->%list_elem_of_singleton]%elem_of_app; [by left|right]. simpl.
    split_and!; try done. apply elem_of_app. right. left. }
  destruct (c_step w imgs row st) as [st1 fl] eqn:E. specialize (Hstep st1 fl eq_refl).
  destruct fl; simpl.
  - intros [Hr | (row' & Hrow' & ?)]%IH.
    + destruct (Hstep r Hr) as [? | (? & ? & ? & Hcall & ?)]; [by left|right].
      exists row. split_and!; try done; [left|].
      destruct (c_loop_effects w imgs df st1) as (subc & _ & _ & -> & _).
      apply elem_of_app. by left.
    + right. exists row'. split; [by right|done].
  - intros Hr. destruct (Hstep r Hr) as [? | ?]; [by left|right].
    exists row. split; [left|done].
Qed.

(** When every file of the frame is in the folder, no row is skipped as
    missing. *)
Lemma outcomes_not_missing w imgs df : ∀ st,
  (∀ row, row ∈ df → is_Some (imgs !! image_filename row)) →
  Missing ∉ outcomes w imgs df st.
Proof.
  induction df as [|row df IH]; intros st Hall; cbn [outcomes].
  - apply not_elem_of_nil.
  - apply not_elem_of_cons. split.
    + unfold outcome_of. rewrite bool_decide_eq_true_2 by (apply Hall; left). simpl.
      destruct (negb _); [done|]. by destruct (api w _ _) as [|[]].
    + destruct (c_step w imgs row st) as [st1 []];
        [apply IH; intros; apply Hall; by right|apply not_elem_of_nil].
Qed.

End PipelineFacts.

Module LexicaExtras.
Import Py Lexica LexicaExamples LexicaTrace FilenameFacts ExtractFacts CaptionFacts.
Import Invariants LexicaInvariants FolderContents PipelineFacts.

(** X10.  [extract_and_download] and the image folder.  A file that was in
    the folder when the run started is there afterwards with the same
    content.  A file that is there afterwards was there before, or is the
    file of a record of this run, or is an empty file (left by a write that
    raised). *)
Theorem image_folder_after_download (w : World) (imgs : gmap string string) :
  let xs := extract_and_download w imgs in
  (∀ f b, imgs !! f = Some b → x_images xs !! f = Some b) ∧
  (∀ f b, x_images xs !! f = Some b →
     imgs !! f = Some b ∨ b = "" ∨ ∃ r, r ∈ x_records xs ∧ image_filename r = f).
Proof.
  destruct (extract_and_download_xfiles w imgs) as [Hkept _ Hnew _]. by split.
Qed.

Lemma image_folder_after_download_witness :
  x_images (extract_and_download two_urls (images first_done)) !! "img_0000001.jpg"
    = Some "image bytes".
Proof.
  apply (proj1 (image_folder_after_download two_urls (images first_done))).
  vm_compute. reflexivity.
Defined.

(** X11.  The frame returned by [extract_and_download].  Every row is
    [img_<n>] with file [img_<n>.<ext>] for a counter [n] written with at
    least seven digits and an extension among jpg, jpeg, png and webp; its
    prompt is not empty; its file was not in the folder before, and is there
    now, not empty, with bytes that [verify] accepted.  The rows are in
    strictly increasing order of their counters. *)
Theorem extracted_records (w : World) (imgs : gmap string string) :
  let xs := extract_and_download w imgs in
  (∀ r, r ∈ x_records xs →
     record_ok w (x_images xs) r ∧ imgs !! image_filename r = None ∧
     (counter_of (image_filename r) < id_counter xs)%nat) ∧
  (∀ i j r1 r2, x_records xs !! i = Some r1 → x_records xs !! j = Some r2 →
     (i < j)%nat →
     (counter_of (image_filename r1) < counter_of (image_filename r2))%nat).
Proof.
  destruct (extract_and_download_xfiles w imgs) as [_ Hrec _ Hincr].
  destruct (extract_and_download_xinv w imgs) as [_ Hfresh Hbelow _].
  split.
  - intros r Hr. split_and!; auto.
  - intros i j r1 r2 Hi Hj Hlt. by apply (StronglySorted_lookup _ _ i j r1 r2 Hincr).
Qed.

Lemma extracted_records_witness :
  (counter_of "img_0000001.jpg" < counter_of "img_0000002.jpg")%nat.
Proof.
  apply (proj2 (extracted_records two_urls ∅) 0%nat 1%nat (row_of 1 "jpg") (row_of 2 "jpg"));
    [vm_compute; reflexivity..|lia].
Defined.

(** X12.  What [extract_and_download] costs: each row of a readable parquet
    file leads to at most one download and at most one record, and moves the
    counter by at most one. *)
Theorem extract_and_download_cost (w : World) (imgs : gmap string string) :
  let xs := extract_and_download w imgs in
  (gets xs ≤ row_count w (parquet_files w))%nat ∧
  (List.length (x_records xs) ≤ row_count w (parquet_files w))%nat ∧
  (id_counter xs ≤ 1 + row_count w (parquet_files w))%nat.
Proof.
  pose proof (x_files_count w (parquet_files w) (x_init imgs)) as H.
  unfold extract_and_download. simpl in *. lia.
Qed.

(** X13.  A run of the pipeline that writes the CSV.  In the frame that is
    written no caption is missing (NaN): the rows kept from the old CSV are
    those read with a caption, and a new row holds a string, the empty one
    when the answer of the service was blank (an empty cell of the file,
    which the next run reads as a missing caption).  A row captioned in this
    run is about a record of [extract_and_download]: its file was not in the
    folder before the run, is there after it with bytes that [verify]
    accepted, and was submitted to the service.  The test [os.path.exists(image_path)] of [caption_images]
    never fails: no row of the work queue is skipped as missing. *)
Theorem pipeline_rows (w : World) (fs : Files) :
  let xs := extract_and_download w (images fs) in
  (∀ rows r, written (main w fs) = Some rows → r ∈ rows → is_Some (c_caption r)) ∧
  (∀ r, r ∈ new_rows (main w fs) →
     ∃ f b, c_image_filename r = Some f ∧ images fs !! f = None ∧
            images (files_after (main w fs)) !! f = Some b ∧
            pil_verify w b = true ∧ f ∈ requests (main w fs)) ∧
  Missing ∉ outcomes w (x_images xs) (work_queue (output_csv fs) (x_records xs)) c_init.
Proof.
  pose proof (extract_and_download_xfiles w (images fs)) as [_ Hrec _ _].
  pose proof (extract_and_download_xinv w (images fs)) as [_ Hfresh _ _].
  cbv zeta. split_and!.
  - intros rows r. unfold main.
    destruct (x_records (extract_and_download w (images fs))) as [|r0 df]; [done|].
    unfold caption_images.
    destruct (work_queue (output_csv fs) (r0 :: df)) as [|q queue]; [done|]. simpl.
    intros [= <-] [Hr | Hr]%elem_of_app.
    + destruct (output_csv fs); simpl in Hr; [|by apply elem_of_nil in Hr].
      by apply list_elem_of_filter in Hr as [? _].
    + destruct (c_loop_effects w (x_images (extract_and_download w (images fs)))
                  (q :: queue) c_init) as (_ & new & _ & _ & _ & Hnew & _ & _ & Hall).
      simpl in Hnew. rewrite Hnew in Hr. rewrite Forall_forall in Hall.
      by apply Hall.
  - intros r. unfold main.
    destruct (x_records (extract_and_download w (images fs))) as [|r0 df] eqn:E;
      [intros Hr; by apply elem_of_nil in Hr|].
    rewrite <- E in *. clear E. unfold caption_images.
    destruct (work_queue (output_csv fs) _) as [|q queue] eqn:Eq;
      [intros Hr; by apply elem_of_nil in Hr|].
    rewrite <- Eq in *. clear Eq. simpl.
    intros [Hr | (row & Hrow & Hf & _ & _ & Hcall & _)]%c_loop_new_records;
      [by apply elem_of_nil in Hr|].
    eapply elem_of_sublist in Hrow; [|apply work_queue_sublist].
    destruct (Hrec row Hrow) as (n & ext & b & _ & _ & _ & _ & Hb & _ & Hverify).
    exists (image_filename row), b. split_and!; auto.
  - apply outcomes_not_missing. intros row Hrow.
    eapply elem_of_sublist in Hrow; [|apply work_queue_sublist].
    destruct (Hrec row Hrow) as (n & ext & b & _ & _ & _ & _ & Hb & _). by exists b.
Qed.

(** A blank answer gives a new row with an empty caption. *)
Lemma blank_answer_written :
  written (main {| listdir := ["part-0.parquet"];
                   read_parquet := λ _, Ok [url_row "http://host/a.jpg"];
                   http_get := λ _ _, Ok "image bytes";
                   pil_verify := λ _, true;
                   png_base64 := λ _, Ok "iVBORw0KGgo=";
                   api := λ _ _, Ok "  " |} fresh) =
    Some [csv_row 1 "jpg" (Some "")].
Proof. vm_compute. reflexivity. Qed.

Lemma pipeline_rows_witness :
  ∃ f b, Some "img_0000002.jpg" = Some f ∧ images first_done !! f = None ∧
         images (files_after (main two_urls first_done)) !! f = Some b ∧
         pil_verify two_urls b = true ∧ f ∈ requests (main two_urls first_done).
Proof.
  apply (proj1 (proj2 (pipeline_rows two_urls first_done))
           (csv_row 2 "jpg" (Some "A caption."))).
  vm_compute. left.
Defined.

End LexicaExtras.

Module ListingFacts.
Import Py PyFacts DigitFacts ConsolidateFacts.

(** Two listings of the same names are sorted to the same list. *)
Lemma sorted_Permutation names1 names2 :
  names1 ≡ₚ names2 → sorted names1 = sorted names2.
Proof.
  intros Hperm. apply (Sorted_unique String.le).
  - apply (Sorted_merge_sort _).
  - apply (Sorted_merge_sort _).
  - by rewrite !sorted_perm.
Qed.

Lemma sorted_filter_Permutation (P : string → Prop) `{!∀ f, Decision (P f)} names1 names2 :
  names1 ≡ₚ names2 → sorted (filter P names1) = sorted (filter P names2).
Proof. intros Hperm. apply sorted_Permutation. by rewrite Hperm. Qed.

End ListingFacts.

Module ConsolidateRows.
Import Py PyFacts DigitFacts PyRuns Consolidate ConsolidateFacts Invariants ListingFacts.

Lemma read_prompts_spec w files :
  Forall2 (λ f (d : string * string),
             ∃ text, read_text w f = Ok text ∧ d = (fst (splitext f), strip text))
    (filter (readable w) files) (read_prompts w files).
Proof.
  induction files as [|f files IH]; simpl; [constructor|].
  destruct (read_text w f) as [text|] eqn:E.
  - rewrite filter_cons_True by (unfold readable; by rewrite E).
    constructor; [by exists text|done].
  - rewrite filter_cons_False by (unfold readable; by rewrite E). done.
Qed.

(** The cast of the id column succeeds exactly when every cell has a digit
    run that [int] accepts and whose value fits the integer type. *)
Lemma astype_int_values (data : list (string * string)) ids :
  astype_int (str_extract (fst <$> data)) = Ok ids →
  Forall2 (λ (d : string * string) i,
             ∃ run, search_digits (fst d) = Some run ∧ i = digits_value run ∧
                    Z.of_nat (nchars run) ≤ max_str_digits ∧ 0 ≤ i < 2 ^ 63)
          data ids.
Proof.
  revert ids. induction data as [|d data IH]; intros ids.
  - intros [= <-]. constructor.
  - rewrite fmap_cons. unfold str_extract in *. rewrite fmap_cons.
    cbn [astype_int].
    destruct (search_digits d.1) as [run|] eqn:Hrun; [|done].
    rewrite (cell_astype_int_run _ _ Hrun).
    destruct (max_str_digits <? _) eqn:Hmax; [done|].
    destruct (digits_value run <? 2 ^ 63) eqn:Hlt; [|done].
    destruct (astype_int _) as [vs|]; [|done].
    intros [= <-]. constructor; [|by apply IH].
    exists run. apply Z.ltb_ge in Hmax. apply Z.ltb_lt in Hlt.
    pose proof (digits_value_nonneg run). by split_and!.
Qed.

Lemma astype_int_ok (data : list (string * string)) :
  Forall (λ d, ∃ run, search_digits (fst d) = Some run ∧
                 Z.of_nat (nchars run) ≤ max_str_digits ∧
                 digits_value run < 2 ^ 63) data →
  ∃ ids, astype_int (str_extract (fst <$> data)) = Ok ids.
Proof.
  induction 1 as [|d data (run & Hrun & Hmax & Hlt) _ [ids IH]].
  - by exists [].
  - rewrite fmap_cons. unfold str_extract in *. rewrite fmap_cons.
    cbn [astype_int]. rewrite Hrun, (cell_astype_int_run _ _ Hrun).
    apply Z.ltb_ge in Hmax. apply Z.ltb_lt in Hlt. rewrite Hmax, Hlt, IH. by eexists.
Qed.

Lemma int_Raise s e : int s = Raise e → e = ValueError.
Proof.
  unfold int. destruct (match trim _ _ with [] => _ | _ => _ end) as [negative body].
  destruct (int_body 0 false body); [|by intros [= <-]].
  destruct (_ <? _); [by intros [= <-]|done].
Qed.

Lemma astype_int_not_KeyError col e : astype_int col = Raise e → e ≠ KeyError.
Proof.
  induction col as [|c col IH]; cbn [astype_int]; [done|].
  destruct (cell_astype_int c) as [v|e'] eqn:Hc.
  - destruct (astype_int col); [done|]. intros [= <-]. by apply IH.
  - intros [= <-]. unfold cell_astype_int in Hc. destruct c as [run|]; [|by injection Hc as <-].
    destruct (int run) as [v|e''] eqn:Hint.
    + destruct (_ <? _); [done|]. by injection Hc as <-.
    + injection Hc as <-. by apply int_Raise in Hint as ->.
Qed.

Lemma elem_of_zip_rows (ids : list Z) (data : list (string * string)) r :
  r ∈ zip_with (λ i d, {| id := i; prompt_original := snd d |}) ids data →
  ∃ k i d, ids !! k = Some i ∧ data !! k = Some d ∧
           r = {| id := i; prompt_original := snd d |}.
Proof.
  intros (k & Hk)%list_elem_of_lookup_1.
  apply lookup_zip_with_Some in Hk as (i & d & -> & ? & ?). by exists k, i, d.
Qed.

Lemma txt_files_elem w f :
  f ∈ txt_files w ↔ f ∈ listdir w ∧ endswith f ".txt" = true.
Proof.
  unfold txt_files. rewrite sorted_perm, list_elem_of_filter, Is_true_true. tauto.
Qed.

Lemma read_prompts_nil w files :
  read_prompts w files = [] ↔ ∀ f, f ∈ files → ¬ readable w f.
Proof.
  pose proof (read_prompts_spec w files) as H. split.
  - intros Hnil f Hf Hread. rewrite Hnil in H. apply Forall2_nil_inv_r in H.
    assert (f ∈ filter (readable w) files) as Hin by by apply list_elem_of_filter.
    rewrite H in Hin. by apply elem_of_nil in Hin.
  - intros Hnone. destruct (filter (readable w) files) as [|f fs] eqn:E.
    + by apply Forall2_nil_inv_l in H.
    + assert (f ∈ filter (readable w) files) as Hin by (rewrite E; left).
      apply list_elem_of_filter in Hin as [Hread Hin]. by destruct (Hnone f Hin).
Qed.

End ConsolidateRows.

Module WorldFacts.
Import Py MultiModel.

(** The loop looks at the folder and the service through the four functions
    of the world only. *)
Lemma attempts_ext w1 w2 b64 delay remaining : ∀ attempt n,
  (∀ k b, api w1 k b = api w2 k b) →
  attempts w1 b64 delay attempt remaining n = attempts w2 b64 delay attempt remaining n.
Proof.
  induction remaining as [|remaining IH]; intros attempt n Hapi; simpl; [done|].
  rewrite Hapi. destruct (api w2 n b64); [done|]. by rewrite IH.
Qed.

Lemma step_ext w1 w2 total item st :
  (∀ p, path_exists w1 p = path_exists w2 p) →
  (∀ p, read_text w1 p = read_text w2 p) →
  (∀ p, png_base64 w1 p = png_base64 w2 p) →
  (∀ k b, api w1 k b = api w2 k b) →
  step w1 total item st = step w2 total item st.
Proof.
  intros Hex Hread Henc Hapi. destruct item as [idx fname].
  unfold step, encode_image, get_caption_from_api.
  rewrite Hex, Hread, Henc.
  destruct (negb _); [done|]. destruct (read_text w2 _); [|done].
  destruct (png_base64 w2 fname) as [[|c b64]|]; try done.
  by rewrite (attempts_ext w1 w2).
Qed.

Lemma loop_ext w1 w2 total items : ∀ st,
  (∀ p, path_exists w1 p = path_exists w2 p) →
  (∀ p, read_text w1 p = read_text w2 p) →
  (∀ p, png_base64 w1 p = png_base64 w2 p) →
  (∀ k b, api w1 k b = api w2 k b) →
  loop w1 total items st = loop w2 total items st.
Proof.
  induction items as [|item items IH]; intros st Hex Hread Henc Hapi; cbn [loop]; [done|].
  rewrite (step_ext w1 w2) by done.
  destruct (step w2 total item st); [by apply IH|done].
Qed.

End WorldFacts.

Module ConsolidateExtras.
Import Py PyFacts DigitFacts PyRuns Consolidate ConsolidateExamples ConsolidateFacts Invariants.
Import ListingFacts ConsolidateRows.

(** X14.  The rows of [ORIGINAL_prompts.csv]: there are as many as [.txt]
    files that could be read, and each of them comes from such a file: its
    prompt is the text of the file without the white space (of Unicode) at
    its ends, and its id the value of the first run of decimal digits (of
    any script) of the file name, a number from 0 to 2^63 - 1. *)
Theorem consolidate_rows (w : World) (rows : list PromptRecord) :
  consolidate w = Ok rows →
  List.length rows = List.length (filter (readable w) (txt_files w)) ∧
  ∀ r, r ∈ rows →
    ∃ fname text run,
      fname ∈ listdir w ∧ endswith fname ".txt" = true ∧
      read_text w fname = Ok text ∧ prompt_original r = strip text ∧
      first_maximal_digit_run fname run ∧ id r = digits_value run ∧
      0 ≤ id r < 2 ^ 63.
Proof.
  intros (ids & Hids & ->)%consolidate_Ok.
  apply astype_int_values in Hids.
  pose proof (read_prompts_spec w (txt_files w)) as Hdata.
  split.
  - rewrite sort_values_perm, length_zip_with.
    apply Forall2_length in Hids, Hdata. lia.
  - intros r Hr. rewrite sort_values_perm in Hr.
    apply elem_of_zip_rows in Hr as (k & i & d & Hi & Hd & ->).
    destruct (Forall2_lookup_r _ _ _ _ _ Hdata Hd) as (fname & Hf & text & Hread & ->).
    destruct (Forall2_lookup_l _ _ _ _ _ Hids Hd)
      as (i' & Hi' & run & Hrun & -> & _ & Hbound).
    rewrite Hi in Hi'. injection Hi' as ->.
    apply list_elem_of_lookup_2, list_elem_of_filter in Hf as [_ Hf].
    apply txt_files_elem in Hf as [Hin Htxt].
    exists fname, text, run. simpl in *.
    rewrite search_digits_stem in Hrun by done. apply search_digits_Some in Hrun.
    split_and!; try done; lia.
Qed.

Lemma consolidate_rows_witness :
  ∃ rows, consolidate three_files = Ok rows ∧ List.length rows = 3%nat.
Proof.
  let v := eval vm_compute in (consolidate three_files) in
  lazymatch v with
  | Ok ?rows =>
      exists rows;
      assert (consolidate three_files = Ok rows) as E by (vm_compute; reflexivity)
  end.
  split; [exact E|]. rewrite (proj1 (consolidate_rows _ _ E)). vm_compute. reflexivity.
Defined.

(** X15.  When the consolidator writes its CSV, and when it does not.  The
    run completes exactly when some [.txt] file of the folder can be read and
    the name of every [.txt] file that can be read has a run of decimal
    digits (of any script), of at most 4300 digits, whose value is below
    2^63.  It dies with [KeyError] (the frame has no column [id]) exactly
    when no [.txt] file of the folder can be read. *)
Theorem consolidate_outcome (w : World) :
  (is_ok (consolidate w) = true ↔
     (∃ f, f ∈ listdir w ∧ endswith f ".txt" = true ∧ readable w f) ∧
     (∀ f, f ∈ listdir w → endswith f ".txt" = true → readable w f →
        ∃ run, search_digits f = Some run ∧
               Z.of_nat (nchars run) ≤ max_str_digits ∧
               digits_value run < 2 ^ 63)) ∧
  (consolidate w = Raise KeyError ↔
     ∀ f, f ∈ listdir w → endswith f ".txt" = true → ¬ readable w f).
Proof.
  pose proof (read_prompts_spec w (txt_files w)) as Hdata.
  pose proof (read_prompts_nil w (txt_files w)) as Hnil.
  assert (∀ d, d ∈ read_prompts w (txt_files w) →
            ∃ f, f ∈ listdir w ∧ endswith f ".txt" = true ∧ readable w f ∧
                 search_digits (fst d) = search_digits f) as Hfrom.
  { intros d (k & Hk)%list_elem_of_lookup_1.
    destruct (Forall2_lookup_r _ _ _ _ _ Hdata Hk) as (f & Hf & text & _ & ->).
    apply list_elem_of_lookup_2, list_elem_of_filter in Hf as [Hread Hf].
    apply txt_files_elem in Hf as [Hin Htxt].
    exists f. split_and!; try done. by apply search_digits_stem. }
  assert (∀ f, f ∈ listdir w → endswith f ".txt" = true → readable w f →
            ∃ d, d ∈ read_prompts w (txt_files w) ∧
                 search_digits (fst d) = search_digits f) as Hto.
  { intros f Hin Htxt Hread.
    assert (f ∈ filter (readable w) (txt_files w)) as (k & Hk)%list_elem_of_lookup_1.
    { apply list_elem_of_filter. split; [done|]. by apply txt_files_elem. }
    destruct (Forall2_lookup_l _ _ _ _ _ Hdata Hk) as (d & Hd & text & _ & ->).
    eexists. split; [by eapply list_elem_of_lookup_2|]. by apply search_digits_stem. }
  split; split.
  - intros Hok. unfold consolidate in Hok.
    destruct (read_prompts w (txt_files w)) as [|d data] eqn:E; [done|].
    destruct (astype_int _) as [ids|] eqn:Hids; [|done]. split.
    + destruct (Hfrom d) as (f & ? & ? & ? & _); [left|]. by exists f.
    + intros f Hin Htxt Hread. destruct (Hto f Hin Htxt Hread) as (d' & Hd' & <-).
      apply astype_int_values in Hids.
      apply list_elem_of_lookup_1 in Hd' as (k & Hk).
      destruct (Forall2_lookup_l _ _ _ _ _ Hids Hk)
        as (i & _ & run & Hrun & -> & Hmax & Hb).
      exists run. split_and!; [done|done|lia].
  - intros [(f & Hin & Htxt & Hread) Hall]. unfold consolidate.
    destruct (read_prompts w (txt_files w)) as [|d data] eqn:E.
    + destruct (Hto f Hin Htxt Hread) as (d & Hd & _). by apply elem_of_nil in Hd.
    + destruct (astype_int_ok (d :: data)) as [ids ->]; [|done].
      apply Forall_forall. intros d' Hd'.
      destruct (Hfrom d' Hd') as (f' & Hin' & Htxt' & Hread' & ->). by apply Hall.
  - intros Hkey f Hin Htxt. apply Hnil; [|by apply txt_files_elem].
    unfold consolidate in Hkey.
    destruct (read_prompts w (txt_files w)) as [|d data]; [done|].
    destruct (astype_int _) as [ids|e] eqn:Hids; [done|].
    apply astype_int_not_KeyError in Hids. congruence.
  - intros Hnone. unfold consolidate.
    rewrite (proj2 Hnil); [done|].
    intros f [Hin Htxt]%txt_files_elem. by apply Hnone.
Qed.

Lemma consolidate_outcome_witness :
  (∃ f, f ∈ listdir three_files ∧ endswith f ".txt" = true ∧ readable three_files f) ∧
  consolidate (folder [("readme.md", "x")]) = Raise KeyError.
Proof.
  split.
  - apply (proj1 (proj1 (consolidate_outcome three_files))). vm_compute. reflexivity.
  - apply (proj2 (consolidate_outcome (folder [("readme.md", "x")]))).
    intros f [->|[]%elem_of_nil]%elem_of_cons. by vm_compute.
Defined.

End ConsolidateExtras.

Module ListingExtras.
Import Py ListingFacts WorldFacts ConsolidateExamples.

(** X16.  The order in which [os.listdir] returns the names does not
    matter to the consolidator nor to the per-model captioner: two folders
    that list the same names, with the same files behind them (and the same
    answers of the service), give the same CSV, or the same exception. *)
Theorem listing_order_irrelevant :
  (∀ w1 w2 : Consolidate.World,
     Consolidate.listdir w1 ≡ₚ Consolidate.listdir w2 →
     (∀ f, Consolidate.read_text w1 f = Consolidate.read_text w2 f) →
     Consolidate.consolidate w1 = Consolidate.consolidate w2) ∧
  (∀ w1 w2 : MultiModel.World,
     MultiModel.listdir w1 ≡ₚ MultiModel.listdir w2 →
     (∀ p, MultiModel.path_exists w1 p = MultiModel.path_exists w2 p) →
     (∀ p, MultiModel.read_text w1 p = MultiModel.read_text w2 p) →
     (∀ p, MultiModel.png_base64 w1 p = MultiModel.png_base64 w2 p) →
     (∀ k b, MultiModel.api w1 k b = MultiModel.api w2 k b) →
     MultiModel.process_model_folder w1 = MultiModel.process_model_folder w2 ∧
     MultiModel.model_csv w1 = MultiModel.model_csv w2).
Proof.
  split.
  - intros w1 w2 Hperm Hread. unfold Consolidate.consolidate.
    assert (Consolidate.txt_files w1 = Consolidate.txt_files w2) as ->
      by by apply sorted_filter_Permutation.
    assert (∀ files, Consolidate.read_prompts w1 files = Consolidate.read_prompts w2 files)
      as ->; [|done].
    induction files as [|f files IH]; simpl; [done|]. by rewrite Hread, IH.
  - intros w1 w2 Hperm Hex Hread Henc Hapi.
    assert (MultiModel.process_model_folder w1 = MultiModel.process_model_folder w2) as H.
    { unfold MultiModel.process_model_folder.
      assert (MultiModel.png_files w1 = MultiModel.png_files w2) as ->.
      { unfold MultiModel.png_files. f_equal. by apply sorted_filter_Permutation. }
      by apply loop_ext. }
    split; [done|]. unfold MultiModel.model_csv. by rewrite H.
Qed.

Lemma listing_order_irrelevant_witness :
  Consolidate.consolidate
    {| Consolidate.listdir := ["3.txt"; "10.txt"; "2.txt"];
       Consolidate.read_text := λ _, Ok "a prompt" |} =
  Consolidate.consolidate
    {| Consolidate.listdir := ["2.txt"; "3.txt"; "10.txt"];
       Consolidate.read_text := λ _, Ok "a prompt" |}.
Proof.
  apply (proj1 listing_order_irrelevant); [|done].
  apply (bool_decide_unpack _). by vm_compute.
Defined.

End ListingExtras.

Module ScriptFacts.
Import MultiModel MultiModelScript.


End ScriptFacts.

Module ScriptExtras.
Import MultiModel MultiModelExamples MultiModelFacts FolderFacts MultiModelScript ScriptFacts.



End ScriptExtras.
